(** * SPDY/3 framing codec (Jxck/go-spdy): shallow embedding and properties

    The development follows the Go sources:
    - [types.go]: constants, frame structs, error codes, the [Framer];
    - [write.go]: [WriteFrame] and the per-frame writers;
    - [read.go]:  [ReadFrame] and the per-frame readers.

    Unsigned machine integers are [Z] with the wrap-around written out,
    wire bytes are [Byte.byte], Go strings are [string] (byte sequences),
    [http.Header] is a finite map from names to value lists.  The zlib
    (de)compressor and the iteration order of Go maps are parameters. *)

From Stdlib Require Import ZArith Lia List.
From Stdlib.Strings Require Import Ascii String Byte.
From stdpp Require Import gmap strings list fin_maps.

Local Open Scope Z_scope.

(** ** Machine integers and big-endian encoding ([encoding/binary]) *)

Definition uint8 (z : Z) : Z := z mod 2 ^ 8.
Definition uint16 (z : Z) : Z := z mod 2 ^ 16.
Definition uint32 (z : Z) : Z := z mod 2 ^ 32.

Definition byte_of_Z (z : Z) : byte :=
  match Byte.of_N (Z.to_N (z mod 256)) with
  | Some b => b
  | None => x00
  end.

Definition Z_of_byte (b : byte) : Z := Z.of_N (Byte.to_N b).

(** [len] is Go's [len] on slices and strings. *)
Definition len {A} (l : list A) : Z := Z.of_nat (length l).

(** [binary.BigEndian.PutUint16 / PutUint32] *)
Definition putUint16 (v : Z) : list byte :=
  [byte_of_Z (Z.shiftr v 8); byte_of_Z v].

Definition putUint32 (v : Z) : list byte :=
  [byte_of_Z (Z.shiftr v 24); byte_of_Z (Z.shiftr v 16);
   byte_of_Z (Z.shiftr v 8); byte_of_Z v].

(** [binary.BigEndian.Uint32] on a 4-byte buffer. *)
Definition getUint32 (bs : list byte) : Z :=
  match bs with
  | [a; b; c; d] =>
      Z.lor (Z.shiftl (Z_of_byte a) 24)
        (Z.lor (Z.shiftl (Z_of_byte b) 16)
           (Z.lor (Z.shiftl (Z_of_byte c) 8) (Z_of_byte d)))
  | _ => 0
  end.

Definition getUint8 (bs : list byte) : Z :=
  match bs with
  | [a] => Z_of_byte a
  | _ => 0
  end.

(** Slicing with a [Z] count (no unary numbers for 32-bit quantities). *)
Fixpoint takeZ {A} (n : Z) (l : list A) : list A :=
  match l with
  | [] => []
  | x :: l' => if n <=? 0 then [] else x :: takeZ (n - 1) l'
  end.

Fixpoint dropZ {A} (n : Z) (l : list A) : list A :=
  match l with
  | [] => []
  | x :: l' => if n <=? 0 then l else dropZ (n - 1) l'
  end.

(** ** Constants of [types.go] *)

Definition Version : Z := 3.

Definition TypeSynStream : Z := 0x0001.
Definition TypeSynReply : Z := 0x0002.
Definition TypeRstStream : Z := 0x0003.
Definition TypeSettings : Z := 0x0004.
Definition TypePing : Z := 0x0006.
Definition TypeGoAway : Z := 0x0007.
Definition TypeHeaders : Z := 0x0008.
Definition TypeWindowUpdate : Z := 0x0009.

Definition MaxDataLength : Z := Z.shiftl 1 24 - 1.

(** [headerValueSeparator = "\x00"] *)
Definition headerValueSeparator : ascii := "000"%char.

(** ** Errors *)

Inductive ErrorCode : Set :=
| UnlowercasedHeaderName
| DuplicateHeaders
| WrongCompressedPayloadSize
| UnknownFrameType
| InvalidControlFrame
| InvalidDataFrame
| InvalidHeaderPresent
| ZeroStreamId.

(** The struct [Error{Err, StreamId}]. *)
Record Error : Set := mkError { Err : ErrorCode; StreamId : Z }.

(** Errors of the transport and of zlib, which the codec only forwards. *)
Inductive io_error : Set :=
| EOF
| ErrUnexpectedEOF
| ErrClosedPipe
| ErrZlib (code : Z)
| ErrNilReader.

(** A Go [error] value as returned by the codec. *)
Inductive error : Set :=
| SpdyError (e : Error)
| IoError (e : io_error).

#[global] Instance ErrorCode_eq_dec : EqDecision ErrorCode.
Proof. solve_decision. Defined.
#[global] Instance Error_eq_dec : EqDecision Error.
Proof. solve_decision. Defined.
#[global] Instance io_error_eq_dec : EqDecision io_error.
Proof. solve_decision. Defined.
#[global] Instance error_eq_dec : EqDecision error.
Proof. solve_decision. Defined.

(** ** Frames ([types.go]) *)

(** [http.Header], i.e. [map[string][]string]. *)
Abbreviation Header := (gmap string (list string)).

Module ControlFrameHeader.
Record t : Type := mk {
  version : Z;    (* uint16 *)
  frameType : Z;  (* ControlFrameType, uint16 *)
  Flags : Z;      (* ControlFlags, uint8 *)
  length : Z      (* uint32 *)
}.
Definition zero : t := mk 0 0 0 0.
End ControlFrameHeader.

Module SynStreamFrame.
Record t : Type := mk {
  CFHeader : ControlFrameHeader.t;
  StreamId : Z;              (* uint32 *)
  AssociatedToStreamId : Z;  (* uint32 *)
  Priority : Z;              (* uint8 *)
  Slot : Z;                  (* uint8 *)
  Headers : Header
}.
Definition zero : t := mk ControlFrameHeader.zero 0 0 0 0 ∅.
End SynStreamFrame.

Module SynReplyFrame.
Record t : Type := mk {
  CFHeader : ControlFrameHeader.t;
  StreamId : Z;
  Headers : Header
}.
Definition zero : t := mk ControlFrameHeader.zero 0 ∅.
End SynReplyFrame.

Module RstStreamFrame.
Record t : Type := mk {
  CFHeader : ControlFrameHeader.t;
  StreamId : Z;
  Status : Z   (* RSTStatusCode, uint32 *)
}.
Definition zero : t := mk ControlFrameHeader.zero 0 0.
End RstStreamFrame.

Module SettingsFlagIdValue.
Record t : Type := mk {
  Flag : Z;   (* SettingsFlag, uint8 *)
  Id : Z;     (* SettingsId, uint32 *)
  Value : Z   (* uint32 *)
}.
End SettingsFlagIdValue.

Module SettingsFrame.
Record t : Type := mk {
  CFHeader : ControlFrameHeader.t;
  FlagIdValues : list SettingsFlagIdValue.t
}.
Definition zero : t := mk ControlFrameHeader.zero [].
End SettingsFrame.

Module PingFrame.
Record t : Type := mk {
  CFHeader : ControlFrameHeader.t;
  Id : Z   (* uint32 *)
}.
Definition zero : t := mk ControlFrameHeader.zero 0.
End PingFrame.

Module GoAwayFrame.
Record t : Type := mk {
  CFHeader : ControlFrameHeader.t;
  LastGoodStreamId : Z;
  GoAwayStatus : Z   (* uint32 *)
}.
Definition zero : t := mk ControlFrameHeader.zero 0 0.
End GoAwayFrame.

Module HeadersFrame.
Record t : Type := mk {
  CFHeader : ControlFrameHeader.t;
  StreamId : Z;
  Headers : Header
}.
Definition zero : t := mk ControlFrameHeader.zero 0 ∅.
End HeadersFrame.

Module WindowUpdateFrame.
Record t : Type := mk {
  CFHeader : ControlFrameHeader.t;
  StreamId : Z;
  DeltaWindowSize : Z
}.
Definition zero : t := mk ControlFrameHeader.zero 0 0.
End WindowUpdateFrame.

Module DataFrame.
Record t : Type := mk {
  StreamId : Z;   (* uint32 *)
  Flags : Z;      (* DataFlags, uint8 *)
  Data : list byte
}.
End DataFrame.

(** The values behind the [controlFrame] interface. *)
Inductive controlFrame : Type :=
| CSynStream (frame : SynStreamFrame.t)
| CSynReply (frame : SynReplyFrame.t)
| CRstStream (frame : RstStreamFrame.t)
| CSettings (frame : SettingsFrame.t)
| CPing (frame : PingFrame.t)
| CGoAway (frame : GoAwayFrame.t)
| CHeaders (frame : HeadersFrame.t)
| CWindowUpdate (frame : WindowUpdateFrame.t).

(** The values behind the [Frame] interface. *)
Inductive Frame : Type :=
| Control (frame : controlFrame)
| Data (frame : DataFrame.t).

Coercion Control : controlFrame >-> Frame.

(** [invalidReqHeaders] and [invalidRespHeaders]: the keys are spelled in
    canonical MIME form in the source. *)
Definition invalidReqHeaders : gset string :=
  list_to_set ["Connection"; "Host"; "Keep-Alive"; "Proxy-Connection";
               "Transfer-Encoding"]%string.

Definition invalidRespHeaders : gset string :=
  list_to_set ["Connection"; "Keep-Alive"; "Proxy-Connection";
               "Transfer-Encoding"]%string.

(** ** The byte sink ([io.Writer])

    A sink records what was written to it.  [limit = None] is a sink that
    never fails (a [bytes.Buffer]); [limit = Some n] is a connection that
    takes [n] more bytes and then fails every [Write] with
    [io.ErrClosedPipe], after a short write. *)
Record Writer : Type := mkWriter {
  written : list byte;
  limit : option Z
}.

Definition Writer_Write (w : Writer) (p : list byte) : Writer * option error :=
  match limit w with
  | None => (mkWriter (written w ++ p) None, None)
  | Some n =>
      if len p <=? n
      then (mkWriter (written w ++ p) (Some (n - len p)), None)
      else (mkWriter (written w ++ takeZ n p) (Some 0),
            Some (IoError ErrClosedPipe))
  end.

(** Sequencing of writes to one sink: the first error ends the sequence
    ([if err = ...; err != nil { return }]). *)
Definition sink_action : Type := Writer → Writer * option error.

Definition sink_seq (a b : sink_action) : sink_action :=
  λ w, match a w with
       | (w', None) => b w'
       | (w', Some e) => (w', Some e)
       end.

Infix ">>" := sink_seq (at level 60, right associativity).

Definition sink_ok : sink_action := λ w, (w, None).
Definition sink_fail (e : error) : sink_action := λ w, (w, Some e).

(** [binary.Write(w, binary.BigEndian, v)] for the three widths used: one
    [Write] call with the encoded value. *)
Definition binary_Write8 (v : Z) : sink_action :=
  λ w, Writer_Write w [byte_of_Z v].
Definition binary_Write16 (v : Z) : sink_action :=
  λ w, Writer_Write w (putUint16 v).
Definition binary_Write32 (v : Z) : sink_action :=
  λ w, Writer_Write w (putUint32 v).

(** [writeControlFrameHeader] *)
Definition writeControlFrameHeader (h : ControlFrameHeader.t) : sink_action :=
  let controlBit := 0x8000 in
  binary_Write16 (Z.lor controlBit (ControlFrameHeader.version h)) >>
  binary_Write16 (ControlFrameHeader.frameType h) >>
  let flagsAndLength :=
    Z.lor (uint32 (Z.shiftl (ControlFrameHeader.Flags h) 24))
          (ControlFrameHeader.length h) in
  binary_Write32 flagsAndLength.

(** ** Strings ([strings], [net/textproto])

    The header names the codec handles are ASCII; [ToLower] is the ASCII
    case of [strings.ToLower] (bytes outside ['A'..'Z'] are kept). *)

Definition isUpper (c : ascii) : bool :=
  let n := N_of_ascii c in ((65 <=? n) && (n <=? 90))%N.

Definition isLower (c : ascii) : bool :=
  let n := N_of_ascii c in ((97 <=? n) && (n <=? 122))%N.

Definition toLowerByte (c : ascii) : ascii :=
  if isUpper c then ascii_of_N (N_of_ascii c + 32) else c.

Definition toUpperByte (c : ascii) : ascii :=
  if isLower c then ascii_of_N (N_of_ascii c - 32) else c.

Fixpoint ToLower (s : string) : string :=
  match s with
  | EmptyString => EmptyString
  | String c s' => String (toLowerByte c) (ToLower s')
  end.

(** [strings.Join(values, sep)] with a one-byte separator. *)
Fixpoint Join (values : list string) (sep : ascii) : string :=
  match values with
  | [] => EmptyString
  | [v] => v
  | v :: vs => (v ++ String sep (Join vs sep))%string
  end.

(** [strings.Split(s, sep)] with a one-byte separator: the pieces between
    the separators, [[""]] for the empty string. *)
Fixpoint Split (s : string) (sep : ascii) : list string :=
  match s with
  | EmptyString => [EmptyString]
  | String c s' =>
      if Ascii.eqb c sep then EmptyString :: Split s' sep
      else match Split s' sep with
           | [] => [String c EmptyString]
           | piece :: pieces => String c piece :: pieces
           end
  end.

(** [textproto.validHeaderFieldByte]: the token characters of RFC 7230. *)
Definition validHeaderFieldByte (c : ascii) : bool :=
  let n := N_of_ascii c in
  (isUpper c || isLower c || ((48 <=? n) && (n <=? 57))
   || bool_decide (n ∈ [33; 35; 36; 37; 38; 39; 42; 43; 45; 46; 94; 95; 96;
                        124; 126]))%N.

Definition isDash (c : ascii) : bool := Ascii.eqb c "-"%char.

Fixpoint allValid (s : string) : bool :=
  match s with
  | EmptyString => true
  | String c s' => validHeaderFieldByte c && allValid s'
  end.

(** The rewriting loop of [textproto.canonicalMIMEHeaderKey]: upper case for
    the first letter and for a letter after a dash, lower case elsewhere. *)
Fixpoint canonicalize (upper : bool) (a : string) : string :=
  match a with
  | EmptyString => EmptyString
  | String c a' =>
      let c := if upper then toUpperByte c else toLowerByte c in
      String c (canonicalize (isDash c) a')
  end.

(** [textproto.canonicalMIMEHeaderKey]: a key with a space or another
    invalid byte is returned as it is. *)
Definition canonicalMIMEHeaderKey (a : string) : string :=
  if allValid a then canonicalize true a else a.

(** [textproto.CanonicalMIMEHeaderKey], as in the current Go library: the
    quick scan returns [s] when it is already canonical or holds an invalid
    byte ("If s contains a space or invalid header field bytes, it is
    returned without modifications").  On names made of letters, digits and
    dashes all versions of the library agree. *)
Fixpoint canonicalScan (upper : bool) (rest s : string) : string :=
  match rest with
  | EmptyString => s
  | String c rest' =>
      if negb (validHeaderFieldByte c) then s
      else if upper && isLower c then canonicalMIMEHeaderKey s
      else if negb upper && isUpper c then canonicalMIMEHeaderKey s
      else canonicalScan (isDash c) rest' s
  end.

Definition CanonicalMIMEHeaderKey (s : string) : string :=
  canonicalScan true s s.

(** [http.Header.Add(key, value)]: the key is canonicalized with
    [CanonicalMIMEHeaderKey], the value is appended to the values stored
    under the canonical key.  The tables [invalidReqHeaders] and
    [invalidRespHeaders] rely on it: the readers look up the keys of the
    parsed map in them, and their entries are spelled ["Connection"],
    ["Host"], ... *)
Definition Header_Add (h : Header) (key value : string) : Header :=
  let key := CanonicalMIMEHeaderKey key in
  <[key := default [] (h !! key) ++ [value]]> h.

(** [h[name] != nil]: plain map indexing, no canonicalization. *)
Definition Header_index_non_nil (h : Header) (name : string) : bool :=
  match h !! name with
  | Some (_ :: _) => true
  | _ => false
  end.

(** [len(s)] of a Go string: its number of bytes. *)
Definition slen (s : string) : Z := Z.of_nat (String.length s).

(** ** External collaborators: zlib and the Go runtime

    [compress/zlib] is not part of the repository.  A compressor is a state
    with [Write] and [Flush], each giving the bytes that reach the
    underlying buffer.  A decompressor reads from the bounded reader: it is
    handed the bytes the bounded reader exposes and the number of plain
    bytes wanted ([io.ReadFull]), and gives back its new state, the plain
    bytes, how many compressed bytes it consumed and a possible error.
    [NewReaderDict] reads the zlib header from the bounded reader: it gives
    the number of bytes consumed and the new decompressor or an error. *)
Class Zlib : Type := {
  deflater : Type;
  inflater : Type;
  NewWriterLevelDict : deflater;
  deflater_Write : deflater → list byte → deflater * list byte;
  deflater_Flush : deflater → deflater * list byte;
  NewReaderDict : list byte → Z * (inflater + io_error);
  inflater_ReadFull :
    inflater → list byte → Z → inflater * list byte * Z * option io_error
}.

(** [for name, values := range h]: Go visits the entries of a map in an
    unspecified order; [range h] is the order of one traversal. *)
Class MapOrder : Type := {
  range : Header → list (string * list string);
  range_perm : ∀ h, range h ≡ₚ map_to_list h
}.

(** ** [writeHeaderValueBlock], for any [io.Writer] *)
Section HeaderBlockWriter.
Context {W : Type} (Write : W → list byte → W * option error).

(** One iteration of the loop body, then the rest of the loop.  [n] is the
    function's named result. *)
Fixpoint writeHeaderEntries (entries : list (string * list string))
    (w : W) (n : Z) : W * Z * option error :=
  match entries with
  | [] => (w, n, None)
  | (name, values) :: rest =>
      match Write w (putUint32 (uint32 (slen name))) with
      | (w, Some e) => (w, n, Some e)
      | (w, None) =>
          let n := n + 2 in
          let name := ToLower name in
          match Write w (list_byte_of_string name) with
          | (w, Some e) => (w, n, Some e)
          | (w, None) =>
              let n := n + slen name in
              let v := Join values headerValueSeparator in
              match Write w (putUint32 (uint32 (slen v))) with
              | (w, Some e) => (w, n, Some e)
              | (w, None) =>
                  let n := n + 2 in
                  match Write w (list_byte_of_string v) with
                  | (w, Some e) => (w, n, Some e)
                  | (w, None) =>
                      let n := n + slen v in
                      writeHeaderEntries rest w n
                  end
              end
          end
      end
  end.

(** [entries] lists [h] in the order [range h] visits it. *)
Definition writeHeaderValueBlock (w : W)
    (entries : list (string * list string)) : W * Z * option error :=
  let n := 0 in
  match Write w (putUint32 (uint32 (len entries))) with
  | (w, Some e) => (w, n, Some e)
  | (w, None) =>
      let n := n + 2 in
      writeHeaderEntries entries w n
  end.
End HeaderBlockWriter.

(** ** The [Framer] and the frame writers ([write.go]) *)
Section Codec.
Context {zlib : Zlib} {order : MapOrder}.

(** The struct [Framer].  [r] is the input still to be read;
    [headerReader_N] is the field [N] of the [io.LimitedReader] that wraps
    [r] for the decompressor. *)
Record Framer : Type := mkFramer {
  headerCompressionDisabled : bool;
  w : Writer;
  headerBuf : list byte;
  headerCompressor : deflater;
  r : list byte;
  headerReader_N : Z;
  headerDecompressor : option inflater
}.

Definition set_w (f : Framer) (x : Writer) : Framer :=
  mkFramer (headerCompressionDisabled f) x (headerBuf f)
    (headerCompressor f) (r f) (headerReader_N f) (headerDecompressor f).

Definition set_headerBuf (f : Framer) (x : list byte) : Framer :=
  mkFramer (headerCompressionDisabled f) (w f) x
    (headerCompressor f) (r f) (headerReader_N f) (headerDecompressor f).

Definition set_headerCompressor (f : Framer) (x : deflater) : Framer :=
  mkFramer (headerCompressionDisabled f) (w f) (headerBuf f)
    x (r f) (headerReader_N f) (headerDecompressor f).

Definition set_r (f : Framer) (x : list byte) : Framer :=
  mkFramer (headerCompressionDisabled f) (w f) (headerBuf f)
    (headerCompressor f) x (headerReader_N f) (headerDecompressor f).

Definition set_headerReader_N (f : Framer) (x : Z) : Framer :=
  mkFramer (headerCompressionDisabled f) (w f) (headerBuf f)
    (headerCompressor f) (r f) x (headerDecompressor f).

Definition set_headerDecompressor (f : Framer) (x : option inflater)
  : Framer :=
  mkFramer (headerCompressionDisabled f) (w f) (headerBuf f)
    (headerCompressor f) (r f) (headerReader_N f) x.

(** [NewFramer(w, r)] *)
Definition NewFramer (w : Writer) (r : list byte) : Framer :=
  mkFramer false w [] NewWriterLevelDict r 0 None.

(** The [io.Writer] the header block is marshalled to: [f.headerBuf], or
    [f.headerCompressor], which writes into [f.headerBuf]. *)
Definition headerWriter_Write (f : Framer) (p : list byte)
  : Framer * option error :=
  if headerCompressionDisabled f
  then (set_headerBuf f (headerBuf f ++ p), None)
  else
    let '(z, out) := deflater_Write (headerCompressor f) p in
    (set_headerBuf (set_headerCompressor f z) (headerBuf f ++ out), None).

(** [f.headerCompressor.Flush()] *)
Definition headerCompressor_Flush (f : Framer) : Framer :=
  let '(z, out) := deflater_Flush (headerCompressor f) in
  set_headerBuf (set_headerCompressor f z) (headerBuf f ++ out).

(** Lines "Marshal the headers" shared by the three header-bearing
    writers. *)
Definition marshalHeaders (f : Framer) (h : Header)
  : Framer * option error :=
  match writeHeaderValueBlock headerWriter_Write f (range h) with
  | (f, _, Some e) => (f, Some e)
  | (f, _, None) =>
      (if headerCompressionDisabled f then f
       else headerCompressor_Flush f, None)
  end.

Definition ZeroStreamIdError : error := SpdyError (mkError ZeroStreamId 0).

(** End of a writer: the sink after the writes, and on success the
    scratch buffer reset when [reset] is set. *)
Definition finish_write {F} (f : Framer) (frame : F) (reset : bool)
    (res : Writer * option error) : Framer * F * option error :=
  match res with
  | (w', Some e) => (set_w f w', frame, Some e)
  | (w', None) =>
      let f := set_w f w' in
      (if reset then set_headerBuf f [] else f, frame, None)
  end.

(** [RstStreamFrame.write] *)
Definition RstStreamFrame_write (frame : RstStreamFrame.t) (f : Framer)
  : Framer * RstStreamFrame.t * option error :=
  if RstStreamFrame.StreamId frame =? 0 then (f, frame, Some ZeroStreamIdError)
  else
    let frame :=
      RstStreamFrame.mk (ControlFrameHeader.mk Version TypeRstStream 0 8)
        (RstStreamFrame.StreamId frame) (RstStreamFrame.Status frame) in
    finish_write f frame false
      ((writeControlFrameHeader (RstStreamFrame.CFHeader frame) >>
        binary_Write32 (RstStreamFrame.StreamId frame) >>
        (if RstStreamFrame.Status frame =? 0
         then sink_fail (SpdyError (mkError InvalidControlFrame
                                      (RstStreamFrame.StreamId frame)))
         else binary_Write32 (RstStreamFrame.Status frame))) (w f)).

(** The loop of [SettingsFrame.write]. *)
Fixpoint writeFlagIdValues (l : list SettingsFlagIdValue.t) : sink_action :=
  match l with
  | [] => sink_ok
  | flagIdValue :: rest =>
      let flagId :=
        Z.lor (uint32 (Z.shiftl (SettingsFlagIdValue.Flag flagIdValue) 24))
              (SettingsFlagIdValue.Id flagIdValue) in
      binary_Write32 flagId >>
      binary_Write32 (SettingsFlagIdValue.Value flagIdValue) >>
      writeFlagIdValues rest
  end.

(** [SettingsFrame.write]: the caller's [Flags] are kept. *)
Definition SettingsFrame_write (frame : SettingsFrame.t) (f : Framer)
  : Framer * SettingsFrame.t * option error :=
  let frame :=
    SettingsFrame.mk
      (ControlFrameHeader.mk Version TypeSettings
         (ControlFrameHeader.Flags (SettingsFrame.CFHeader frame))
         (uint32 (len (SettingsFrame.FlagIdValues frame) * 8 + 4)))
      (SettingsFrame.FlagIdValues frame) in
  finish_write f frame false
    ((writeControlFrameHeader (SettingsFrame.CFHeader frame) >>
      binary_Write32 (uint32 (len (SettingsFrame.FlagIdValues frame))) >>
      writeFlagIdValues (SettingsFrame.FlagIdValues frame)) (w f)).

(** [PingFrame.write] *)
Definition PingFrame_write (frame : PingFrame.t) (f : Framer)
  : Framer * PingFrame.t * option error :=
  if PingFrame.Id frame =? 0 then (f, frame, Some ZeroStreamIdError)
  else
    let frame :=
      PingFrame.mk (ControlFrameHeader.mk Version TypePing 0 4)
        (PingFrame.Id frame) in
    finish_write f frame false
      ((writeControlFrameHeader (PingFrame.CFHeader frame) >>
        binary_Write32 (PingFrame.Id frame)) (w f)).

(** [GoAwayFrame.write] *)
Definition GoAwayFrame_write (frame : GoAwayFrame.t) (f : Framer)
  : Framer * GoAwayFrame.t * option error :=
  let frame :=
    GoAwayFrame.mk (ControlFrameHeader.mk Version TypeGoAway 0 8)
      (GoAwayFrame.LastGoodStreamId frame) (GoAwayFrame.GoAwayStatus frame) in
  finish_write f frame false
    ((writeControlFrameHeader (GoAwayFrame.CFHeader frame) >>
      binary_Write32 (GoAwayFrame.LastGoodStreamId frame) >>
      binary_Write32 (GoAwayFrame.GoAwayStatus frame)) (w f)).

(** [WindowUpdateFrame.write] *)
Definition WindowUpdateFrame_write (frame : WindowUpdateFrame.t)
    (f : Framer) : Framer * WindowUpdateFrame.t * option error :=
  let frame :=
    WindowUpdateFrame.mk
      (ControlFrameHeader.mk Version TypeWindowUpdate 0 8)
      (WindowUpdateFrame.StreamId frame)
      (WindowUpdateFrame.DeltaWindowSize frame) in
  finish_write f frame false
    ((writeControlFrameHeader (WindowUpdateFrame.CFHeader frame) >>
      binary_Write32 (WindowUpdateFrame.StreamId frame) >>
      binary_Write32 (WindowUpdateFrame.DeltaWindowSize frame)) (w f)).

(** [Framer.writeSynStreamFrame] *)
Definition writeSynStreamFrame (f : Framer) (frame : SynStreamFrame.t)
  : Framer * SynStreamFrame.t * option error :=
  if SynStreamFrame.StreamId frame =? 0
  then (f, frame, Some ZeroStreamIdError)
  else
    match marshalHeaders f (SynStreamFrame.Headers frame) with
    | (f, Some e) => (f, frame, Some e)
    | (f, None) =>
        let frame :=
          SynStreamFrame.mk
            (ControlFrameHeader.mk Version TypeSynStream
               (ControlFrameHeader.Flags (SynStreamFrame.CFHeader frame))
               (uint32 (len (headerBuf f) + 10)))
            (SynStreamFrame.StreamId frame)
            (SynStreamFrame.AssociatedToStreamId frame)
            (SynStreamFrame.Priority frame) (SynStreamFrame.Slot frame)
            (SynStreamFrame.Headers frame) in
        finish_write f frame true
          ((writeControlFrameHeader (SynStreamFrame.CFHeader frame) >>
            binary_Write32 (SynStreamFrame.StreamId frame) >>
            binary_Write32 (SynStreamFrame.AssociatedToStreamId frame) >>
            binary_Write8 (uint8 (Z.shiftl (SynStreamFrame.Priority frame) 5)) >>
            binary_Write8 (SynStreamFrame.Slot frame) >>
            (λ w, Writer_Write w (headerBuf f))) (w f))
    end.

(** [Framer.writeSynReplyFrame] *)
Definition writeSynReplyFrame (f : Framer) (frame : SynReplyFrame.t)
  : Framer * SynReplyFrame.t * option error :=
  if SynReplyFrame.StreamId frame =? 0
  then (f, frame, Some ZeroStreamIdError)
  else
    match marshalHeaders f (SynReplyFrame.Headers frame) with
    | (f, Some e) => (f, frame, Some e)
    | (f, None) =>
        let frame :=
          SynReplyFrame.mk
            (ControlFrameHeader.mk Version TypeSynReply
               (ControlFrameHeader.Flags (SynReplyFrame.CFHeader frame))
               (uint32 (len (headerBuf f) + 4)))
            (SynReplyFrame.StreamId frame) (SynReplyFrame.Headers frame) in
        finish_write f frame true
          ((writeControlFrameHeader (SynReplyFrame.CFHeader frame) >>
            binary_Write32 (SynReplyFrame.StreamId frame) >>
            (λ w, Writer_Write w (headerBuf f))) (w f))
    end.

(** [Framer.writeHeadersFrame] *)
Definition writeHeadersFrame (f : Framer) (frame : HeadersFrame.t)
  : Framer * HeadersFrame.t * option error :=
  if HeadersFrame.StreamId frame =? 0
  then (f, frame, Some ZeroStreamIdError)
  else
    match marshalHeaders f (HeadersFrame.Headers frame) with
    | (f, Some e) => (f, frame, Some e)
    | (f, None) =>
        let frame :=
          HeadersFrame.mk
            (ControlFrameHeader.mk Version TypeHeaders
               (ControlFrameHeader.Flags (HeadersFrame.CFHeader frame))
               (uint32 (len (headerBuf f) + 4)))
            (HeadersFrame.StreamId frame) (HeadersFrame.Headers frame) in
        finish_write f frame true
          ((writeControlFrameHeader (HeadersFrame.CFHeader frame) >>
            binary_Write32 (HeadersFrame.StreamId frame) >>
            (λ w, Writer_Write w (headerBuf f))) (w f))
    end.

(** [Framer.writeDataFrame] *)
Definition writeDataFrame (f : Framer) (frame : DataFrame.t)
  : Framer * DataFrame.t * option error :=
  if DataFrame.StreamId frame =? 0 then (f, frame, Some ZeroStreamIdError)
  else if negb (Z.land (DataFrame.StreamId frame) 0x80000000 =? 0)
          || (0x0f000000 <=? len (DataFrame.Data frame))
  then (f, frame,
        Some (SpdyError (mkError InvalidDataFrame (DataFrame.StreamId frame))))
  else
    let flagsAndLength :=
      Z.lor (uint32 (Z.shiftl (DataFrame.Flags frame) 24))
            (uint32 (len (DataFrame.Data frame))) in
    finish_write f frame false
      ((binary_Write32 (DataFrame.StreamId frame) >>
        binary_Write32 flagsAndLength >>
        (λ w, Writer_Write w (DataFrame.Data frame))) (w f)).

(** [controlFrame.write], the dynamic dispatch on the frame value. *)
Definition controlFrame_write (frame : controlFrame) (f : Framer)
  : Framer * controlFrame * option error :=
  match frame with
  | CSynStream fr =>
      let '(f, fr, e) := writeSynStreamFrame f fr in (f, CSynStream fr, e)
  | CSynReply fr =>
      let '(f, fr, e) := writeSynReplyFrame f fr in (f, CSynReply fr, e)
  | CRstStream fr =>
      let '(f, fr, e) := RstStreamFrame_write fr f in (f, CRstStream fr, e)
  | CSettings fr =>
      let '(f, fr, e) := SettingsFrame_write fr f in (f, CSettings fr, e)
  | CPing fr =>
      let '(f, fr, e) := PingFrame_write fr f in (f, CPing fr, e)
  | CGoAway fr =>
      let '(f, fr, e) := GoAwayFrame_write fr f in (f, CGoAway fr, e)
  | CHeaders fr =>
      let '(f, fr, e) := writeHeadersFrame f fr in (f, CHeaders fr, e)
  | CWindowUpdate fr =>
      let '(f, fr, e) := WindowUpdateFrame_write fr f in
      (f, CWindowUpdate fr, e)
  end.

(** [Framer.WriteFrame]: the framer after the call, the frame value after
    the call (the writers fill in its [CFHeader]) and the error. *)
Definition WriteFrame (f : Framer) (frame : Frame)
  : Framer * Frame * option error :=
  match frame with
  | Control fr =>
      let '(f, fr, e) := controlFrame_write fr f in (f, Control fr, e)
  | Data fr =>
      let '(f, fr, e) := writeDataFrame f fr in (f, Data fr, e)
  end.
End Codec.

(** ** Reading: a state-and-error monad over the reader *)

Definition reading (S A : Type) : Type := S → S * (A + error).

Definition rret {S A} (a : A) : reading S A := λ s, (s, inl a).
Definition rfail {S A} (e : error) : reading S A := λ s, (s, inr e).

Definition rbind {S A B} (c : reading S A) (k : A → reading S B)
  : reading S B :=
  λ s, match c s with
       | (s', inl a) => k a s'
       | (s', inr e) => (s', inr e)
       end.

Notation "'let*' x ':=' c 'in' k" := (rbind c (λ x, k))
  (at level 10, x name, c at level 100, k at level 200).

(** ** [parseHeaderValueBlock], for any [io.Reader]

    [Read n] stands for [io.ReadFull] on the reader with a buffer of
    [n > 0] bytes. *)
Section HeaderBlockReader.
Context {R : Type} (Read : Z → reading R (list byte)).

(** [io.ReadFull(r, buf)]: an empty buffer is filled without a read. *)
Definition io_ReadFull (n : Z) : reading R (list byte) :=
  if n =? 0 then rret [] else Read n.

(** [binary.Read(r, binary.BigEndian, &x)] for a [uint32]. *)
Definition binary_Read32 : reading R Z :=
  let* bs := io_ReadFull 4 in rret (getUint32 bs).

(** [binary.Read(r, binary.BigEndian, &x)] for a [uint8]. *)
Definition binary_Read8 : reading R Z :=
  let* bs := io_ReadFull 1 in rret (getUint8 bs).

(** The loop of [parseHeaderValueBlock]; [count] iterations are left, [h]
    is the map built so far and [e] the diagnostic recorded so far. *)
Fixpoint parseHeaderEntries (streamId : Z) (count : nat) (h : Header)
    (e : option Error) : reading R (Header * option Error) :=
  match count with
  | O => rret (h, e)
  | S count' =>
      let* length := binary_Read32 in
      let* nameBytes := io_ReadFull length in
      let name := string_of_list_byte nameBytes in
      let unlowercased := negb (String.eqb name (ToLower name)) in
      let e := if unlowercased
               then Some (mkError UnlowercasedHeaderName streamId) else e in
      let name := if unlowercased then ToLower name else name in
      let e := if Header_index_non_nil h name
               then Some (mkError DuplicateHeaders streamId) else e in
      let* length := binary_Read32 in
      let* value := io_ReadFull length in
      let valueList :=
        Split (string_of_list_byte value) headerValueSeparator in
      let h := fold_left (λ h v, Header_Add h name v) valueList h in
      parseHeaderEntries streamId count' h e
  end.

(** [parseHeaderValueBlock]: [inl (h, e)] is the Go result [(h, e)] with
    the diagnostic [e] possibly nil, [inr err] is [(nil, err)]. *)
Definition parseHeaderValueBlock (streamId : Z)
  : reading R (Header * option Error) :=
  let* numHeaders := binary_Read32 in
  parseHeaderEntries streamId (Z.to_nat numHeaders) ∅ None.
End HeaderBlockReader.

(** [io.ReadFull] on an in-memory byte source, for [n > 0]. *)
Definition bytes_Read (n : Z) : reading (list byte) (list byte) :=
  λ src,
    if n <=? len src then (dropZ n src, inl (takeZ n src))
    else match src with
         | [] => ([], inr (IoError EOF))
         | _ => ([], inr (IoError ErrUnexpectedEOF))
         end.

(** [for h := range headers { if invalid[h] { return ... } }] *)
Definition hasInvalidHeader (invalid : gset string) (headers : Header)
  : bool :=
  existsb (λ kv, bool_decide (kv.1 ∈ invalid)) (map_to_list headers).

(** ** The frame readers ([read.go]) *)
Section Reader.
Context {zlib : Zlib} {order : MapOrder}.

(** [io.ReadFull(f.r, buf)] with [n > 0] bytes wanted. *)
Definition Framer_Read (n : Z) : reading Framer (list byte) :=
  λ f, let '(src, res) := bytes_Read n (r f) in (set_r f src, res).

(** [io.ReadFull(f.headerDecompressor, buf)] with [n > 0] bytes wanted:
    the decompressor sees at most [f.headerReader.N] bytes of [f.r], and
    what it consumes is taken from both. *)
Definition headerDecompressor_Read (n : Z) : reading Framer (list byte) :=
  λ f,
    match headerDecompressor f with
    | None => (f, inr (IoError ErrNilReader))
    | Some z =>
        let avail := takeZ (headerReader_N f) (r f) in
        let '(z, out, c, e) := inflater_ReadFull z avail n in
        let c := Z.max 0 (Z.min c (len avail)) in
        let f :=
          set_headerDecompressor
            (set_headerReader_N (set_r f (dropZ c (r f)))
               (headerReader_N f - c))
            (Some z) in
        (f, match e with
            | None => inl out
            | Some e => inr (IoError e)
            end)
    end.

(** [Framer.uncorkHeaderDecompressor] *)
Definition uncorkHeaderDecompressor (f : Framer) (payloadSize : Z)
  : Framer * option error :=
  match headerDecompressor f with
  | Some _ => (set_headerReader_N f payloadSize, None)
  | None =>
      let f := set_headerReader_N f payloadSize in
      let avail := takeZ (headerReader_N f) (r f) in
      let '(c, res) := NewReaderDict avail in
      let c := Z.max 0 (Z.min c (len avail)) in
      let f :=
        set_headerReader_N (set_r f (dropZ c (r f))) (headerReader_N f - c) in
      match res with
      | inr err => (f, Some (IoError err))
      | inl decompressor =>
          (set_headerDecompressor f (Some decompressor), None)
      end
  end.

(** The lines from [reader := f.r] to the first [if err != nil] that the
    three header-bearing readers share; [payloadSize] is the argument
    they give to [uncorkHeaderDecompressor]. *)
Definition readHeaders (payloadSize streamId : Z)
  : reading Framer Header :=
  λ f,
    let disabled := headerCompressionDisabled f in
    match (if disabled then (f, None)
           else uncorkHeaderDecompressor f payloadSize) with
    | (f, Some err) => (f, inr err)
    | (f, None) =>
        let reader :=
          if disabled then Framer_Read else headerDecompressor_Read in
        let '(f, res) := parseHeaderValueBlock reader streamId f in
        let err :=
          match res with
          | inl (_, e) => SpdyError <$> e
          | inr err => Some err
          end in
        let err :=
          if negb disabled
             && ((bool_decide (err = Some (IoError EOF))
                  && (headerReader_N f =? 0))
                 || negb (headerReader_N f =? 0))
          then Some (SpdyError (mkError WrongCompressedPayloadSize 0))
          else err in
        match err, res with
        | Some err, _ => (f, inr err)
        | None, inl (h, _) => (f, inl h)
        | None, inr err => (f, inr err)
        end
    end.

(** [Framer.readSynStreamFrame] *)
Definition readSynStreamFrame (h : ControlFrameHeader.t)
    (frame : SynStreamFrame.t) : reading Framer SynStreamFrame.t :=
  let* StreamId := binary_Read32 Framer_Read in
  let* AssociatedToStreamId := binary_Read32 Framer_Read in
  let* Priority := binary_Read8 Framer_Read in
  let Priority := Z.shiftr Priority 5 in
  let* Slot := binary_Read8 Framer_Read in
  let* Headers :=
    readHeaders (uint32 (ControlFrameHeader.length h - 10)) StreamId in
  if hasInvalidHeader invalidReqHeaders Headers
  then rfail (SpdyError (mkError InvalidHeaderPresent StreamId))
  else if StreamId =? 0 then rfail ZeroStreamIdError
  else rret (SynStreamFrame.mk h StreamId AssociatedToStreamId Priority
               Slot Headers).

(** [Framer.readSynReplyFrame] *)
Definition readSynReplyFrame (h : ControlFrameHeader.t)
    (frame : SynReplyFrame.t) : reading Framer SynReplyFrame.t :=
  let* StreamId := binary_Read32 Framer_Read in
  let* Headers :=
    readHeaders (uint32 (ControlFrameHeader.length h - 4)) StreamId in
  if hasInvalidHeader invalidRespHeaders Headers
  then rfail (SpdyError (mkError InvalidHeaderPresent StreamId))
  else if StreamId =? 0 then rfail ZeroStreamIdError
  else rret (SynReplyFrame.mk h StreamId Headers).

(** [Framer.readHeadersFrame] *)
Definition readHeadersFrame (h : ControlFrameHeader.t)
    (frame : HeadersFrame.t) : reading Framer HeadersFrame.t :=
  let* StreamId := binary_Read32 Framer_Read in
  let* Headers :=
    readHeaders (uint32 (ControlFrameHeader.length h - 4)) StreamId in
  let invalidHeaders :=
    if StreamId mod 2 =? 0 then invalidReqHeaders
    else invalidRespHeaders in
  if hasInvalidHeader invalidHeaders Headers
  then rfail (SpdyError (mkError InvalidHeaderPresent StreamId))
  else if StreamId =? 0 then rfail ZeroStreamIdError
  else rret (HeadersFrame.mk h StreamId Headers).

(** [RstStreamFrame.read] *)
Definition RstStreamFrame_read (h : ControlFrameHeader.t)
    (frame : RstStreamFrame.t) : reading Framer RstStreamFrame.t :=
  let* StreamId := binary_Read32 Framer_Read in
  let* Status := binary_Read32 Framer_Read in
  if Status =? 0
  then rfail (SpdyError (mkError InvalidControlFrame StreamId))
  else if StreamId =? 0 then rfail ZeroStreamIdError
  else rret (RstStreamFrame.mk h StreamId Status).

(** The loop of [SettingsFrame.read]. *)
Fixpoint readFlagIdValues (count : nat)
  : reading Framer (list SettingsFlagIdValue.t) :=
  match count with
  | O => rret []
  | S count' =>
      let* Id := binary_Read32 Framer_Read in
      let Flag := Z.shiftr (Z.land Id 0xff000000) 24 in
      let Id := Z.land Id 0xffffff in
      let* Value := binary_Read32 Framer_Read in
      let* rest := readFlagIdValues count' in
      rret (SettingsFlagIdValue.mk Flag Id Value :: rest)
  end.

(** [SettingsFrame.read] *)
Definition SettingsFrame_read (h : ControlFrameHeader.t)
    (frame : SettingsFrame.t) : reading Framer SettingsFrame.t :=
  let* numSettings := binary_Read32 Framer_Read in
  let* FlagIdValues := readFlagIdValues (Z.to_nat numSettings) in
  rret (SettingsFrame.mk h FlagIdValues).

(** [PingFrame.read] *)
Definition PingFrame_read (h : ControlFrameHeader.t) (frame : PingFrame.t)
  : reading Framer PingFrame.t :=
  let* Id := binary_Read32 Framer_Read in
  if Id =? 0 then rfail ZeroStreamIdError
  else if negb (ControlFrameHeader.Flags h =? 0)
  then rfail (SpdyError (mkError InvalidControlFrame Id))
  else rret (PingFrame.mk h Id).

(** [GoAwayFrame.read] *)
Definition GoAwayFrame_read (h : ControlFrameHeader.t)
    (frame : GoAwayFrame.t) : reading Framer GoAwayFrame.t :=
  let* LastGoodStreamId := binary_Read32 Framer_Read in
  if negb (ControlFrameHeader.Flags h =? 0)
  then rfail (SpdyError (mkError InvalidControlFrame LastGoodStreamId))
  else if negb (ControlFrameHeader.length h =? 8)
  then rfail (SpdyError (mkError InvalidControlFrame LastGoodStreamId))
  else
    let* GoAwayStatus := binary_Read32 Framer_Read in
    rret (GoAwayFrame.mk h LastGoodStreamId GoAwayStatus).

(** [WindowUpdateFrame.read] *)
Definition WindowUpdateFrame_read (h : ControlFrameHeader.t)
    (frame : WindowUpdateFrame.t) : reading Framer WindowUpdateFrame.t :=
  let* StreamId := binary_Read32 Framer_Read in
  if negb (ControlFrameHeader.Flags h =? 0)
  then rfail (SpdyError (mkError InvalidControlFrame StreamId))
  else if negb (ControlFrameHeader.length h =? 8)
  then rfail (SpdyError (mkError InvalidControlFrame StreamId))
  else
    let* DeltaWindowSize := binary_Read32 Framer_Read in
    rret (WindowUpdateFrame.mk h StreamId DeltaWindowSize).

(** [cframeCtor]: the constructors give zero-valued frames. *)
Definition cframeCtor : gmap Z controlFrame :=
  list_to_map
    [(TypeSynStream, CSynStream SynStreamFrame.zero);
     (TypeSynReply, CSynReply SynReplyFrame.zero);
     (TypeRstStream, CRstStream RstStreamFrame.zero);
     (TypeSettings, CSettings SettingsFrame.zero);
     (TypePing, CPing PingFrame.zero);
     (TypeGoAway, CGoAway GoAwayFrame.zero);
     (TypeHeaders, CHeaders HeadersFrame.zero);
     (TypeWindowUpdate, CWindowUpdate WindowUpdateFrame.zero)].

(** [newControlFrame] *)
Definition newControlFrame (frameType : Z) : controlFrame + error :=
  match cframeCtor !! frameType with
  | None => inr (SpdyError (mkError InvalidControlFrame 0))
  | Some ctor => inl ctor
  end.

(** [controlFrame.read], the dynamic dispatch on the new frame. *)
Definition controlFrame_read (cframe : controlFrame)
    (h : ControlFrameHeader.t) : reading Framer controlFrame :=
  match cframe with
  | CSynStream fr =>
      let* fr := readSynStreamFrame h fr in rret (CSynStream fr)
  | CSynReply fr =>
      let* fr := readSynReplyFrame h fr in rret (CSynReply fr)
  | CRstStream fr =>
      let* fr := RstStreamFrame_read h fr in rret (CRstStream fr)
  | CSettings fr =>
      let* fr := SettingsFrame_read h fr in rret (CSettings fr)
  | CPing fr => let* fr := PingFrame_read h fr in rret (CPing fr)
  | CGoAway fr => let* fr := GoAwayFrame_read h fr in rret (CGoAway fr)
  | CHeaders fr => let* fr := readHeadersFrame h fr in rret (CHeaders fr)
  | CWindowUpdate fr =>
      let* fr := WindowUpdateFrame_read h fr in rret (CWindowUpdate fr)
  end.

(** [Framer.parseControlFrame] *)
Definition parseControlFrame (version frameType : Z)
  : reading Framer Frame :=
  let* length := binary_Read32 Framer_Read in
  let flags := Z.shiftr (Z.land length 0xff000000) 24 in
  let length := Z.land length 0xffffff in
  let header := ControlFrameHeader.mk version frameType flags length in
  match newControlFrame frameType with
  | inr err => rfail err
  | inl cframe =>
      let* cframe := controlFrame_read cframe header in
      rret (Control cframe)
  end.

(** [Framer.parseDataFrame] *)
Definition parseDataFrame (streamId : Z) : reading Framer DataFrame.t :=
  let* length := binary_Read32 Framer_Read in
  let Flags := Z.shiftr length 24 in
  let length := Z.land length 0xffffff in
  let* Data := io_ReadFull Framer_Read length in
  if streamId =? 0 then rfail ZeroStreamIdError
  else rret (DataFrame.mk streamId Flags Data).

(** [Framer.ReadFrame] *)
Definition ReadFrame : reading Framer Frame :=
  let* firstWord := binary_Read32 Framer_Read in
  if negb (Z.land firstWord 0x80000000 =? 0) then
    let frameType := Z.land firstWord 0xffff in
    let version := uint16 (Z.land 0x7fff (Z.shiftr firstWord 16)) in
    parseControlFrame version frameType
  else
    let* frame := parseDataFrame (Z.land firstWord 0x7fffffff) in
    rret (Data frame).
End Reader.

(** ** A concrete runtime for running the codec on examples

    [storedZlib] passes bytes through unchanged; [keyOrder] visits a map in
    the order of [map_to_list]. *)
Definition storedZlib : Zlib := {|
  deflater := unit;
  inflater := unit;
  NewWriterLevelDict := tt;
  deflater_Write := λ z p, (z, p);
  deflater_Flush := λ z, (z, []);
  NewReaderDict := λ avail, (0, inl tt);
  inflater_ReadFull := λ z avail n,
    if n <=? len avail then (z, takeZ n avail, n, None)
    else (z, avail, len avail, Some (match avail with
                                    | [] => EOF
                                    | _ => ErrUnexpectedEOF
                                    end))
|}.

Definition keyOrder : MapOrder := {|
  range := λ h, map_to_list h;
  range_perm := λ h, reflexivity (map_to_list h)
|}.

(** ** Vocabulary of the statements *)

(** [emits a bs]: when the writes of [a] all succeed, they append [bs]. *)
Definition emits (a : sink_action) (bs : list byte) : Prop :=
  ∀ w w', a w = (w', None) → written w' = written w ++ bs.

(** [extends a]: whatever the outcome, [a] only appends to the sink. *)
Definition extends (a : sink_action) : Prop :=
  ∀ w w' e, a w = (w', e) → ∃ bs, written w' = written w ++ bs.

(** [runs a bs]: on a sink that never fails, [a] appends [bs]. *)
Definition runs (a : sink_action) (bs : list byte) : Prop :=
  ∀ out, a (mkWriter out None) = (mkWriter (out ++ bs) None, None).

(** The eight bytes of a control frame header. *)
Definition controlFrameHeaderBytes (h : ControlFrameHeader.t) : list byte :=
  putUint16 (Z.lor 0x8000 (ControlFrameHeader.version h)) ++
  putUint16 (ControlFrameHeader.frameType h) ++
  putUint32 (Z.lor (uint32 (Z.shiftl (ControlFrameHeader.Flags h) 24))
               (ControlFrameHeader.length h)).

(** The bytes of the entries of a SETTINGS frame. *)
Definition flagIdValuesBytes (l : list SettingsFlagIdValue.t) : list byte :=
  flat_map
    (λ v, putUint32 (Z.lor (uint32 (Z.shiftl (SettingsFlagIdValue.Flag v) 24))
                       (SettingsFlagIdValue.Id v)) ++
          putUint32 (SettingsFlagIdValue.Value v)) l.

(** The twelve bytes of the PING frame with id 1. *)
Definition pingWire : list byte :=
  [x80; x03; x00; x06; x00; x00; x00; x04; x00; x00; x00; x01].

(** A payload of [2^24] zero bytes. *)
Definition oversizedData : list byte := repeat x00 (Z.to_nat 16777216).

(** The type codes [cframeCtor] has a constructor for. *)
Definition knownFrameType (frameType : Z) : bool :=
  bool_decide (frameType ∈ [TypeSynStream; TypeSynReply; TypeRstStream;
                            TypeSettings; TypePing; TypeGoAway; TypeHeaders;
                            TypeWindowUpdate]).

(** [errors_in P c]: every error the reading [c] returns satisfies [P]. *)
Definition errors_in {S A} (P : error → Prop) (c : reading S A) : Prop :=
  ∀ s s' e, c s = (s', inr e) → P e.

(** The error is not the SPDY error with the code [c]. *)
Definition errorCodeNot (c : ErrorCode) (e : error) : Prop :=
  match e with
  | SpdyError x => Err x ≠ c
  | IoError _ => True
  end.

(** An unbuffered framer over in-memory streams, header compression off. *)
Definition plainFramer (sink : Writer) (src : list byte)
  : @Framer storedZlib :=
  @mkFramer storedZlib true sink [] tt src 0 None.

(** A control frame header with the type code 5 (NOOP, dropped in SPDY/3). *)
Definition noopWire : list byte :=
  [x80; x03; x00; x05; x00; x00; x00; x00].

(** The errors [readHeaders] can return for the stream [streamId]. *)
Definition readHeaders_error (streamId : Z) (e : error) : Prop :=
  match e with
  | IoError _ => True
  | SpdyError x =>
      x = mkError UnlowercasedHeaderName streamId
      ∨ x = mkError DuplicateHeaders streamId
      ∨ x = mkError WrongCompressedPayloadSize 0
  end.

(** The diagnostics [parseHeaderValueBlock] can record. *)
Definition headerDiagnostic (streamId : Z) (x : Error) : Prop :=
  x = mkError UnlowercasedHeaderName streamId
  ∨ x = mkError DuplicateHeaders streamId.

(** A framer with header compression on whose decompressor exists already,
    positioned after the header of a SYN_STREAM frame of length 9. *)
Definition shortSynStreamFramer : @Framer storedZlib :=
  @mkFramer storedZlib false (mkWriter [] None) [] tt
    [x00; x00; x00; x01; x00; x00; x00; x00; x60; x00; x00; x00] 0 (Some tt).

(** [SynStream{stream_id=1, assoc=0, priority=3, slot=0,
    headers={":method":["GET"]}}] and the bytes [WriteFrame] emits for it
    when header compression is off. *)
Definition synStreamExample : SynStreamFrame.t :=
  SynStreamFrame.mk ControlFrameHeader.zero 1 0 3 0
    {[ ":method"%string := ["GET"%string] ]}.

Definition synStreamWire : list byte := Eval vm_compute in
    written (w (WriteFrame (order := keyOrder)
                  (plainFramer (mkWriter [] None) [])
                  (CSynStream synStreamExample)).1.1).

(** The stream id of the frames whose writer and reader test it against 0
    (all frames with a stream id but WINDOW_UPDATE). *)
Definition checkedStreamId (frame : Frame) : option Z :=
  match frame with
  | Control (CSynStream fr) => Some (SynStreamFrame.StreamId fr)
  | Control (CSynReply fr) => Some (SynReplyFrame.StreamId fr)
  | Control (CRstStream fr) => Some (RstStreamFrame.StreamId fr)
  | Control (CHeaders fr) => Some (HeadersFrame.StreamId fr)
  | Data fr => Some (DataFrame.StreamId fr)
  | Control (CSettings _) | Control (CPing _) | Control (CGoAway _)
  | Control (CWindowUpdate _) => None
  end.

(** The WINDOW_UPDATE frame with stream id 0 and delta 1, on the wire. *)
Definition windowUpdateWire : list byte :=
  [x80; x03; x00; x09; x00; x00; x00; x08;
   x00; x00; x00; x00; x00; x00; x00; x01].

(** [sink_errors P a]: every error the sink action [a] returns satisfies
    [P]. *)
Definition sink_errors (P : error → Prop) (a : sink_action) : Prop :=
  ∀ w w' e, a w = (w', Some e) → P e.

(** The errors that arise once a writer has started its output: the
    failure of the sink, or [InvalidControlFrame]. *)
Definition outputError (e : error) : Prop :=
  e = IoError ErrClosedPipe
  ∨ ∃ streamId, e = SpdyError (mkError InvalidControlFrame streamId).

(** A writer either stops at its first checks, leaving everything as it
    was, or goes on to its output. *)
Definition writer_outcome {zlib : Zlib} {F} (f f' : Framer)
    (frame frame' : F) (e : option error) : Prop :=
  (f' = f ∧ frame' = frame
   ∧ ∃ x, e = Some (SpdyError x)
          ∧ (Err x = ZeroStreamId ∨ Err x = InvalidDataFrame))
  ∨ ((∃ bs, written (w f') = written (w f) ++ bs)
     ∧ ∀ e0, e = Some e0 → outputError e0).

(** The 24-bit length field of a control frame, bytes 5 to 7 on the wire. *)
Definition lengthField (frameBytes : list byte) : Z :=
  match frameBytes with
  | _ :: _ :: _ :: _ :: _ :: a :: b :: c :: _ =>
      Z.lor (Z.shiftl (Z_of_byte a) 16)
        (Z.lor (Z.shiftl (Z_of_byte b) 8) (Z_of_byte c))
  | _ => 0
  end.

(** The common header of a control frame value. *)
Definition frameCFHeader (frame : controlFrame) : ControlFrameHeader.t :=
  match frame with
  | CSynStream fr => SynStreamFrame.CFHeader fr
  | CSynReply fr => SynReplyFrame.CFHeader fr
  | CRstStream fr => RstStreamFrame.CFHeader fr
  | CSettings fr => SettingsFrame.CFHeader fr
  | CPing fr => PingFrame.CFHeader fr
  | CGoAway fr => GoAwayFrame.CFHeader fr
  | CHeaders fr => HeadersFrame.CFHeader fr
  | CWindowUpdate fr => WindowUpdateFrame.CFHeader fr
  end.

(** The number of payload bytes each writer produces; [block] is the size
    of the marshalled (and compressed) header block. *)
Definition payloadSize (frame : controlFrame) (block : Z) : Z :=
  match frame with
  | CSynStream _ => 10 + block
  | CSynReply _ | CHeaders _ => 4 + block
  | CSettings fr => 8 * len (SettingsFrame.FlagIdValues fr) + 4
  | CPing _ => 4
  | CRstStream _ | CGoAway _ | CWindowUpdate _ => 8
  end.

(** The header block a frame carries, empty for the other frames. *)
Definition frameHeaders (frame : controlFrame) : Header :=
  match frame with
  | CSynStream fr => SynStreamFrame.Headers fr
  | CSynReply fr => SynReplyFrame.Headers fr
  | CHeaders fr => HeadersFrame.Headers fr
  | _ => ∅
  end.

(** A SETTINGS payload of [2^21] entries. *)
Definition manySettings : list SettingsFlagIdValue.t :=
  repeat (SettingsFlagIdValue.mk 0 1 0) (Z.to_nat 2097152).

(** A [bytes.Buffer] as [io.Writer]: it appends and never fails. *)
Definition buffer_Write (b p : list byte) : list byte * option error :=
  (b ++ p, None).

(** The header block with the two entries [connection: a] and
    [connection: b], and the SYN_REPLY frame of stream 1 that carries it
    uncompressed. *)
Definition duplicateConnectionBlock : list byte := Eval vm_compute in
    putUint32 2 ++
    putUint32 10 ++ list_byte_of_string "connection" ++
    putUint32 1 ++ list_byte_of_string "a" ++
    putUint32 10 ++ list_byte_of_string "connection" ++
    putUint32 1 ++ list_byte_of_string "b".

Definition duplicateConnectionWire : list byte :=
  [x80; x03; x00; x02; x00; x00; x00; x2e; x00; x00; x00; x01] ++
  duplicateConnectionBlock.

(** The header block with the two entries [:status: a] and [:status: b]. *)
Definition duplicateStatusBlock : list byte := Eval vm_compute in
    putUint32 2 ++
    putUint32 7 ++ list_byte_of_string ":status" ++
    putUint32 1 ++ list_byte_of_string "a" ++
    putUint32 7 ++ list_byte_of_string ":status" ++
    putUint32 1 ++ list_byte_of_string "b".

(** The header block with the single entry [Connection: close]. *)
Definition uppercaseConnectionBlock : list byte := Eval vm_compute in
    putUint32 1 ++
    putUint32 10 ++ list_byte_of_string "Connection" ++
    putUint32 5 ++ list_byte_of_string "close".

(** [contains c s]: the byte [c] occurs in [s]. *)
Fixpoint contains (c : ascii) (s : string) : bool :=
  match s with
  | EmptyString => false
  | String c' s' => Ascii.eqb c' c || contains c s'
  end.

(** A name made of ASCII bytes none of which is an upper-case letter. *)
Fixpoint isLowercaseASCII (s : string) : bool :=
  match s with
  | EmptyString => true
  | String c s' =>
      (N_of_ascii c <? 128)%N && negb (isUpper c) && isLowercaseASCII s'
  end.

(** What the serializer leaves in an empty buffer for the map [h], visited
    in the order [range h]. *)
Definition serializedHeaders {order : MapOrder} (h : Header) : list byte :=
  (writeHeaderValueBlock buffer_Write [] (range h)).1.1.

(** The map [h] with every name replaced by its canonical MIME form. *)
Definition canonicalHeader (h : Header) : Header :=
  list_to_map
    ((λ entry, (CanonicalMIMEHeaderKey entry.1, entry.2)) <$> map_to_list h).

(** The entries of a header map that the 32-bit length fields can hold and
    that come back from the wire as they are: a lowercase ASCII name, and
    at least one value, none with a NUL byte. *)
Definition roundTripEntry (name : string) (values : list string) : Prop :=
  isLowercaseASCII name = true
  ∧ values ≠ []
  ∧ Forall (λ v, contains headerValueSeparator v = false) values
  ∧ slen name < 2 ^ 32
  ∧ slen (Join values headerValueSeparator) < 2 ^ 32.

(** The bytes of the entries of a header block. *)
Definition headerEntriesBytes (entries : list (string * list string))
  : list byte :=
  flat_map
    (λ entry,
       putUint32 (uint32 (slen entry.1)) ++
       list_byte_of_string (ToLower entry.1) ++
       putUint32 (uint32 (slen (Join entry.2 headerValueSeparator))) ++
       list_byte_of_string (Join entry.2 headerValueSeparator))
    entries.

(** ** Vocabulary of the further properties *)

Definition wireFlagIdValue (v : SettingsFlagIdValue.t) : Prop :=
  0 ≤ SettingsFlagIdValue.Flag v < 2 ^ 8
  ∧ 0 ≤ SettingsFlagIdValue.Id v < 2 ^ 24
  ∧ 0 ≤ SettingsFlagIdValue.Value v < 2 ^ 32.

(** A reading of the byte source, run on the source of a framer. *)
Definition Framer_lift {zlib : Zlib} {A} (c : reading (list byte) A)
  : reading Framer A :=
  λ f, let '(src, res) := c (r f) in (set_r f src, res).

(** [WriteFrame] on the frames of a list, until the first error; the frame
    values are given back as the writers leave them. *)
Fixpoint WriteFrames {zlib : Zlib} {order : MapOrder} (f : Framer)
    (frames : list Frame) : Framer * list Frame * option error :=
  match frames with
  | [] => (f, [], None)
  | frame :: frames =>
      match WriteFrame f frame with
      | (f, frame, Some e) => (f, frame :: frames, Some e)
      | (f, frame, None) =>
          let '(f, frames, e) := WriteFrames f frames in
          (f, frame :: frames, e)
      end
  end.

(** [count] calls of [ReadFrame], until the first error. *)
Fixpoint ReadFrames {zlib : Zlib} (count : nat)
  : reading Framer (list Frame) :=
  match count with
  | O => rret []
  | S count =>
      let* frame := ReadFrame in
      let* frames := ReadFrames count in
      rret (frame :: frames)
  end.

(** A header map that survives the round trip and has no name banned by
    [invalid]. *)
Definition roundTripHeaders (invalid : gset string) (h : Header) : Prop :=
  (∀ name values, h !! name = Some values → roundTripEntry name values)
  ∧ hasInvalidHeader invalid (canonicalHeader h) = false.

(** The frame values whose fields fit their places on the wire and pass
    the checks of the writers and of the readers. *)
Definition roundTripFrame {order : MapOrder} (frame : Frame) : Prop :=
  match frame with
  | Control (CSynStream fr) =>
      0 ≤ ControlFrameHeader.Flags (SynStreamFrame.CFHeader fr) < 2 ^ 8
      ∧ 0 < SynStreamFrame.StreamId fr < 2 ^ 32
      ∧ 0 ≤ SynStreamFrame.AssociatedToStreamId fr < 2 ^ 32
      ∧ 0 ≤ SynStreamFrame.Priority fr ≤ 7
      ∧ 0 ≤ SynStreamFrame.Slot fr < 2 ^ 8
      ∧ len (serializedHeaders (SynStreamFrame.Headers fr)) + 10 < 2 ^ 24
      ∧ roundTripHeaders invalidReqHeaders (SynStreamFrame.Headers fr)
  | Control (CSynReply fr) =>
      0 ≤ ControlFrameHeader.Flags (SynReplyFrame.CFHeader fr) < 2 ^ 8
      ∧ 0 < SynReplyFrame.StreamId fr < 2 ^ 32
      ∧ len (serializedHeaders (SynReplyFrame.Headers fr)) + 4 < 2 ^ 24
      ∧ roundTripHeaders invalidRespHeaders (SynReplyFrame.Headers fr)
  | Control (CRstStream fr) =>
      0 < RstStreamFrame.StreamId fr < 2 ^ 32
      ∧ 0 < RstStreamFrame.Status fr < 2 ^ 32
  | Control (CSettings fr) =>
      0 ≤ ControlFrameHeader.Flags (SettingsFrame.CFHeader fr) < 2 ^ 8
      ∧ len (SettingsFrame.FlagIdValues fr) * 8 + 4 < 2 ^ 24
      ∧ Forall wireFlagIdValue (SettingsFrame.FlagIdValues fr)
  | Control (CPing fr) => 0 < PingFrame.Id fr < 2 ^ 32
  | Control (CGoAway fr) =>
      0 ≤ GoAwayFrame.LastGoodStreamId fr < 2 ^ 32
      ∧ 0 ≤ GoAwayFrame.GoAwayStatus fr < 2 ^ 32
  | Control (CHeaders fr) =>
      0 ≤ ControlFrameHeader.Flags (HeadersFrame.CFHeader fr) < 2 ^ 8
      ∧ 0 < HeadersFrame.StreamId fr < 2 ^ 32
      ∧ len (serializedHeaders (HeadersFrame.Headers fr)) + 4 < 2 ^ 24
      ∧ roundTripHeaders
          (if HeadersFrame.StreamId fr mod 2 =? 0 then invalidReqHeaders
           else invalidRespHeaders) (HeadersFrame.Headers fr)
  | Control (CWindowUpdate fr) =>
      0 ≤ WindowUpdateFrame.StreamId fr < 2 ^ 32
      ∧ 0 ≤ WindowUpdateFrame.DeltaWindowSize fr < 2 ^ 32
  | Data fr =>
      0 < DataFrame.StreamId fr < 2 ^ 31
      ∧ 0 ≤ DataFrame.Flags fr < 2 ^ 8
      ∧ len (DataFrame.Data fr) < 2 ^ 24
  end.

(** The frame value with the names of its header map in canonical form. *)
Definition canonicalFrame (frame : Frame) : Frame :=
  match frame with
  | Control (CSynStream fr) =>
      Control (CSynStream
        (SynStreamFrame.mk (SynStreamFrame.CFHeader fr)
           (SynStreamFrame.StreamId fr)
           (SynStreamFrame.AssociatedToStreamId fr)
           (SynStreamFrame.Priority fr) (SynStreamFrame.Slot fr)
           (canonicalHeader (SynStreamFrame.Headers fr))))
  | Control (CSynReply fr) =>
      Control (CSynReply
        (SynReplyFrame.mk (SynReplyFrame.CFHeader fr)
           (SynReplyFrame.StreamId fr)
           (canonicalHeader (SynReplyFrame.Headers fr))))
  | Control (CHeaders fr) =>
      Control (CHeaders
        (HeadersFrame.mk (HeadersFrame.CFHeader fr)
           (HeadersFrame.StreamId fr)
           (canonicalHeader (HeadersFrame.Headers fr))))
  | _ => frame
  end.

(** A header map as [http.Header.Add] builds it: every key is its own
    canonical MIME form, and no key has an empty list of values. *)
Definition canonicalEntries (h : Header) : Prop :=
  ∀ k vs, h !! k = Some vs → CanonicalMIMEHeaderKey k = k ∧ vs ≠ [].

(** The names that the reader of a frame refuses in its header block. *)
Definition bannedNames (frame : controlFrame) : gset string :=
  match frame with
  | CSynStream _ => invalidReqHeaders
  | CSynReply _ => invalidRespHeaders
  | CHeaders fr =>
      if HeadersFrame.StreamId fr mod 2 =? 0 then invalidReqHeaders
      else invalidRespHeaders
  | _ => ∅
  end.

(** The type code of each variant of control frame. *)
Definition typeCode (frame : controlFrame) : Z :=
  match frame with
  | CSynStream _ => TypeSynStream
  | CSynReply _ => TypeSynReply
  | CRstStream _ => TypeRstStream
  | CSettings _ => TypeSettings
  | CPing _ => TypePing
  | CGoAway _ => TypeGoAway
  | CHeaders _ => TypeHeaders
  | CWindowUpdate _ => TypeWindowUpdate
  end.

(** The ranges of the fields of a frame that comes from the wire. *)
Definition wireRanges (frame : Frame) : Prop :=
  match frame with
  | Data fr =>
      0 < DataFrame.StreamId fr < 2 ^ 31
      ∧ 0 ≤ DataFrame.Flags fr < 2 ^ 8
      ∧ len (DataFrame.Data fr) < 2 ^ 24
  | Control c =>
      let h := frameCFHeader c in
      ControlFrameHeader.frameType h = typeCode c
      ∧ 0 ≤ ControlFrameHeader.version h < 2 ^ 15
      ∧ 0 ≤ ControlFrameHeader.Flags h < 2 ^ 8
      ∧ 0 ≤ ControlFrameHeader.length h < 2 ^ 24
      ∧ match c with
        | CSynStream fr =>
            0 < SynStreamFrame.StreamId fr < 2 ^ 32
            ∧ 0 ≤ SynStreamFrame.AssociatedToStreamId fr < 2 ^ 32
            ∧ 0 ≤ SynStreamFrame.Priority fr ≤ 7
            ∧ 0 ≤ SynStreamFrame.Slot fr < 2 ^ 8
        | CSynReply fr => 0 < SynReplyFrame.StreamId fr < 2 ^ 32
        | CRstStream fr =>
            0 < RstStreamFrame.StreamId fr < 2 ^ 32
            ∧ 0 < RstStreamFrame.Status fr < 2 ^ 32
        | CSettings fr =>
            Forall wireFlagIdValue (SettingsFrame.FlagIdValues fr)
        | CPing fr =>
            0 < PingFrame.Id fr < 2 ^ 32 ∧ ControlFrameHeader.Flags h = 0
        | CGoAway fr =>
            0 ≤ GoAwayFrame.LastGoodStreamId fr < 2 ^ 32
            ∧ 0 ≤ GoAwayFrame.GoAwayStatus fr < 2 ^ 32
            ∧ ControlFrameHeader.Flags h = 0
            ∧ ControlFrameHeader.length h = 8
        | CHeaders fr => 0 < HeadersFrame.StreamId fr < 2 ^ 32
        | CWindowUpdate fr =>
            0 ≤ WindowUpdateFrame.StreamId fr < 2 ^ 32
            ∧ 0 ≤ WindowUpdateFrame.DeltaWindowSize fr < 2 ^ 32
            ∧ ControlFrameHeader.Flags h = 0
            ∧ ControlFrameHeader.length h = 8
        end
  end.

(** The frames that carry a header block. *)
Definition headerBearing (frame : controlFrame) : bool :=
  match frame with
  | CSynStream _ | CSynReply _ | CHeaders _ => true
  | _ => false
  end.

(** The frames whose writer sets the flags of the header to 0. *)
Definition clearsFlags (frame : controlFrame) : bool :=
  match frame with
  | CRstStream _ | CPing _ | CGoAway _ | CWindowUpdate _ => true
  | _ => false
  end.

(** The header map [{":status": ["200"]}]. *)
Definition statusHeaders : Header := {[ ":status"%string := ["200"%string] ]}.

(** [SynReply{stream_id=1, headers={":status":["200"]}}] and the bytes
    [WriteFrame] emits for it when the header block is not compressed. *)
Definition synReplyExample : SynReplyFrame.t :=
  SynReplyFrame.mk ControlFrameHeader.zero 1 statusHeaders.

Definition synReplyWire : list byte := Eval vm_compute in
    written (w (WriteFrame (order := keyOrder)
                  (plainFramer (mkWriter [] None) [])
                  (CSynReply synReplyExample)).1.1).

(** A framer over in-memory streams with header compression on and the
    pass-through compressor. *)
Definition storedFramer (sink : Writer) (src : list byte)
  : @Framer storedZlib :=
  @mkFramer storedZlib false sink [] tt src 0 None.

(** [reads_only c]: the reading [c] of a framer only consumes input: what
    is left of the source is a suffix of what it was, and the sink, the
    scratch buffer, the compressor and the compression switch are
    untouched. *)
Definition reads_only {zlib : Zlib} {A} (c : reading Framer A) : Prop :=
  ∀ f f' res, c f = (f', res) →
    r f' `suffix_of` r f
    ∧ w f' = w f ∧ headerBuf f' = headerBuf f
    ∧ headerCompressor f' = headerCompressor f
    ∧ headerCompressionDisabled f' = headerCompressionDisabled f.

(** [writes_only f f']: from [f] to [f'] the source, the bounded reader,
    the decompressor and the compression switch are untouched. *)
Definition writes_only {zlib : Zlib} (f f' : Framer) : Prop :=
  r f' = r f ∧ headerReader_N f' = headerReader_N f
  ∧ headerDecompressor f' = headerDecompressor f
  ∧ headerCompressionDisabled f' = headerCompressionDisabled f.

(** * Properties *)

(** ** Bytes and big-endian words *)

Lemma Z_of_byte_range (b : byte) : 0 ≤ Z_of_byte b < 256.
Proof.
  unfold Z_of_byte. pose proof (Byte.to_N_bounded b). lia.
Qed.

Lemma Z_of_byte_of_Z (z : Z) : Z_of_byte (byte_of_Z z) = z mod 256.
Proof.
  unfold Z_of_byte, byte_of_Z.
  pose proof (Z.mod_pos_bound z 256 ltac:(lia)) as Hb.
  destruct (Byte.of_N (Z.to_N (z mod 256))) as [b|] eqn:E.
  - apply Byte.to_of_N in E. rewrite E. lia.
  - apply Byte.of_N_None_iff in E. lia.
Qed.

Lemma lor_shiftl_add (a b k : Z) :
  0 ≤ k → 0 ≤ b < 2 ^ k → Z.lor (Z.shiftl a k) b = a * 2 ^ k + b.
Proof.
  intros Hk Hb.
  assert (Hland : Z.land (Z.shiftl a k) b = 0).
  { apply Z.bits_inj'; intros n Hn. rewrite Z.land_spec, Z.bits_0.
    destruct (Z.ltb_spec n k) as [Hlt|Hge].
    - rewrite Z.shiftl_spec_low by lia. reflexivity.
    - destruct (Z.eq_dec b 0) as [->|Hnz].
      + rewrite Z.bits_0. apply andb_false_r.
      + rewrite (Z.bits_above_log2 b n), andb_false_r; [reflexivity|lia|].
        apply Z.log2_lt_pow2; [lia|].
        apply Z.lt_le_trans with (2 ^ k); [lia|].
        apply Z.pow_le_mono_r; lia. }
  rewrite <- Z.lxor_lor, <- Z.add_nocarry_lxor, Z.shiftl_mul_pow2; auto.
Qed.

Lemma getUint32_putUint32 (v : Z) : getUint32 (putUint32 v) = v mod 2 ^ 32.
Proof.
  unfold getUint32, putUint32. rewrite !Z_of_byte_of_Z, !Z.shiftr_div_pow2 by lia.
  pose proof (Z.mod_pos_bound v 256 ltac:(lia)).
  pose proof (Z.mod_pos_bound (v / 2 ^ 8) 256 ltac:(lia)).
  pose proof (Z.mod_pos_bound (v / 2 ^ 16) 256 ltac:(lia)).
  pose proof (Z.mod_pos_bound (v / 2 ^ 24) 256 ltac:(lia)).
  rewrite (lor_shiftl_add _ _ 8) by lia.
  rewrite (lor_shiftl_add _ _ 16) by lia.
  rewrite (lor_shiftl_add _ _ 24) by lia.
  change (2 ^ 8) with 256 in *. change (2 ^ 16) with 65536 in *.
  change (2 ^ 24) with 16777216 in *. change (2 ^ 32) with 4294967296.
  pose proof (Z.div_mod v 256 ltac:(lia)).
  pose proof (Z.div_mod v 65536 ltac:(lia)).
  pose proof (Z.div_mod v 16777216 ltac:(lia)).
  pose proof (Z.div_mod v 4294967296 ltac:(lia)).
  pose proof (Z.mod_pos_bound v 4294967296 ltac:(lia)).
  pose proof (Z.mod_pos_bound v 65536 ltac:(lia)).
  pose proof (Z.mod_pos_bound v 16777216 ltac:(lia)).
  pose proof (Z.div_mod (v / 256) 256 ltac:(lia)).
  pose proof (Z.div_mod (v / 65536) 256 ltac:(lia)).
  pose proof (Z.div_mod (v / 16777216) 256 ltac:(lia)).
  assert (v / 256 / 256 = v / 65536) by (rewrite Z.div_div by lia; reflexivity).
  assert (v / 65536 / 256 = v / 16777216)
    by (rewrite Z.div_div by lia; reflexivity).
  assert (v / 16777216 / 256 = v / 4294967296)
    by (rewrite Z.div_div by lia; reflexivity).
  lia.
Qed.

Lemma getUint8_byte (z : Z) : getUint8 [byte_of_Z z] = z mod 256.
Proof. apply Z_of_byte_of_Z. Qed.

(** ** Slices *)

Lemma len_nonneg {A} (l : list A) : 0 ≤ len l.
Proof. unfold len. lia. Qed.

Lemma len_app {A} (p q : list A) : len (p ++ q) = len p + len q.
Proof. unfold len. rewrite length_app. lia. Qed.

Lemma len_cons {A} (x : A) (l : list A) : len (x :: l) = 1 + len l.
Proof. unfold len. simpl length. lia. Qed.

Lemma len_nil {A} : len (@nil A) = 0.
Proof. reflexivity. Qed.

Lemma takeZ_app {A} (p q : list A) : takeZ (len p) (p ++ q) = p.
Proof.
  induction p as [|x p IH]; simpl.
  - destruct q; reflexivity.
  - rewrite len_cons. pose proof (len_nonneg p).
    destruct (Z.leb_spec (1 + len p) 0); [lia|].
    replace (1 + len p - 1) with (len p) by lia. now rewrite IH.
Qed.

Lemma dropZ_app {A} (p q : list A) : dropZ (len p) (p ++ q) = q.
Proof.
  induction p as [|x p IH]; simpl.
  - destruct q; reflexivity.
  - rewrite len_cons. pose proof (len_nonneg p).
    destruct (Z.leb_spec (1 + len p) 0); [lia|].
    replace (1 + len p - 1) with (len p) by lia. now rewrite IH.
Qed.

Lemma takeZ_len {A} (n : Z) (l : list A) : len (takeZ n l) ≤ len l.
Proof.
  revert n; induction l as [|x l IH]; intros n; simpl; [lia|].
  destruct (n <=? 0); rewrite ?len_cons, ?len_nil.
  - pose proof (len_nonneg l). lia.
  - specialize (IH (n - 1)). lia.
Qed.

Lemma bytes_Read_app (n : Z) (p rest : list byte) :
  len p = n → bytes_Read n (p ++ rest) = (rest, inl p).
Proof.
  intros <-. unfold bytes_Read. rewrite len_app.
  pose proof (len_nonneg rest).
  destruct (Z.leb_spec (len p) (len p + len rest)); [|lia].
  now rewrite takeZ_app, dropZ_app.
Qed.

Lemma len_putUint32 (v : Z) : len (putUint32 v) = 4.
Proof. reflexivity. Qed.

Lemma len_putUint16 (v : Z) : len (putUint16 v) = 2.
Proof. reflexivity. Qed.

Lemma len_list_byte_of_string (s : string) :
  len (list_byte_of_string s) = slen s.
Proof.
  unfold len, slen, list_byte_of_string. rewrite length_map. f_equal.
  induction s as [|c s IH]; simpl; congruence.
Qed.

Lemma bytes_Read_4 (a b c d : byte) (rest : list byte) :
  bytes_Read 4 (a :: b :: c :: d :: rest) = (rest, inl [a; b; c; d]).
Proof. apply (bytes_Read_app 4 [a; b; c; d]). reflexivity. Qed.

Lemma bytes_Read_1 (a : byte) (rest : list byte) :
  bytes_Read 1 (a :: rest) = (rest, inl [a]).
Proof. apply (bytes_Read_app 1 [a]). reflexivity. Qed.

(** ** Sinks *)

Lemma emits_Write (p : list byte) : emits (λ w, Writer_Write w p) p.
Proof.
  intros w w'. unfold Writer_Write.
  destruct (limit w) as [n|]; [destruct (len p <=? n)|]; intros [= <-];
    reflexivity.
Qed.

Lemma emits_seq (a b : sink_action) (x y : list byte) :
  emits a x → emits b y → emits (a >> b) (x ++ y).
Proof.
  intros Ha Hb w w'. unfold sink_seq.
  destruct (a w) as [w1 [e|]] eqn:E; [discriminate|].
  intros H. rewrite (Hb _ _ H), (Ha _ _ E). now rewrite app_assoc.
Qed.

Lemma emits_ok : emits sink_ok [].
Proof. intros w w' [= <-]. now rewrite app_nil_r. Qed.

Lemma emits_fail (e : error) (bs : list byte) : emits (sink_fail e) bs.
Proof. intros w w' [=]. Qed.

Lemma extends_Write (p : list byte) : extends (λ w, Writer_Write w p).
Proof.
  intros w w' e. unfold Writer_Write.
  destruct (limit w) as [n|]; [destruct (len p <=? n)|]; intros [= <- <-];
    eauto.
Qed.

Lemma extends_seq (a b : sink_action) :
  extends a → extends b → extends (a >> b).
Proof.
  intros Ha Hb w w' e. unfold sink_seq.
  destruct (a w) as [w1 [e1|]] eqn:E.
  - intros [= <- <-]. eauto.
  - intros H. destruct (Ha _ _ _ E) as [x Hx], (Hb _ _ _ H) as [y Hy].
    exists (x ++ y). now rewrite Hy, Hx, app_assoc.
Qed.

Lemma extends_ok : extends sink_ok.
Proof. intros w w' e [= <- <-]. exists []. now rewrite app_nil_r. Qed.

Lemma extends_fail (e : error) : extends (sink_fail e).
Proof. intros w w' e' [= <- <-]. exists []. now rewrite app_nil_r. Qed.

Lemma runs_Write (p : list byte) : runs (λ w, Writer_Write w p) p.
Proof. intros out. reflexivity. Qed.

Lemma runs_seq (a b : sink_action) (x y : list byte) :
  runs a x → runs b y → runs (a >> b) (x ++ y).
Proof.
  intros Ha Hb out. unfold sink_seq. now rewrite Ha, Hb, app_assoc.
Qed.

Lemma runs_ok : runs sink_ok [].
Proof. intros out. unfold sink_ok. now rewrite app_nil_r. Qed.

Create HintDb sink discriminated.

#[local] Hint Resolve emits_Write emits_seq emits_ok emits_fail
  extends_Write extends_seq extends_ok extends_fail
  runs_Write runs_seq runs_ok : sink.

Lemma emits_binary_Write8 v : emits (binary_Write8 v) [byte_of_Z v].
Proof. apply emits_Write. Qed.
Lemma emits_binary_Write16 v : emits (binary_Write16 v) (putUint16 v).
Proof. apply emits_Write. Qed.
Lemma emits_binary_Write32 v : emits (binary_Write32 v) (putUint32 v).
Proof. apply emits_Write. Qed.
Lemma extends_binary_Write8 v : extends (binary_Write8 v).
Proof. apply extends_Write. Qed.
Lemma extends_binary_Write16 v : extends (binary_Write16 v).
Proof. apply extends_Write. Qed.
Lemma extends_binary_Write32 v : extends (binary_Write32 v).
Proof. apply extends_Write. Qed.
Lemma runs_binary_Write8 v : runs (binary_Write8 v) [byte_of_Z v].
Proof. apply runs_Write. Qed.
Lemma runs_binary_Write16 v : runs (binary_Write16 v) (putUint16 v).
Proof. apply runs_Write. Qed.
Lemma runs_binary_Write32 v : runs (binary_Write32 v) (putUint32 v).
Proof. apply runs_Write. Qed.

#[local] Hint Resolve emits_binary_Write8 emits_binary_Write16
  emits_binary_Write32 extends_binary_Write8 extends_binary_Write16
  extends_binary_Write32 runs_binary_Write8 runs_binary_Write16
  runs_binary_Write32 : sink.

Lemma emits_writeControlFrameHeader h :
  emits (writeControlFrameHeader h) (controlFrameHeaderBytes h).
Proof. unfold writeControlFrameHeader, controlFrameHeaderBytes. auto with sink. Qed.

Lemma extends_writeControlFrameHeader h : extends (writeControlFrameHeader h).
Proof. unfold writeControlFrameHeader. auto with sink. Qed.

Lemma runs_writeControlFrameHeader h :
  runs (writeControlFrameHeader h) (controlFrameHeaderBytes h).
Proof. unfold writeControlFrameHeader, controlFrameHeaderBytes. auto with sink. Qed.

Lemma flagIdValuesBytes_cons v l :
  flagIdValuesBytes (v :: l) =
  putUint32 (Z.lor (uint32 (Z.shiftl (SettingsFlagIdValue.Flag v) 24))
               (SettingsFlagIdValue.Id v)) ++
  putUint32 (SettingsFlagIdValue.Value v) ++ flagIdValuesBytes l.
Proof. reflexivity. Qed.

Lemma emits_writeFlagIdValues l :
  emits (writeFlagIdValues l) (flagIdValuesBytes l).
Proof.
  induction l as [|v l IH]; [apply emits_ok|].
  cbn [writeFlagIdValues]. rewrite flagIdValuesBytes_cons. auto with sink.
Qed.

Lemma extends_writeFlagIdValues l : extends (writeFlagIdValues l).
Proof. induction l as [|v l IH]; cbn [writeFlagIdValues]; auto with sink. Qed.

Lemma runs_writeFlagIdValues l :
  runs (writeFlagIdValues l) (flagIdValuesBytes l).
Proof.
  induction l as [|v l IH]; [apply runs_ok|].
  cbn [writeFlagIdValues]. rewrite flagIdValuesBytes_cons. auto with sink.
Qed.

#[local] Hint Resolve emits_writeControlFrameHeader
  extends_writeControlFrameHeader runs_writeControlFrameHeader
  emits_writeFlagIdValues extends_writeFlagIdValues runs_writeFlagIdValues
  : sink.

Lemma len_flagIdValuesBytes l : len (flagIdValuesBytes l) = 8 * len l.
Proof.
  induction l as [|v l IH]; [reflexivity|].
  rewrite flagIdValuesBytes_cons, !len_app, IH, len_cons, !len_putUint32.
  lia.
Qed.

Lemma len_controlFrameHeaderBytes h : len (controlFrameHeaderBytes h) = 8.
Proof. reflexivity. Qed.

Lemma len_repeat {A} (x : A) (n : Z) : 0 ≤ n → len (repeat x (Z.to_nat n)) = n.
Proof. intros Hn. unfold len. rewrite repeat_length. lia. Qed.

(** ** Steps of the reading monad *)

Lemma rbind_unfold {S A B} (c : reading S A) (k : A → reading S B) (s : S) :
  rbind c k s = match c s with
                | (s', inl a) => k a s'
                | (s', inr e) => (s', inr e)
                end.
Proof. reflexivity. Qed.

Lemma rbind_inl {S A B} (c : reading S A) (k : A → reading S B) s s' a :
  c s = (s', inl a) → rbind c k s = k a s'.
Proof. intros H. unfold rbind. now rewrite H. Qed.

Lemma rbind_inr {S A B} (c : reading S A) (k : A → reading S B) s s' e :
  c s = (s', inr e) → rbind c k s = (s', inr e).
Proof. intros H. unfold rbind. now rewrite H. Qed.

Lemma rbind_assoc {S A B C} (c : reading S A) (k1 : A → reading S B)
    (k2 : B → reading S C) (s : S) :
  rbind (rbind c k1) k2 s = rbind c (λ a, rbind (k1 a) k2) s.
Proof. unfold rbind. destruct (c s) as [s1 [a|e]]; reflexivity. Qed.

Lemma rbind_ext {S A B} (c : reading S A) (k1 k2 : A → reading S B) (s : S) :
  (∀ a s', k1 a s' = k2 a s') → rbind c k1 s = rbind c k2 s.
Proof.
  intros H. unfold rbind. destruct (c s) as [s' [a|e]]; [apply H|reflexivity].
Qed.

Lemma rbind_inv_inl {S A B} (c : reading S A) (k : A → reading S B) s s' b :
  rbind c k s = (s', inl b) →
  ∃ s1 a, c s = (s1, inl a) ∧ k a s1 = (s', inl b).
Proof.
  unfold rbind. destruct (c s) as [s1 [a|e]]; [eauto|discriminate].
Qed.

Section FramerReads.
Context {zlib : Zlib}.

Lemma binary_Read32_Framer (f : Framer) (a b c d : byte) rest :
  r f = a :: b :: c :: d :: rest →
  binary_Read32 Framer_Read f = (set_r f rest, inl (getUint32 [a; b; c; d])).
Proof.
  intros H. unfold binary_Read32, io_ReadFull. cbn [Z.eqb].
  rewrite rbind_unfold. unfold Framer_Read. rewrite H, bytes_Read_4.
  reflexivity.
Qed.

Lemma binary_Read8_Framer (f : Framer) (a : byte) rest :
  r f = a :: rest →
  binary_Read8 Framer_Read f = (set_r f rest, inl (getUint8 [a])).
Proof.
  intros H. unfold binary_Read8, io_ReadFull. cbn [Z.eqb].
  rewrite rbind_unfold. unfold Framer_Read. rewrite H, bytes_Read_1.
  reflexivity.
Qed.

End FramerReads.

(** One successful 32-bit or 8-bit read at the head of a [let*]. *)
Ltac read32 :=
  rewrite ?rbind_assoc;
  first [ erewrite (rbind_inl (binary_Read32 Framer_Read))
            by (apply binary_Read32_Framer; first [reflexivity|eassumption])
        | erewrite binary_Read32_Framer by first [reflexivity|eassumption] ].
Ltac read8 :=
  rewrite ?rbind_assoc;
  first [ erewrite (rbind_inl (binary_Read8 Framer_Read))
            by (apply binary_Read8_Framer; first [reflexivity|eassumption])
        | erewrite binary_Read8_Framer by first [reflexivity|eassumption] ].

(** Evaluation of closed subterms (stdpp keeps [simpl] away from the
    operations on [Z]). *)
Ltac ceval t := let v := eval vm_compute in t in change t with v.
Ltac eval_word :=
  match goal with
  | |- context [getUint32 ?l] => ceval (getUint32 l)
  | |- context [getUint8 ?l] => ceval (getUint8 l)
  end.
Ltac eval_if :=
  match goal with
  | |- context [if ?c then _ else _] => ceval c; cbv iota
  end.

(** ** PING and DATA frames *)
Section FrameProperties.
Context {zlib : Zlib} {order : MapOrder}.

(** C6: [WriteFrame] on [Ping{id=1}] appends exactly the bytes
    [80 03 00 06 00 00 00 04 00 00 00 01] to the sink, and [ReadFrame] on
    these bytes returns the written PING frame: id 1, version 3, flags 0,
    length 4. *)
Theorem C6_ping_round_trip :
  ∀ (disabled : bool) (out : list byte) (sink : Writer) hb hc src n hd
    (cfh : ControlFrameHeader.t) (rest : list byte),
    let written_frame :=
      CPing (PingFrame.mk (ControlFrameHeader.mk 3 0x0006 0 4) 1) in
    WriteFrame (mkFramer disabled (mkWriter out None) hb hc src n hd)
      (CPing (PingFrame.mk cfh 1))
    = (mkFramer disabled (mkWriter (out ++ pingWire) None) hb hc src n hd,
       Control written_frame, None)
    ∧ ReadFrame (mkFramer disabled sink hb hc (pingWire ++ rest) n hd)
      = (mkFramer disabled sink hb hc rest n hd,
         inl (Control written_frame)).
Proof.
  intros. split.
  - cbn. unfold finish_write, set_w; cbn.
    rewrite <- !app_assoc. reflexivity.
  - unfold ReadFrame, pingWire. cbn [app]. read32. eval_word. eval_if.
    unfold parseControlFrame. read32. eval_word.
    ceval (newControlFrame (Z.land 2147680262 65535)).
    unfold controlFrame_read, PingFrame_read.
    rewrite !rbind_unfold. read32. reflexivity.
Qed.

(** C1 (negative): a DATA frame whose payload has [2^24] bytes, one more
    than [MaxDataLength], passes the check of [writeDataFrame] (the bound
    tested is [0x0f000000]) and is written; its length overflows into the
    flags byte, so the header announces flags 1 and length 0. *)
Theorem C1_oversized_data_frame_is_written :
  ∀ (disabled : bool) (out : list byte) hb hc src n hd,
    let frame := DataFrame.mk 1 0 oversizedData in
    MaxDataLength < len (DataFrame.Data frame)
    ∧ WriteFrame (mkFramer disabled (mkWriter out None) hb hc src n hd)
        (Data frame)
      = (mkFramer disabled
           (mkWriter
              (out ++ [x00; x00; x00; x01; x01; x00; x00; x00] ++
               oversizedData) None) hb hc src n hd,
         Data frame, None).
Proof.
  intros. subst frame.
  assert (Hlen : len oversizedData = 16777216)
    by (apply len_repeat; lia).
  generalize dependent oversizedData. intros data Hlen.
  split; [cbn [DataFrame.Data]; rewrite Hlen; reflexivity|].
  unfold WriteFrame, writeDataFrame.
  cbn [DataFrame.StreamId DataFrame.Flags DataFrame.Data].
  rewrite Hlen. cbn. unfold finish_write, set_w; cbn.
  rewrite <- !app_assoc. reflexivity.
Qed.
End FrameProperties.

(** ** Errors of the readers *)

Lemma errors_in_rret {S A} (P : error → Prop) (a : A) :
  errors_in P (rret (S := S) a).
Proof. intros s s' e [=]. Qed.

Lemma errors_in_rfail {S A} (P : error → Prop) (e : error) :
  P e → errors_in P (rfail (S := S) (A := A) e).
Proof. intros H s s' e' [= <- <-]. exact H. Qed.

Lemma errors_in_rbind {S A B} (P : error → Prop) (c : reading S A)
    (k : A → reading S B) :
  errors_in P c → (∀ a, errors_in P (k a)) → errors_in P (rbind c k).
Proof.
  intros Hc Hk s s' e. unfold rbind.
  destruct (c s) as [s1 [a|e1]] eqn:E.
  - apply Hk.
  - intros [= <- <-]. eapply Hc, E.
Qed.

Lemma errors_in_bytes_Read (P : error → Prop) (n : Z) :
  (∀ e, P (IoError e)) → errors_in P (bytes_Read n).
Proof.
  intros HP s s' e. unfold bytes_Read.
  destruct (n <=? len s); [discriminate|].
  destruct s; intros [= <- <-]; apply HP.
Qed.

Section ReaderErrors.
Context {zlib : Zlib}.
Context (P : error → Prop) (P_io : ∀ e, P (IoError e)).

Lemma errors_in_Framer_Read (n : Z) : errors_in P (Framer_Read n).
Proof.
  intros f f' e. unfold Framer_Read.
  destruct (bytes_Read n (r f)) as [src res] eqn:E. intros [= <- ->].
  eapply errors_in_bytes_Read; eauto.
Qed.

Lemma errors_in_headerDecompressor_Read (n : Z) :
  errors_in P (headerDecompressor_Read n).
Proof.
  intros f f' e. unfold headerDecompressor_Read.
  destruct (headerDecompressor f) as [z|]; [|intros [= <- <-]; apply P_io].
  destruct (inflater_ReadFull _ _ _) as [[[z' out] c] [e'|]];
    intros [= <- <-]. apply P_io.
Qed.

Lemma errors_in_io_ReadFull {R} (Read : Z → reading R (list byte)) (n : Z) :
  (∀ n, errors_in P (Read n)) → errors_in P (io_ReadFull Read n).
Proof.
  intros H. unfold io_ReadFull. destruct (n =? 0); [apply errors_in_rret|apply H].
Qed.

Lemma errors_in_binary_Read32 {R} (Read : Z → reading R (list byte)) :
  (∀ n, errors_in P (Read n)) → errors_in P (binary_Read32 Read).
Proof.
  intros H. apply errors_in_rbind; [now apply errors_in_io_ReadFull|].
  intros a. apply errors_in_rret.
Qed.

Lemma errors_in_binary_Read8 {R} (Read : Z → reading R (list byte)) :
  (∀ n, errors_in P (Read n)) → errors_in P (binary_Read8 Read).
Proof.
  intros H. apply errors_in_rbind; [now apply errors_in_io_ReadFull|].
  intros a. apply errors_in_rret.
Qed.

Lemma errors_in_parseHeaderEntries {R} (Read : Z → reading R (list byte))
    streamId count h e :
  (∀ n, errors_in P (Read n)) →
  errors_in P (parseHeaderEntries Read streamId count h e).
Proof.
  intros H. revert h e.
  induction count as [|count IH]; intros h e; cbn [parseHeaderEntries].
  - apply errors_in_rret.
  - repeat (apply errors_in_rbind;
            [first [now apply errors_in_binary_Read32
                   |now apply errors_in_io_ReadFull]|intros ?]).
    apply IH.
Qed.

Lemma errors_in_parseHeaderValueBlock {R} (Read : Z → reading R (list byte))
    streamId :
  (∀ n, errors_in P (Read n)) →
  errors_in P (parseHeaderValueBlock Read streamId).
Proof.
  intros H. apply errors_in_rbind; [now apply errors_in_binary_Read32|].
  intros a. now apply errors_in_parseHeaderEntries.
Qed.
End ReaderErrors.

Lemma errors_in_weaken {S A} (P Q : error → Prop) (c : reading S A) :
  errors_in P c → (∀ e, P e → Q e) → errors_in Q c.
Proof. intros Hc HPQ s s' e H. eapply HPQ, Hc, H. Qed.

Lemma parseHeaderEntries_diagnostic {R} (Read : Z → reading R (list byte))
    streamId count h e s s' h' x :
  parseHeaderEntries Read streamId count h e s = (s', inl (h', Some x)) →
  e = Some x ∨ headerDiagnostic streamId x.
Proof.
  revert h e s. induction count as [|count IH]; intros h e s;
    cbn [parseHeaderEntries].
  - intros [= <- <- <-]. now left.
  - intros H.
    apply rbind_inv_inl in H as (s1 & l1 & _ & H).
    apply rbind_inv_inl in H as (s2 & nameBytes & _ & H).
    apply rbind_inv_inl in H as (s3 & l2 & _ & H).
    apply rbind_inv_inl in H as (s4 & value & _ & H).
    apply IH in H as [H|H]; [|now right].
    destruct (Header_index_non_nil _ _).
    { injection H as <-. right. now right. }
    destruct (negb _).
    { injection H as <-. right. now left. }
    now left.
Qed.

Lemma parseHeaderValueBlock_diagnostic {R} (Read : Z → reading R (list byte))
    streamId s s' h' x :
  parseHeaderValueBlock Read streamId s = (s', inl (h', Some x)) →
  headerDiagnostic streamId x.
Proof.
  unfold parseHeaderValueBlock. intros H.
  apply rbind_inv_inl in H as (s1 & n & _ & H).
  apply parseHeaderEntries_diagnostic in H as [[=]|H]. exact H.
Qed.

Section ReadFrameErrors.
Context {zlib : Zlib}.

Lemma errors_in_uncorkHeaderDecompressor f payloadSize f' e :
  uncorkHeaderDecompressor f payloadSize = (f', Some e) →
  ∃ io, e = IoError io.
Proof.
  unfold uncorkHeaderDecompressor.
  destruct (headerDecompressor f); [discriminate|].
  destruct (NewReaderDict _) as [c [z|io]]; [discriminate|].
  intros [= <- <-]. eauto.
Qed.

Lemma errors_in_readHeaders payloadSize streamId :
  errors_in (readHeaders_error streamId) (readHeaders payloadSize streamId).
Proof.
  intros f f' e. unfold readHeaders.
  destruct (if headerCompressionDisabled f then _ else _)
    as [f1 [err|]] eqn:Hu.
  { intros [= <- <-]. destruct (headerCompressionDisabled f); [discriminate|].
    apply errors_in_uncorkHeaderDecompressor in Hu as [io ->]. exact I. }
  destruct (parseHeaderValueBlock _ streamId f1) as [f2 res] eqn:Hp.
  assert (Hres : match res with
                 | inl (_, Some x) => headerDiagnostic streamId x
                 | inl (_, None) => True
                 | inr err => readHeaders_error streamId err
                 end).
  { destruct res as [[h [x|]]|err]; [|exact I|].
    - eapply parseHeaderValueBlock_diagnostic, Hp.
    - assert (Hio : ∀ io, readHeaders_error streamId (IoError io))
        by (intros; exact I).
      refine (errors_in_parseHeaderValueBlock (readHeaders_error streamId)
                _ streamId _ _ _ _ Hp).
      intros n. destruct (headerCompressionDisabled f).
      + now apply errors_in_Framer_Read.
      + now apply errors_in_headerDecompressor_Read. }
  destruct (negb (headerCompressionDisabled f) && _).
  { intros [= <- <-]. cbn. auto. }
  destruct res as [[h [x|]]|err]; cbn; intros [= <- <-]; auto.
  destruct Hres as [->| ->]; cbn; auto.
Qed.
End ReadFrameErrors.

(** ** Unknown control frame types *)
Section UnknownType.
Context {zlib : Zlib}.

Lemma newControlFrame_unknown (frameType : Z) :
  knownFrameType frameType = false →
  newControlFrame frameType = inr (SpdyError (mkError InvalidControlFrame 0)).
Proof.
  intros H. apply bool_decide_eq_false in H. unfold newControlFrame.
  replace (cframeCtor !! frameType) with (@None controlFrame); [reflexivity|].
  symmetry. apply not_elem_of_list_to_map_1. exact H.
Qed.

Lemma errorCodeNot_io (c : ErrorCode) (e : io_error) :
  errorCodeNot c (IoError e).
Proof. exact I. Qed.

Lemma errorCodeNot_readHeaders (c : ErrorCode) payloadSize streamId :
  c ≠ UnlowercasedHeaderName → c ≠ DuplicateHeaders →
  c ≠ WrongCompressedPayloadSize →
  errors_in (errorCodeNot c) (readHeaders payloadSize streamId).
Proof.
  intros H1 H2 H3. eapply errors_in_weaken; [apply errors_in_readHeaders|].
  intros [x|io]; cbn; [|trivial]. intros [->|[->| ->]]; cbn; congruence.
Qed.

(** Every error a reader returns is built in place or comes from a read. *)
Ltac reader_errors :=
  repeat first
    [ apply errors_in_rret
    | apply errors_in_rfail; cbn; congruence
    | apply errors_in_binary_Read32; intros ?;
        apply errors_in_Framer_Read; apply errorCodeNot_io
    | apply errors_in_binary_Read8; intros ?;
        apply errors_in_Framer_Read; apply errorCodeNot_io
    | apply errors_in_io_ReadFull; intros ?;
        apply errors_in_Framer_Read; apply errorCodeNot_io
    | apply errorCodeNot_readHeaders; congruence
    | apply errors_in_rbind; [|intros ?]
    | match goal with
      | |- errors_in _ (if ?b then _ else _) => destruct b
      end ].

Lemma errorCodeNot_readSynStreamFrame (c : ErrorCode) h frame :
  c ≠ UnlowercasedHeaderName → c ≠ DuplicateHeaders →
  c ≠ WrongCompressedPayloadSize → c ≠ InvalidHeaderPresent →
  c ≠ ZeroStreamId →
  errors_in (errorCodeNot c) (readSynStreamFrame h frame).
Proof. intros. unfold readSynStreamFrame. reader_errors. Qed.

Lemma notUnknownFrameType_readFlagIdValues count :
  errors_in (errorCodeNot UnknownFrameType) (readFlagIdValues count).
Proof.
  induction count as [|count IH]; cbn [readFlagIdValues]; reader_errors.
  apply IH.
Qed.

Lemma notUnknownFrameType_controlFrame_read cframe h :
  errors_in (errorCodeNot UnknownFrameType) (controlFrame_read cframe h).
Proof.
  destruct cframe; cbn [controlFrame_read];
    unfold readSynStreamFrame, readSynReplyFrame, readHeadersFrame,
      RstStreamFrame_read, SettingsFrame_read, PingFrame_read,
      GoAwayFrame_read, WindowUpdateFrame_read; reader_errors.
  apply notUnknownFrameType_readFlagIdValues.
Qed.

Lemma notUnknownFrameType_ReadFrame :
  errors_in (errorCodeNot UnknownFrameType) ReadFrame.
Proof.
  unfold ReadFrame, parseControlFrame, parseDataFrame. reader_errors.
  destruct (newControlFrame _) as [cframe|err] eqn:E.
  - reader_errors. apply notUnknownFrameType_controlFrame_read.
  - unfold newControlFrame in E. destruct (cframeCtor !! _); [discriminate|].
    injection E as <-. reader_errors.
Qed.

(** C7 (amended): when the type code of a control frame is not one of the
    eight known codes, [ReadFrame] reads the eight header bytes and returns
    the error [InvalidControlFrame] with stream id 0, leaving the source
    after the header; and no call of [ReadFrame] ever returns the error
    [UnknownFrameType]. *)
Theorem C7_unknown_type_is_invalid_control_frame :
  ∀ (f : Framer) (b0 b1 b2 b3 b4 b5 b6 b7 : byte) (rest : list byte),
    r f = b0 :: b1 :: b2 :: b3 :: b4 :: b5 :: b6 :: b7 :: rest →
    Z.land (getUint32 [b0; b1; b2; b3]) 0x80000000 ≠ 0 →
    knownFrameType (Z.land (getUint32 [b0; b1; b2; b3]) 0xffff) = false →
    ReadFrame f
    = (set_r f rest, inr (SpdyError (mkError InvalidControlFrame 0)))
    ∧ ∀ (g g' : Framer) (e : Error),
        ReadFrame g = (g', inr (SpdyError e)) → Err e ≠ UnknownFrameType.
Proof.
  intros f b0 b1 b2 b3 b4 b5 b6 b7 rest Hr Hbit Htype. split.
  - unfold ReadFrame.
    erewrite (rbind_inl (binary_Read32 Framer_Read))
      by (apply binary_Read32_Framer; exact Hr).
    apply Z.eqb_neq in Hbit. rewrite Hbit. cbn [negb].
    unfold parseControlFrame.
    erewrite (rbind_inl (binary_Read32 Framer_Read))
      by (apply binary_Read32_Framer; reflexivity).
    rewrite newControlFrame_unknown by exact Htype.
    destruct f; reflexivity.
  - intros g g' e H. exact (notUnknownFrameType_ReadFrame _ _ _ H).
Qed.
End UnknownType.

Section UnknownTypeExample.
#[local] Existing Instance storedZlib.

(** C7 (witness): the header [80 03 00 05 00 00 00 00] with the type code 5. *)
Lemma C7_witness :
  ReadFrame (plainFramer (mkWriter [] None) noopWire)
  = (plainFramer (mkWriter [] None) [],
     inr (SpdyError (mkError InvalidControlFrame 0)))
  ∧ ∀ (g g' : Framer) (e : Error),
      ReadFrame g = (g', inr (SpdyError e)) → Err e ≠ UnknownFrameType.
Proof.
  apply (C7_unknown_type_is_invalid_control_frame
           (plainFramer (mkWriter [] None) noopWire)
           x80 x03 x00 x05 x00 x00 x00 x00 []).
  - reflexivity.
  - vm_compute. discriminate.
  - reflexivity.
Defined.

(** C7 (counterexample): on a control frame header with the unknown type
    code 5, [ReadFrame] returns [InvalidControlFrame], which is not the
    error [UnknownFrameType]. *)
Lemma C7_counterexample :
  ∃ e : Error,
    snd (ReadFrame (plainFramer (mkWriter [] None) noopWire))
    = inr (SpdyError e)
    ∧ Err e = InvalidControlFrame ∧ Err e ≠ UnknownFrameType.
Proof.
  exists (mkError InvalidControlFrame 0). split; [reflexivity|].
  split; [reflexivity|discriminate].
Qed.
End UnknownTypeExample.

(** ** SYN_STREAM frames *)
Section SynStream.
Context {zlib : Zlib} {order : MapOrder}.

(** C10: with header compression on, a SYN_STREAM header whose length field
    is below 10 is not rejected for its length.  The bound given to
    [uncorkHeaderDecompressor] is [length - 10] in unsigned 32-bit
    arithmetic, i.e. [length - 10 + 2^32] (4294967295 for length 9); the
    bounded reader's [N] is set to it before the decompressor is created or
    used, and the frame reader never returns [InvalidControlFrame]. *)
Theorem C10_short_length_wraps :
  ∀ (f : Framer) (h : ControlFrameHeader.t) (frame : SynStreamFrame.t)
    (b0 b1 b2 b3 b4 b5 b6 b7 b8 b9 : byte) (rest : list byte),
    headerCompressionDisabled f = false →
    0 ≤ ControlFrameHeader.length h < 10 →
    r f = b0 :: b1 :: b2 :: b3 :: b4 :: b5 :: b6 :: b7 :: b8 :: b9 :: rest →
    let bound := ControlFrameHeader.length h - 10 + 2 ^ 32 in
    let StreamId := getUint32 [b0; b1; b2; b3] in
    let f0 := set_r f rest in
    uint32 (ControlFrameHeader.length h - 10) = bound
    ∧ (ControlFrameHeader.length h = 9 → bound = 4294967295)
    ∧ readSynStreamFrame h frame f
      = (let* Headers := readHeaders bound StreamId in
         if hasInvalidHeader invalidReqHeaders Headers
         then rfail (SpdyError (mkError InvalidHeaderPresent StreamId))
         else if StreamId =? 0 then rfail ZeroStreamIdError
         else rret (SynStreamFrame.mk h StreamId (getUint32 [b4; b5; b6; b7])
                      (Z.shiftr (getUint8 [b8]) 5) (getUint8 [b9]) Headers))
          f0
    ∧ (∀ z, headerDecompressor f = Some z →
            uncorkHeaderDecompressor f0 bound
            = (set_headerReader_N f0 bound, None))
    ∧ (headerDecompressor f = None →
       uncorkHeaderDecompressor f0 bound
       = let '(c, res) := NewReaderDict (takeZ bound rest) in
         let c := Z.max 0 (Z.min c (len (takeZ bound rest))) in
         let f1 := set_headerReader_N (set_r f0 (dropZ c rest)) (bound - c) in
         match res with
         | inr err => (f1, Some (IoError err))
         | inl decompressor =>
             (set_headerDecompressor f1 (Some decompressor), None)
         end)
    ∧ (∀ f1 e, uncorkHeaderDecompressor f0 bound = (f1, Some e) →
               readSynStreamFrame h frame f = (f1, inr e))
    ∧ (∀ f' x, readSynStreamFrame h frame f = (f', inr (SpdyError x)) →
               Err x ≠ InvalidControlFrame).
Proof.
  intros f h frame b0 b1 b2 b3 b4 b5 b6 b7 b8 b9 rest Hc Hlen Hr
    bound StreamId f0.
  assert (Hbound : uint32 (ControlFrameHeader.length h - 10) = bound).
  { unfold uint32, bound.
    rewrite <- (Z.mod_add _ 1 (2 ^ 32)) by lia.
    apply Z.mod_small. lia. }
  assert (Hread : readSynStreamFrame h frame f
      = (let* Headers := readHeaders bound StreamId in
         if hasInvalidHeader invalidReqHeaders Headers
         then rfail (SpdyError (mkError InvalidHeaderPresent StreamId))
         else if StreamId =? 0 then rfail ZeroStreamIdError
         else rret (SynStreamFrame.mk h StreamId (getUint32 [b4; b5; b6; b7])
                      (Z.shiftr (getUint8 [b8]) 5) (getUint8 [b9]) Headers))
          f0).
  { unfold readSynStreamFrame. rewrite Hbound.
    read32. read32. read8. read8.
    subst f0. destruct f; reflexivity. }
  split; [exact Hbound|]. split; [unfold bound; lia|].
  split; [exact Hread|]. split; [|split; [|split]].
  - intros z Hz. unfold uncorkHeaderDecompressor, f0.
    destruct f; cbn in *. now rewrite Hz.
  - intros Hz. unfold uncorkHeaderDecompressor, f0.
    destruct f; cbn in *. rewrite Hz. reflexivity.
  - intros f1 e Hu. rewrite Hread, rbind_unfold. unfold readHeaders.
    replace (headerCompressionDisabled f0) with false
      by (subst f0; destruct f; cbn in *; congruence).
    now rewrite Hu.
  - intros f' x H.
    refine (errorCodeNot_readSynStreamFrame InvalidControlFrame h frame
              _ _ _ _ _ _ _ _ H); discriminate.
Qed.

(** The header block is marshalled into the scratch buffer only: the sink is
    not touched, and no error arises. *)
Lemma writeHeaderEntries_headerWriter entries (f : Framer) n :
  ∃ f1 n1, writeHeaderEntries headerWriter_Write entries f n = (f1, n1, None)
           ∧ w f1 = w f
           ∧ headerCompressionDisabled f1 = headerCompressionDisabled f.
Proof.
  assert (Hstep : ∀ (f : Framer) p, ∃ f1,
             headerWriter_Write f p = (f1, None) ∧ w f1 = w f
             ∧ headerCompressionDisabled f1 = headerCompressionDisabled f).
  { intros f0 p. unfold headerWriter_Write.
    destruct (headerCompressionDisabled f0) eqn:E.
    - eexists; split; [reflexivity|]. destruct f0; cbn in *; auto.
    - destruct (deflater_Write _ _) as [z out].
      eexists; split; [reflexivity|]. destruct f0; cbn in *; auto. }
  revert f n. induction entries as [|[name values] entries IH]; intros f n.
  - exists f, n. auto.
  - cbn [writeHeaderEntries].
    destruct (Hstep f (putUint32 (uint32 (slen name)))) as (f1 & -> & W1 & D1).
    destruct (Hstep f1 (list_byte_of_string (ToLower name)))
      as (f2 & -> & W2 & D2).
    destruct (Hstep f2 (putUint32 (uint32
                (slen (Join values headerValueSeparator)))))
      as (f3 & -> & W3 & D3).
    destruct (Hstep f3 (list_byte_of_string
                (Join values headerValueSeparator)))
      as (f4 & -> & W4 & D4).
    destruct (IH f4 (n + 2 + slen (ToLower name) + 2
                     + slen (Join values headerValueSeparator)))
      as (f5 & n5 & -> & W5 & D5).
    exists f5, n5. split; [reflexivity|]. split; congruence.
Qed.

Lemma marshalHeaders_ok (f : Framer) (h : Header) :
  ∃ f1, marshalHeaders f h = (f1, None) ∧ w f1 = w f.
Proof.
  unfold marshalHeaders, writeHeaderValueBlock.
  assert (Hstep : ∃ f1,
             headerWriter_Write f (putUint32 (uint32 (len (range h))))
             = (f1, None) ∧ w f1 = w f).
  { unfold headerWriter_Write.
    destruct (headerCompressionDisabled f).
    - eexists; split; [reflexivity|]. destruct f; reflexivity.
    - destruct (deflater_Write _ _) as [z out].
      eexists; split; [reflexivity|]. destruct f; reflexivity. }
  destruct Hstep as (f1 & -> & W1).
  destruct (writeHeaderEntries_headerWriter (range h) f1 (0 + 2))
    as (f2 & n2 & -> & W2 & _).
  destruct (headerCompressionDisabled f2).
  - exists f2. split; [reflexivity|congruence].
  - eexists. split; [reflexivity|].
    unfold headerCompressor_Flush. destruct (deflater_Flush _) as [z out].
    destruct f2; cbn in *; congruence.
Qed.

(** What a successful [writeSynStreamFrame] appends to the sink. *)
Lemma writeSynStreamFrame_emitted (f f' : Framer)
    (frame frame' : SynStreamFrame.t) :
  writeSynStreamFrame f frame = (f', frame', None) →
  ∃ f1, marshalHeaders f (SynStreamFrame.Headers frame) = (f1, None)
    ∧ frame' = SynStreamFrame.mk
        (ControlFrameHeader.mk Version TypeSynStream
           (ControlFrameHeader.Flags (SynStreamFrame.CFHeader frame))
           (uint32 (len (headerBuf f1) + 10)))
        (SynStreamFrame.StreamId frame)
        (SynStreamFrame.AssociatedToStreamId frame)
        (SynStreamFrame.Priority frame) (SynStreamFrame.Slot frame)
        (SynStreamFrame.Headers frame)
    ∧ written (w f')
      = written (w f) ++
        controlFrameHeaderBytes (SynStreamFrame.CFHeader frame') ++
        putUint32 (SynStreamFrame.StreamId frame) ++
        putUint32 (SynStreamFrame.AssociatedToStreamId frame) ++
        [byte_of_Z (uint8 (Z.shiftl (SynStreamFrame.Priority frame) 5))] ++
        [byte_of_Z (SynStreamFrame.Slot frame)] ++ headerBuf f1.
Proof.
  unfold writeSynStreamFrame.
  destruct (SynStreamFrame.StreamId frame =? 0); [discriminate|].
  destruct (marshalHeaders_ok f (SynStreamFrame.Headers frame))
    as (f1 & -> & W1).
  unfold finish_write.
  match goal with
  | |- context [?a (w f1)] => destruct (a (w f1)) as [w' [e|]] eqn:E
  end; [discriminate|].
  intros [= <- <-]. exists f1. split; [reflexivity|]. split; [reflexivity|].
  revert E. rewrite W1. intros E.
  eapply (emits_seq _ _ _ _ (emits_writeControlFrameHeader _)) in E;
    [cbn [w set_w set_headerBuf]; exact E|].
  auto 10 with sink.
Qed.

Lemma getUint8_range (bs : list byte) : 0 ≤ getUint8 bs < 256.
Proof.
  destruct bs as [|a [|b bs]]; cbn [getUint8]; try lia.
  apply Z_of_byte_range.
Qed.

Lemma priority_byte (p : Z) :
  0 ≤ p ≤ 7 → Z.shiftr (getUint8 [byte_of_Z (uint8 (Z.shiftl p 5))]) 5 = p.
Proof.
  intros Hp.
  assert (p = 0 ∨ p = 1 ∨ p = 2 ∨ p = 3 ∨ p = 4 ∨ p = 5 ∨ p = 6 ∨ p = 7)
    as H by lia.
  repeat destruct H as [->|H]; try subst p; reflexivity.
Qed.

(** A SYN_STREAM frame that was read has its priority from one byte. *)
Lemma readSynStreamFrame_priority h frame (f f' : Framer) s :
  readSynStreamFrame h frame f = (f', inl s) →
  ∃ bs, SynStreamFrame.Priority s = Z.shiftr (getUint8 bs) 5.
Proof.
  unfold readSynStreamFrame, binary_Read8. intros H.
  apply rbind_inv_inl in H as (f1 & sid & _ & H).
  apply rbind_inv_inl in H as (f2 & assoc & _ & H).
  apply rbind_inv_inl in H as (f3 & pri & Hpri & H).
  apply rbind_inv_inl in Hpri as (f3' & bs & _ & [= <- <-]).
  apply rbind_inv_inl in H as (f4 & slot & _ & H).
  apply rbind_inv_inl in H as (f5 & hs & _ & H).
  destruct (hasInvalidHeader _ _); [discriminate|].
  destruct (sid =? 0); [discriminate|].
  injection H as <- <-. exists bs. reflexivity.
Qed.

(** A successful [ReadFrame] that gives a SYN_STREAM frame went through
    [readSynStreamFrame]. *)
Lemma ReadFrame_SynStream_inv (g g' : Framer) s :
  ReadFrame g = (g', inl (Control (CSynStream s))) →
  ∃ h frame g1, readSynStreamFrame h frame g1 = (g', inl s).
Proof.
  unfold ReadFrame. intros H.
  apply rbind_inv_inl in H as (g1 & firstWord & _ & H).
  destruct (negb _).
  - unfold parseControlFrame in H.
    apply rbind_inv_inl in H as (g2 & length & _ & H).
    destruct (newControlFrame _) as [cframe|err]; [|discriminate].
    apply rbind_inv_inl in H as (g3 & c & Hc & [= ? ?]). subst g3 c.
    destruct cframe; cbn [controlFrame_read] in Hc;
      apply rbind_inv_inl in Hc as (g4 & x & Hx & [= ? ?]);
      try discriminate.
    subst. eauto.
  - apply rbind_inv_inl in H as (g2 & d & _ & [=]).
Qed.

(** Reading back what [writeSynStreamFrame] wrote: [ReadFrame] gets through
    the frame header and the fixed fields to the header block, with the
    priority that was written. *)
Lemma ReadFrame_written_SynStream (f f' g : Framer)
    (frame frame' : SynStreamFrame.t) (emitted rest : list byte) :
  0 ≤ SynStreamFrame.Priority frame ≤ 7 →
  writeSynStreamFrame f frame = (f', frame', None) →
  written (w f') = written (w f) ++ emitted →
  r g = emitted ++ rest →
  ∃ h StreamId AssociatedToStreamId Slot block,
    ReadFrame g
    = (let* Headers :=
         readHeaders (uint32 (ControlFrameHeader.length h - 10)) StreamId in
       if hasInvalidHeader invalidReqHeaders Headers
       then rfail (SpdyError (mkError InvalidHeaderPresent StreamId))
       else if StreamId =? 0 then rfail ZeroStreamIdError
       else rret (Control (CSynStream
                    (SynStreamFrame.mk h StreamId AssociatedToStreamId
                       (SynStreamFrame.Priority frame) Slot Headers))))
        (set_r g (block ++ rest)).
Proof.
  intros Hp Hs Hout Hr.
  apply writeSynStreamFrame_emitted in Hs as (f1 & _ & -> & Hs).
  rewrite Hout in Hs. apply app_inv_head in Hs. subst emitted.
  cbn [SynStreamFrame.CFHeader] in Hr.
  unfold controlFrameHeaderBytes, putUint16, putUint32 in Hr.
  cbn [app ControlFrameHeader.version ControlFrameHeader.frameType] in Hr.
  do 4 eexists. exists (headerBuf f1).
  unfold ReadFrame. read32. eval_word. eval_if.
  unfold parseControlFrame. read32.
  ceval (newControlFrame (Z.land 2147680257 65535)).
  cbn [controlFrame_read]. unfold readSynStreamFrame.
  read32. read32. read8. read8. rewrite ?rbind_assoc.
  rewrite priority_byte by exact Hp.
  destruct g; cbn [set_r r headerCompressionDisabled w headerBuf
                     headerCompressor headerReader_N headerDecompressor].
  apply rbind_ext. intros Headers s. unfold rbind.
  destruct (hasInvalidHeader _ _); [reflexivity|].
  destruct (_ =? 0); reflexivity.
Qed.

(** C9: when a SYN_STREAM frame with priority 0..7 is written and the bytes
    are read back, [ReadFrame] gets to the header block with the priority
    that was written, and a frame it then returns is a SYN_STREAM frame with
    that priority; and every SYN_STREAM frame that [ReadFrame] returns has a
    priority between 0 and 7. *)
Theorem C9_priority_round_trip :
  ∀ (f f' g : Framer) (frame : SynStreamFrame.t) (frame' : Frame)
    (emitted rest : list byte),
    0 ≤ SynStreamFrame.Priority frame ≤ 7 →
    WriteFrame f (CSynStream frame) = (f', frame', None) →
    written (w f') = written (w f) ++ emitted →
    r g = emitted ++ rest →
    (∃ h StreamId AssociatedToStreamId Slot block,
       ReadFrame g
       = (let* Headers :=
            readHeaders (uint32 (ControlFrameHeader.length h - 10))
              StreamId in
          if hasInvalidHeader invalidReqHeaders Headers
          then rfail (SpdyError (mkError InvalidHeaderPresent StreamId))
          else if StreamId =? 0 then rfail ZeroStreamIdError
          else rret (Control (CSynStream
                       (SynStreamFrame.mk h StreamId AssociatedToStreamId
                          (SynStreamFrame.Priority frame) Slot Headers))))
           (set_r g (block ++ rest)))
    ∧ (∀ (g' : Framer) (fr : Frame),
         ReadFrame g = (g', inl fr) →
         ∃ s, fr = Control (CSynStream s)
              ∧ SynStreamFrame.Priority s = SynStreamFrame.Priority frame)
    ∧ ∀ (g1 g2 : Framer) (s : SynStreamFrame.t),
        ReadFrame g1 = (g2, inl (Control (CSynStream s))) →
        0 ≤ SynStreamFrame.Priority s ≤ 7.
Proof.
  intros f f' g frame frame' emitted rest Hp Hw Hout Hr.
  cbn [WriteFrame controlFrame_write] in Hw.
  destruct (writeSynStreamFrame f frame) as [[f0 fr0] e0] eqn:Hs.
  injection Hw as -> <- ->.
  destruct (ReadFrame_written_SynStream _ _ _ _ _ _ _ Hp Hs Hout Hr)
    as (h & sid & assoc & slot & block & Hread).
  split; [eauto 10|]. split.
  - intros g' fr H. rewrite Hread in H.
    apply rbind_inv_inl in H as (g1 & hs & _ & H).
    destruct (hasInvalidHeader _ _); [discriminate|].
    destruct (_ =? 0); [discriminate|].
    injection H as <- <-. eexists. split; reflexivity.
  - intros g1 g2 s H.
    apply ReadFrame_SynStream_inv in H as (h' & fr0' & g3 & H).
    apply readSynStreamFrame_priority in H as (bs & ->).
    pose proof (getUint8_range bs) as Hb.
    rewrite Z.shiftr_div_pow2 by lia. change (2 ^ 5) with 32.
    split; [apply Z.div_pos; lia|].
    apply Z.lt_succ_r, Z.div_lt_upper_bound; lia.
Qed.
End SynStream.

Section SynStreamExample.
#[local] Existing Instance storedZlib.

(** C10 (witness): length 9 on a framer whose decompressor exists. *)
Lemma C10_witness :
  uint32 (9 - 10) = 4294967295
  ∧ uncorkHeaderDecompressor (set_r shortSynStreamFramer [x00; x00])
      4294967295
    = (set_headerReader_N (set_r shortSynStreamFramer [x00; x00]) 4294967295,
       None).
Proof.
  destruct (C10_short_length_wraps shortSynStreamFramer
              (ControlFrameHeader.mk 3 1 0 9) SynStreamFrame.zero
              x00 x00 x00 x01 x00 x00 x00 x00 x60 x00 [x00; x00]
              eq_refl ltac:(cbn; lia) eq_refl)
    as (H1 & _ & _ & H2 & _).
  split; [exact H1|exact (H2 tt eq_refl)].
Defined.

(** C9 (witness): the frame [synStreamExample], priority 3, written by a
    framer without header compression and read back by another. *)
Lemma C9_witness :
  ∃ s, (ReadFrame (plainFramer (mkWriter [] None) synStreamWire)).2
       = inl (Control (CSynStream s))
       ∧ SynStreamFrame.Priority s = 3.
Proof.
  pose (f := plainFramer (mkWriter [] None) []).
  pose (wr := WriteFrame (order := keyOrder) f (CSynStream synStreamExample)).
  pose (g := plainFramer (mkWriter [] None) synStreamWire).
  pose (rd := ReadFrame g).
  pose (fr := match rd.2 with
              | inl fr => fr
              | inr _ => Control (CSynStream synStreamExample)
              end).
  destruct (C9_priority_round_trip (order := keyOrder)
              f wr.1.1 g synStreamExample wr.1.2 synStreamWire [])
    as (_ & Hback & _).
  - vm_compute. split; discriminate.
  - vm_compute. reflexivity.
  - vm_compute. reflexivity.
  - vm_compute. reflexivity.
  - destruct (Hback rd.1 fr) as (s & Hfr & Hs).
    + vm_compute. reflexivity.
    + exists s. split; [|exact Hs].
      rewrite <- Hfr. vm_compute. reflexivity.
Defined.
End SynStreamExample.

(** ** Stream id zero *)
Section ZeroStreamId.
Context {zlib : Zlib} {order : MapOrder}.

Lemma set_r_id (f : Framer) : set_r f (r f) = f.
Proof. destruct f; reflexivity. Qed.

Lemma io_ReadFull_Framer (f : Framer) (data rest : list byte) (n : Z) :
  r f = data ++ rest → len data = n →
  io_ReadFull Framer_Read n f = (set_r f rest, inl data).
Proof.
  intros Hr Hn. unfold io_ReadFull.
  destruct (Z.eqb_spec n 0) as [->|Hnz].
  - destruct data; [|rewrite len_cons in Hn; pose proof (len_nonneg data); lia].
    cbn in Hr. rewrite <- Hr, set_r_id. reflexivity.
  - unfold Framer_Read. rewrite Hr, (bytes_Read_app n) by exact Hn.
    reflexivity.
Qed.

(** Inversion of a successful reading, one [let*] or test at a time. *)
Ltac invert_reading H :=
  repeat first
    [ discriminate H
    | apply rbind_inv_inl in H as (? & ? & ? & H)
    | match type of H with
      | (if ?b then _ else _) _ = _ => destruct b eqn:?
      end ].

Lemma controlFrame_read_checkedStreamId cframe h (g g' : Framer) c :
  controlFrame_read cframe h g = (g', inl c) →
  checkedStreamId (Control c) ≠ Some 0.
Proof.
  intros H.
  destruct cframe; cbn [controlFrame_read] in H;
    apply rbind_inv_inl in H as (g1 & x & Hx & [= ? ?]); subst; cbn;
    try discriminate;
    unfold readSynStreamFrame, readSynReplyFrame, readHeadersFrame,
      RstStreamFrame_read in Hx;
    invert_reading Hx; injection Hx as <- <-; cbn; intros [= ->];
    match goal with
    | E : (0 =? 0) = false |- _ => discriminate E
    end.
Qed.

Lemma ReadFrame_checkedStreamId (g g' : Framer) fr :
  ReadFrame g = (g', inl fr) → checkedStreamId fr ≠ Some 0.
Proof.
  unfold ReadFrame, parseControlFrame, parseDataFrame. intros H.
  apply rbind_inv_inl in H as (g1 & firstWord & _ & H).
  destruct (negb _).
  - apply rbind_inv_inl in H as (g2 & length & _ & H).
    destruct (newControlFrame _) as [cframe|err]; [|discriminate].
    apply rbind_inv_inl in H as (g3 & c & Hc & [= ? ?]). subst.
    eapply controlFrame_read_checkedStreamId, Hc.
  - apply rbind_inv_inl in H as (g2 & d & Hd & [= ? ?]). subst.
    invert_reading Hd. injection Hd as <- <-. cbn. intros [= E].
    match goal with
    | E' : (_ =? 0) = false |- _ => rewrite E in E'; discriminate E'
    end.
Qed.

Lemma parseHeaderValueBlock_empty (f : Framer) (rest : list byte) streamId :
  r f = x00 :: x00 :: x00 :: x00 :: rest →
  parseHeaderValueBlock Framer_Read streamId f = (set_r f rest, inl (∅, None)).
Proof.
  intros Hr. unfold parseHeaderValueBlock. read32. reflexivity.
Qed.

Lemma readHeaders_empty (f : Framer) (rest : list byte) payloadSize streamId :
  headerCompressionDisabled f = true →
  r f = x00 :: x00 :: x00 :: x00 :: rest →
  readHeaders payloadSize streamId f = (set_r f rest, inl ∅).
Proof.
  intros Hd Hr. unfold readHeaders. rewrite Hd.
  rewrite (parseHeaderValueBlock_empty f rest) by exact Hr. reflexivity.
Qed.

(** C3 (amended): for SYN_STREAM, SYN_REPLY, RST_STREAM, HEADERS and DATA
    frames, [WriteFrame] on a value with stream id 0 returns [ZeroStreamId]
    and changes nothing; [ReadFrame] never returns such a frame with stream
    id 0, and on a wire frame with stream id 0 that passes the earlier
    checks (RST_STREAM with a non-zero status, DATA with its whole payload,
    and, header compression being off, SYN_STREAM, SYN_REPLY and HEADERS
    with an empty header block) it returns [ZeroStreamId].  WINDOW_UPDATE
    frames are not concerned. *)
Theorem C3_zero_stream_id :
  (∀ (f : Framer) (frame : Frame),
     checkedStreamId frame = Some 0 →
     WriteFrame f frame = (f, frame, Some ZeroStreamIdError))
  ∧ (∀ (g g' : Framer) (fr : Frame),
       ReadFrame g = (g', inl fr) → checkedStreamId fr ≠ Some 0)
  ∧ (∀ (g : Framer) (b4 b5 b6 b7 s0 s1 s2 s3 : byte) (rest : list byte),
       r g = [x80; x03; x00; x03; b4; b5; b6; b7; x00; x00; x00; x00;
              s0; s1; s2; s3] ++ rest →
       getUint32 [s0; s1; s2; s3] ≠ 0 →
       ReadFrame g = (set_r g rest, inr ZeroStreamIdError))
  ∧ (∀ (g : Framer) (b4 b5 b6 b7 : byte) (data rest : list byte),
       r g = [x00; x00; x00; x00; b4; b5; b6; b7] ++ data ++ rest →
       len data = Z.land (getUint32 [b4; b5; b6; b7]) 0xffffff →
       ReadFrame g = (set_r g rest, inr ZeroStreamIdError))
  ∧ (∀ (g : Framer) (b4 b5 b6 b7 a0 a1 a2 a3 pri slot : byte)
       (rest : list byte),
       headerCompressionDisabled g = true →
       r g = [x80; x03; x00; x01; b4; b5; b6; b7; x00; x00; x00; x00;
              a0; a1; a2; a3; pri; slot; x00; x00; x00; x00] ++ rest →
       ReadFrame g = (set_r g rest, inr ZeroStreamIdError))
  ∧ (∀ (g : Framer) (t b4 b5 b6 b7 : byte) (rest : list byte),
       headerCompressionDisabled g = true →
       t = x02 ∨ t = x08 →
       r g = [x80; x03; x00; t; b4; b5; b6; b7; x00; x00; x00; x00;
              x00; x00; x00; x00] ++ rest →
       ReadFrame g = (set_r g rest, inr ZeroStreamIdError)).
Proof.
  split; [|split; [|split; [|split; [|split]]]].
  - intros f [[fr|fr|fr|fr|fr|fr|fr|fr]|fr] H; cbn in H; try discriminate;
      injection H as H; cbn;
      unfold writeSynStreamFrame, writeSynReplyFrame, RstStreamFrame_write,
        writeHeadersFrame, writeDataFrame;
      rewrite H; reflexivity.
  - exact ReadFrame_checkedStreamId.
  - intros g b4 b5 b6 b7 s0 s1 s2 s3 rest Hr Hs. cbn [app] in Hr.
    unfold ReadFrame. read32. eval_word. eval_if.
    unfold parseControlFrame. read32.
    ceval (newControlFrame (Z.land 2147680259 65535)).
    cbn [controlFrame_read]. unfold RstStreamFrame_read.
    rewrite !rbind_assoc. read32. read32.
    apply Z.eqb_neq in Hs. rewrite Hs.
    cbn. destruct g; reflexivity.
  - intros g b4 b5 b6 b7 data rest Hr Hlen. cbn [app] in Hr.
    unfold ReadFrame. read32. eval_word. eval_if.
    unfold parseDataFrame. rewrite !rbind_assoc. read32.
    rewrite ?rbind_assoc.
    erewrite (rbind_inl (io_ReadFull Framer_Read _))
      by (apply io_ReadFull_Framer; [reflexivity|exact Hlen]).
    cbn. destruct g; reflexivity.
  - intros g b4 b5 b6 b7 a0 a1 a2 a3 pri slot rest Hd Hr. cbn [app] in Hr.
    unfold ReadFrame. read32. eval_word. eval_if.
    unfold parseControlFrame. read32.
    ceval (newControlFrame (Z.land 2147680257 65535)).
    cbn [controlFrame_read]. unfold readSynStreamFrame.
    rewrite !rbind_assoc. read32. read32. read8. read8.
    rewrite ?rbind_assoc.
    erewrite (rbind_inl (readHeaders _ _))
      by (apply readHeaders_empty;
          [destruct g; exact Hd|reflexivity]).
    cbn. destruct g; reflexivity.
  - intros g t b4 b5 b6 b7 rest Hd Ht Hr. cbn [app] in Hr.
    unfold ReadFrame. read32.
    destruct Ht as [-> | ->]; eval_word; eval_if;
      unfold parseControlFrame; read32.
    + ceval (newControlFrame (Z.land 2147680258 65535)).
      cbn [controlFrame_read]. unfold readSynReplyFrame.
      rewrite !rbind_assoc. read32.
      rewrite ?rbind_assoc.
      erewrite (rbind_inl (readHeaders _ _))
        by (apply readHeaders_empty;
            [destruct g; exact Hd|reflexivity]).
      cbn. destruct g; reflexivity.
    + ceval (newControlFrame (Z.land 2147680264 65535)).
      cbn [controlFrame_read]. unfold readHeadersFrame.
      rewrite !rbind_assoc. read32.
      rewrite ?rbind_assoc.
      erewrite (rbind_inl (readHeaders _ _))
        by (apply readHeaders_empty;
            [destruct g; exact Hd|reflexivity]).
      cbn. destruct g; reflexivity.
Qed.
End ZeroStreamId.

Section ZeroStreamIdExample.
#[local] Existing Instance storedZlib.
#[local] Existing Instance keyOrder.

(** C3 (witness): [RstStream{stream_id=0, status=1}], as a value and on
    the wire. *)
Lemma C3_witness :
  WriteFrame (plainFramer (mkWriter [] None) [])
    (CRstStream (RstStreamFrame.mk ControlFrameHeader.zero 0 1))
  = (plainFramer (mkWriter [] None) [],
     Control (CRstStream (RstStreamFrame.mk ControlFrameHeader.zero 0 1)),
     Some ZeroStreamIdError)
  ∧ ReadFrame
      (plainFramer (mkWriter [] None)
         [x80; x03; x00; x03; x00; x00; x00; x08; x00; x00; x00; x00;
          x00; x00; x00; x01])
    = (plainFramer (mkWriter [] None) [], inr ZeroStreamIdError).
Proof.
  destruct C3_zero_stream_id as (Hw & _ & Hr & _). split.
  - apply Hw. reflexivity.
  - refine (Hr (plainFramer (mkWriter [] None)
                  [x80; x03; x00; x03; x00; x00; x00; x08; x00; x00; x00; x00;
                   x00; x00; x00; x01])
              x00 x00 x00 x08 x00 x00 x00 x01 [] eq_refl _).
    vm_compute. discriminate.
Defined.

(** C3 (counterexample): [WindowUpdate{stream_id=0, delta=1}] is written
    without error, and its bytes are read back without error. *)
Lemma C3_counterexample :
  WriteFrame (plainFramer (mkWriter [] None) [])
    (CWindowUpdate (WindowUpdateFrame.mk ControlFrameHeader.zero 0 1))
  = (plainFramer (mkWriter windowUpdateWire None) [],
     Control (CWindowUpdate
                (WindowUpdateFrame.mk (ControlFrameHeader.mk 3 0x0009 0 8)
                   0 1)),
     None)
  ∧ ReadFrame (plainFramer (mkWriter [] None) windowUpdateWire)
    = (plainFramer (mkWriter [] None) [],
       inl (Control (CWindowUpdate
                       (WindowUpdateFrame.mk
                          (ControlFrameHeader.mk 3 0x0009 0 8) 0 1)))).
Proof. split; reflexivity. Qed.
End ZeroStreamIdExample.

(** ** Errors of [WriteFrame] and the sink *)

Lemma sink_errors_Write (P : error → Prop) (p : list byte) :
  P (IoError ErrClosedPipe) → sink_errors P (λ w, Writer_Write w p).
Proof.
  intros HP w w' e. unfold Writer_Write.
  destruct (limit w) as [n|]; [destruct (len p <=? n)|]; intros [= <- <-].
  exact HP.
Qed.

Lemma sink_errors_seq (P : error → Prop) (a b : sink_action) :
  sink_errors P a → sink_errors P b → sink_errors P (a >> b).
Proof.
  intros Ha Hb w w' e. unfold sink_seq.
  destruct (a w) as [w1 [e1|]] eqn:E.
  - intros [= <- <-]. eapply Ha, E.
  - apply Hb.
Qed.

Lemma sink_errors_ok (P : error → Prop) : sink_errors P sink_ok.
Proof. intros w w' e [=]. Qed.

Lemma sink_errors_fail (P : error → Prop) (e : error) :
  P e → sink_errors P (sink_fail e).
Proof. intros HP w w' e' [= <- <-]. exact HP. Qed.

Lemma outputError_io : outputError (IoError ErrClosedPipe).
Proof. now left. Qed.

Lemma sink_errors_binary_Write8 v : sink_errors outputError (binary_Write8 v).
Proof. apply sink_errors_Write, outputError_io. Qed.
Lemma sink_errors_binary_Write16 v : sink_errors outputError (binary_Write16 v).
Proof. apply sink_errors_Write, outputError_io. Qed.
Lemma sink_errors_binary_Write32 v : sink_errors outputError (binary_Write32 v).
Proof. apply sink_errors_Write, outputError_io. Qed.
Lemma sink_errors_Writer_Write p :
  sink_errors outputError (λ w, Writer_Write w p).
Proof. apply sink_errors_Write, outputError_io. Qed.

#[local] Hint Resolve sink_errors_seq sink_errors_ok sink_errors_binary_Write8
  sink_errors_binary_Write16 sink_errors_binary_Write32
  sink_errors_Writer_Write : sink.

Lemma sink_errors_writeControlFrameHeader h :
  sink_errors outputError (writeControlFrameHeader h).
Proof. unfold writeControlFrameHeader. auto with sink. Qed.

Lemma sink_errors_writeFlagIdValues l :
  sink_errors outputError (writeFlagIdValues l).
Proof. induction l; cbn [writeFlagIdValues]; auto with sink. Qed.

#[local] Hint Resolve sink_errors_writeControlFrameHeader
  sink_errors_writeFlagIdValues : sink.

Section WriteErrors.
Context {zlib : Zlib} {order : MapOrder}.

(** What the common end of the writers guarantees. *)
Lemma finish_write_spec {F} (f f0 f' : Framer) (frame frame' : F)
    (reset : bool) (a : sink_action) (e : option error) :
  w f0 = w f → extends a → sink_errors outputError a →
  finish_write f0 frame reset (a (w f0)) = (f', frame', e) →
  (∃ bs, written (w f') = written (w f) ++ bs)
  ∧ ∀ e0, e = Some e0 → outputError e0.
Proof.
  intros Hw Hext Herr. unfold finish_write.
  destruct (a (w f0)) as [w' [e1|]] eqn:E; intros [= <- <- <-].
  - split; [|intros e0 [= <-]; eapply Herr, E].
    destruct (Hext _ _ _ E) as [bs Hbs]. exists bs. now rewrite <- Hw.
  - split; [|discriminate].
    destruct (Hext _ _ _ E) as [bs Hbs]. exists bs. rewrite <- Hw.
    destruct reset; exact Hbs.
Qed.

(** Side conditions on the sink actions of the writers. *)
Ltac sink_auto :=
  repeat first
    [ apply extends_seq
    | apply sink_errors_seq
    | match goal with
      | |- extends (if ?b then _ else _) => destruct b
      | |- sink_errors _ (if ?b then _ else _) => destruct b
      end
    | solve [auto with sink]
    | apply sink_errors_fail; right; eexists; reflexivity ].

Lemma writer_outcome_WriteFrame (f f' : Framer) (frame frame' : Frame) e :
  WriteFrame f frame = (f', frame', e) →
  writer_outcome f f' frame frame' e.
Proof.
  destruct frame as [[fr|fr|fr|fr|fr|fr|fr|fr]|fr];
    cbn [WriteFrame controlFrame_write].
  - destruct (writeSynStreamFrame f fr) as [[f1 fr1] e1] eqn:H.
    intros [= <- <- <-]. revert H. unfold writeSynStreamFrame.
    destruct (_ =? 0).
    { intros [= <- <- <-]. left. unfold ZeroStreamIdError. eauto 10. }
    destruct (marshalHeaders_ok f (SynStreamFrame.Headers fr))
      as (f0 & -> & W).
    intros H. right. eapply (finish_write_spec f f0) in H; [|congruence|..].
    + destruct H as [Hb He]. split; [exact Hb|exact He].
    + sink_auto.
    + sink_auto.
  - destruct (writeSynReplyFrame f fr) as [[f1 fr1] e1] eqn:H.
    intros [= <- <- <-]. revert H. unfold writeSynReplyFrame.
    destruct (_ =? 0).
    { intros [= <- <- <-]. left. unfold ZeroStreamIdError. eauto 10. }
    destruct (marshalHeaders_ok f (SynReplyFrame.Headers fr))
      as (f0 & -> & W).
    intros H. right. eapply (finish_write_spec f f0) in H; [|congruence|..].
    + destruct H as [Hb He]. split; [exact Hb|exact He].
    + sink_auto.
    + sink_auto.
  - destruct (RstStreamFrame_write fr f) as [[f1 fr1] e1] eqn:H.
    intros [= <- <- <-]. revert H. unfold RstStreamFrame_write.
    destruct (_ =? 0).
    { intros [= <- <- <-]. left. unfold ZeroStreamIdError. eauto 10. }
    intros H. right. eapply (finish_write_spec f f) in H; [|congruence|..].
    + destruct H as [Hb He]. split; [exact Hb|exact He].
    + sink_auto.
    + sink_auto.
  - destruct (SettingsFrame_write fr f) as [[f1 fr1] e1] eqn:H.
    intros [= <- <- <-]. revert H. unfold SettingsFrame_write.
    intros H. right. eapply (finish_write_spec f f) in H; [|congruence|..].
    + destruct H as [Hb He]. split; [exact Hb|exact He].
    + sink_auto.
    + sink_auto.
  - destruct (PingFrame_write fr f) as [[f1 fr1] e1] eqn:H.
    intros [= <- <- <-]. revert H. unfold PingFrame_write.
    destruct (_ =? 0).
    { intros [= <- <- <-]. left. unfold ZeroStreamIdError. eauto 10. }
    intros H. right. eapply (finish_write_spec f f) in H; [|congruence|..].
    + destruct H as [Hb He]. split; [exact Hb|exact He].
    + sink_auto.
    + sink_auto.
  - destruct (GoAwayFrame_write fr f) as [[f1 fr1] e1] eqn:H.
    intros [= <- <- <-]. revert H. unfold GoAwayFrame_write.
    intros H. right. eapply (finish_write_spec f f) in H; [|congruence|..].
    + destruct H as [Hb He]. split; [exact Hb|exact He].
    + sink_auto.
    + sink_auto.
  - destruct (writeHeadersFrame f fr) as [[f1 fr1] e1] eqn:H.
    intros [= <- <- <-]. revert H. unfold writeHeadersFrame.
    destruct (_ =? 0).
    { intros [= <- <- <-]. left. unfold ZeroStreamIdError. eauto 10. }
    destruct (marshalHeaders_ok f (HeadersFrame.Headers fr))
      as (f0 & -> & W).
    intros H. right. eapply (finish_write_spec f f0) in H; [|congruence|..].
    + destruct H as [Hb He]. split; [exact Hb|exact He].
    + sink_auto.
    + sink_auto.
  - destruct (WindowUpdateFrame_write fr f) as [[f1 fr1] e1] eqn:H.
    intros [= <- <- <-]. revert H. unfold WindowUpdateFrame_write.
    intros H. right. eapply (finish_write_spec f f) in H; [|congruence|..].
    + destruct H as [Hb He]. split; [exact Hb|exact He].
    + sink_auto.
    + sink_auto.
  - destruct (writeDataFrame f fr) as [[f1 fr1] e1] eqn:H.
    intros [= <- <- <-]. revert H. unfold writeDataFrame.
    destruct (_ =? 0).
    { intros [= <- <- <-]. left. unfold ZeroStreamIdError. eauto 10. }
    destruct (negb _ || _).
    { intros [= <- <- <-]. left. eauto 10. }
    intros H. right. eapply (finish_write_spec f f) in H; [|congruence|..].
    + destruct H as [Hb He]. split; [exact Hb|exact He].
    + sink_auto.
    + sink_auto.
Qed.

(** C2 (amended): when [WriteFrame] returns the validation error
    [ZeroStreamId] or [InvalidDataFrame], nothing has been written and the
    framer and the frame are unchanged; whatever the outcome, the earlier
    contents of the sink are kept and only followed by bytes of the frame;
    and an I/O error that [WriteFrame] returns is the error of the sink. *)
Theorem C2_validation_errors_precede_output :
  ∀ (f f' : Framer) (frame frame' : Frame) (e : option error),
    WriteFrame f frame = (f', frame', e) →
    (∀ x, e = Some (SpdyError x) →
          Err x = ZeroStreamId ∨ Err x = InvalidDataFrame →
          f' = f ∧ frame' = frame)
    ∧ (∃ bs, written (w f') = written (w f) ++ bs)
    ∧ (∀ io, e = Some (IoError io) → io = ErrClosedPipe).
Proof.
  intros f f' frame frame' e H.
  apply writer_outcome_WriteFrame in H as [(-> & -> & x & -> & Hx)|[Hb He]].
  - split; [auto|]. split; [|discriminate].
    exists []. now rewrite app_nil_r.
  - split; [|split; [exact Hb|]].
    + intros x -> Hx. destruct (He _ eq_refl) as [[=]|[sid [= E]]].
      rewrite E in Hx. destruct Hx; discriminate.
    + intros io ->. destruct (He _ eq_refl) as [[= ->]|[sid [=]]].
      reflexivity.
Qed.
End WriteErrors.

Section WriteErrorsExample.
#[local] Existing Instance storedZlib.
#[local] Existing Instance keyOrder.

(** C2 (witness): a DATA frame whose stream id has the top bit set, on a
    sink that already holds one byte. *)
Lemma C2_witness :
  (WriteFrame (plainFramer (mkWriter [x01] (Some 3)) [])
     (Data (DataFrame.mk 0x80000001 0 [x41]))).1
  = (plainFramer (mkWriter [x01] (Some 3)) [],
     Data (DataFrame.mk 0x80000001 0 [x41])).
Proof.
  destruct (C2_validation_errors_precede_output
              (plainFramer (mkWriter [x01] (Some 3)) [])
              (plainFramer (mkWriter [x01] (Some 3)) [])
              (Data (DataFrame.mk 0x80000001 0 [x41]))
              (Data (DataFrame.mk 0x80000001 0 [x41]))
              (Some (SpdyError (mkError InvalidDataFrame 0x80000001)))
              eq_refl) as (H & _).
  destruct (H _ eq_refl (or_intror eq_refl)) as [_ _].
  reflexivity.
Defined.

(** C2 (counterexample): [Ping{id=1}] on a sink that fails after eight
    bytes returns the sink's error with the frame header written; and
    [RstStream{stream_id=1, status=0}] returns [InvalidControlFrame] with
    the header and the stream id, twelve bytes, written. *)
Lemma C2_counterexample :
  WriteFrame (plainFramer (mkWriter [] (Some 8)) [])
    (CPing (PingFrame.mk ControlFrameHeader.zero 1))
  = (plainFramer
       (mkWriter [x80; x03; x00; x06; x00; x00; x00; x04] (Some 0)) [],
     Control (CPing (PingFrame.mk (ControlFrameHeader.mk 3 0x0006 0 4) 1)),
     Some (IoError ErrClosedPipe))
  ∧ WriteFrame (plainFramer (mkWriter [] None) [])
      (CRstStream (RstStreamFrame.mk ControlFrameHeader.zero 1 0))
    = (plainFramer
         (mkWriter [x80; x03; x00; x03; x00; x00; x00; x08;
                    x00; x00; x00; x01] None) [],
       Control (CRstStream
                  (RstStreamFrame.mk (ControlFrameHeader.mk 3 0x0003 0 8) 1 0)),
       Some (SpdyError (mkError InvalidControlFrame 1))).
Proof. split; reflexivity. Qed.
End WriteErrorsExample.

(** ** The length field of control frames *)

Lemma flags_word_low_bits (flags : Z) :
  uint32 (Z.shiftl flags 24) = 2 ^ 24 * (flags mod 2 ^ 8).
Proof.
  unfold uint32. rewrite Z.shiftl_mul_pow2 by lia.
  change (2 ^ 32) with (2 ^ 24 * 2 ^ 8).
  rewrite Z.rem_mul_r by lia.
  rewrite Z.mod_mul, Z.div_mul by lia. lia.
Qed.

Lemma lengthField_header (h : ControlFrameHeader.t) (payload : list byte) :
  0 ≤ ControlFrameHeader.length h < 2 ^ 24 →
  lengthField (controlFrameHeaderBytes h ++ payload)
  = ControlFrameHeader.length h.
Proof.
  intros Hl. unfold controlFrameHeaderBytes, putUint16, putUint32.
  cbn [app lengthField]. rewrite !Z_of_byte_of_Z, flags_word_low_bits.
  set (q := ControlFrameHeader.Flags h mod 2 ^ 8).
  set (l := ControlFrameHeader.length h) in *.
  replace (2 ^ 24 * q) with (Z.shiftl q 24)
    by (rewrite Z.shiftl_mul_pow2; lia).
  rewrite (lor_shiftl_add q l 24) by lia.
  rewrite !Z.shiftr_div_pow2 by lia.
  change (2 ^ 8) with 256 in *. change (2 ^ 16) with 65536.
  change (2 ^ 24) with 16777216 in *.
  set (v := q * 16777216 + l).
  pose proof (Z.mod_pos_bound v 256 ltac:(lia)).
  pose proof (Z.mod_pos_bound (v / 256) 256 ltac:(lia)).
  pose proof (Z.mod_pos_bound (v / 65536) 256 ltac:(lia)).
  rewrite (lor_shiftl_add _ _ 8) by (change (2 ^ 8) with 256; lia).
  rewrite (lor_shiftl_add _ _ 16) by (change (2 ^ 8) with 256;
                                      change (2 ^ 16) with 65536; lia).
  change (2 ^ 8) with 256. change (2 ^ 16) with 65536.
  pose proof (Z.div_mod v 256 ltac:(lia)).
  pose proof (Z.div_mod (v / 256) 256 ltac:(lia)).
  pose proof (Z.div_mod (v / 65536) 256 ltac:(lia)).
  assert (v / 256 / 256 = v / 65536) by (rewrite Z.div_div by lia; reflexivity).
  assert (v / 65536 / 256 = v / 16777216)
    by (rewrite Z.div_div by lia; reflexivity).
  assert (v / 16777216 = q).
  { unfold v. rewrite Z.div_add_l by lia. rewrite Z.div_small by lia. lia. }
  unfold v in *. lia.
Qed.

Section LengthField.
Context {zlib : Zlib} {order : MapOrder}.

Lemma finish_write_ok {F} (f0 f' : Framer) (frame frame' : F) (reset : bool)
    (a : sink_action) (bs : list byte) :
  emits a bs →
  finish_write f0 frame reset (a (w f0)) = (f', frame', None) →
  written (w f') = written (w f0) ++ bs ∧ frame' = frame.
Proof.
  intros Ha. unfold finish_write.
  destruct (a (w f0)) as [w' [e|]] eqn:E; intros [= <- <-].
  split; [|reflexivity]. destruct reset; cbn; apply Ha, E.
Qed.

(** What a successful control frame writer appends to the sink: the header
    with its length set to the size of the payload, then the payload. *)
Lemma controlFrame_write_emitted (f f' : Framer) (frame frame' : controlFrame) :
  controlFrame_write frame f = (f', frame', None) →
  ∃ f1 payload,
    marshalHeaders f (frameHeaders frame) = (f1, None)
    ∧ written (w f')
      = written (w f) ++ controlFrameHeaderBytes (frameCFHeader frame')
        ++ payload
    ∧ len payload = payloadSize frame (len (headerBuf f1))
    ∧ ControlFrameHeader.length (frameCFHeader frame') = uint32 (len payload).
Proof.
  destruct (marshalHeaders_ok f (frameHeaders frame)) as (f1 & Hm & W1).
  intros H. exists f1.
  destruct frame as [fr|fr|fr|fr|fr|fr|fr|fr]; cbn [controlFrame_write] in H;
    cbn [frameHeaders] in Hm.
  - destruct (writeSynStreamFrame f fr) as [[f0 fr0] e0] eqn:Hs.
    injection H as <- <- ->.
    apply writeSynStreamFrame_emitted in Hs as (f2 & Hm2 & -> & Hs).
    rewrite Hm in Hm2. injection Hm2 as <-.
    eexists. split; [exact Hm|]. split; [exact Hs|].
    cbn [payloadSize frameCFHeader SynStreamFrame.CFHeader
           ControlFrameHeader.length].
    rewrite !len_app, !len_putUint32, !len_cons, len_nil.
    split; [lia|f_equal; lia].
  - destruct (writeSynReplyFrame f fr) as [[f0 fr0] e0] eqn:Hs.
    injection H as <- <- ->. revert Hs. unfold writeSynReplyFrame.
    destruct (_ =? 0); [discriminate|]. rewrite Hm. intros Hs.
    eapply finish_write_ok in Hs as [Hs ->]; [|auto 10 with sink].
    rewrite W1 in Hs.
    eexists. split; [exact Hm|]. split; [exact Hs|].
    cbn [payloadSize frameCFHeader SynReplyFrame.CFHeader
           ControlFrameHeader.length].
    rewrite !len_app, !len_putUint32.
    split; [lia|f_equal; lia].
  - destruct (RstStreamFrame_write fr f) as [[f0 fr0] e0] eqn:Hs.
    injection H as <- <- ->. revert Hs. unfold RstStreamFrame_write.
    destruct (_ =? 0); [discriminate|]. intros Hs.
    eapply (finish_write_ok _ _ _ _ _ _
              (controlFrameHeaderBytes _ ++ putUint32 _ ++ putUint32 _))
      in Hs as [Hs ->].
    2:{ repeat apply emits_seq; auto with sink.
        destruct (_ =? 0); auto with sink. }
    eexists. split; [exact Hm|]. split; [exact Hs|].
    split; reflexivity.
  - destruct (SettingsFrame_write fr f) as [[f0 fr0] e0] eqn:Hs.
    injection H as <- <- ->. revert Hs. unfold SettingsFrame_write.
    intros Hs.
    eapply finish_write_ok in Hs as [Hs ->]; [|auto 10 with sink].
    eexists. split; [exact Hm|]. split; [exact Hs|].
    cbn [payloadSize frameCFHeader SettingsFrame.CFHeader
           SettingsFrame.FlagIdValues ControlFrameHeader.length].
    rewrite !len_app, !len_putUint32, len_flagIdValuesBytes.
    split; [lia|f_equal; lia].
  - destruct (PingFrame_write fr f) as [[f0 fr0] e0] eqn:Hs.
    injection H as <- <- ->. revert Hs. unfold PingFrame_write.
    destruct (_ =? 0); [discriminate|]. intros Hs.
    eapply finish_write_ok in Hs as [Hs ->]; [|auto 10 with sink].
    eexists. split; [exact Hm|]. split; [exact Hs|].
    split; reflexivity.
  - destruct (GoAwayFrame_write fr f) as [[f0 fr0] e0] eqn:Hs.
    injection H as <- <- ->. revert Hs. unfold GoAwayFrame_write.
    intros Hs.
    eapply finish_write_ok in Hs as [Hs ->]; [|auto 10 with sink].
    eexists. split; [exact Hm|]. split; [exact Hs|].
    split; reflexivity.
  - destruct (writeHeadersFrame f fr) as [[f0 fr0] e0] eqn:Hs.
    injection H as <- <- ->. revert Hs. unfold writeHeadersFrame.
    destruct (_ =? 0); [discriminate|]. rewrite Hm. intros Hs.
    eapply finish_write_ok in Hs as [Hs ->]; [|auto 10 with sink].
    rewrite W1 in Hs.
    eexists. split; [exact Hm|]. split; [exact Hs|].
    cbn [payloadSize frameCFHeader HeadersFrame.CFHeader
           ControlFrameHeader.length].
    rewrite !len_app, !len_putUint32.
    split; [lia|f_equal; lia].
  - destruct (WindowUpdateFrame_write fr f) as [[f0 fr0] e0] eqn:Hs.
    injection H as <- <- ->. revert Hs. unfold WindowUpdateFrame_write.
    intros Hs.
    eapply finish_write_ok in Hs as [Hs ->]; [|auto 10 with sink].
    eexists. split; [exact Hm|]. split; [exact Hs|].
    split; reflexivity.
Qed.
End LengthField.

Section LengthFieldTheorem.
Context {zlib : Zlib} {order : MapOrder}.

(** C4 (amended): when [WriteFrame] emits a control frame successfully, the
    number of bytes written after the 8-byte header is the payload size of
    the variant ([8*count + 4] for SETTINGS, 10 plus the size of the
    marshalled header block for SYN_STREAM, 4 plus that size for SYN_REPLY
    and HEADERS, 4 for PING, 8 for RST_STREAM, GOAWAY and WINDOW_UPDATE);
    and when that number is below [2^24], the 24-bit length field of the
    emitted header and the length stored in the frame's header are equal
    to it. *)
Theorem C4_length_field_is_payload_size :
  ∀ (f f' : Framer) (frame frame' : controlFrame) (emitted : list byte),
    WriteFrame f (Control frame) = (f', Control frame', None) →
    written (w f') = written (w f) ++ emitted →
    (∃ f1, marshalHeaders f (frameHeaders frame) = (f1, None)
           ∧ len emitted - 8 = payloadSize frame (len (headerBuf f1)))
    ∧ (len emitted - 8 < 2 ^ 24 →
       lengthField emitted = len emitted - 8
       ∧ ControlFrameHeader.length (frameCFHeader frame') = len emitted - 8).
Proof.
  intros f f' frame frame' emitted Hw Hout.
  cbn [WriteFrame] in Hw.
  destruct (controlFrame_write frame f) as [[f0 fr0] e0] eqn:Hc.
  injection Hw as -> -> ->.
  apply controlFrame_write_emitted in Hc
    as (f1 & payload & Hm & Hc & Hsize & Hlen).
  rewrite Hout in Hc. apply app_inv_head in Hc. subst emitted.
  rewrite len_app, len_controlFrameHeaderBytes.
  replace (8 + len payload - 8) with (len payload) by lia.
  split; [exists f1; split; [exact Hm|exact Hsize]|].
  intros Hsmall. pose proof (len_nonneg payload) as Hpos.
  assert (Hl : ControlFrameHeader.length (frameCFHeader frame')
               = len payload).
  { rewrite Hlen. unfold uint32. apply Z.mod_small. lia. }
  split; [|exact Hl].
  rewrite lengthField_header; [exact Hl|lia].
Qed.

(** On a sink that never fails, [SettingsFrame.write] emits the header, the
    count and the entries. *)
Lemma SettingsFrame_write_runs (disabled : bool) (out : list byte) hb hc src
    n hd (cfh : ControlFrameHeader.t) (l : list SettingsFlagIdValue.t) :
  let h := ControlFrameHeader.mk Version TypeSettings
             (ControlFrameHeader.Flags cfh) (uint32 (len l * 8 + 4)) in
  WriteFrame (mkFramer disabled (mkWriter out None) hb hc src n hd)
    (CSettings (SettingsFrame.mk cfh l))
  = (mkFramer disabled
       (mkWriter (out ++ controlFrameHeaderBytes h ++
                  putUint32 (uint32 (len l)) ++ flagIdValuesBytes l) None)
       hb hc src n hd,
     Control (CSettings (SettingsFrame.mk h l)), None).
Proof.
  intros h. cbn [WriteFrame controlFrame_write]. unfold SettingsFrame_write.
  cbn [SettingsFrame.CFHeader SettingsFrame.FlagIdValues w].
  fold h.
  assert (Hr : runs (writeControlFrameHeader h >>
                     binary_Write32 (uint32 (len l)) >>
                     writeFlagIdValues l)
                 (controlFrameHeaderBytes h ++ putUint32 (uint32 (len l)) ++
                  flagIdValuesBytes l)) by auto with sink.
  rewrite (Hr out). reflexivity.
Qed.
End LengthFieldTheorem.

Section LengthFieldExample.
#[local] Existing Instance storedZlib.
#[local] Existing Instance keyOrder.

(** C4 (witness): a SETTINGS frame with one entry: 12 payload bytes. *)
Lemma C4_witness :
  lengthField
    [x80; x03; x00; x04; x00; x00; x00; x0c; x00; x00; x00; x01;
     x01; x00; x00; x04; x00; x00; x00; x64]
  = 20 - 8.
Proof.
  destruct (C4_length_field_is_payload_size
              (plainFramer (mkWriter [] None) [])
              (plainFramer
                 (mkWriter
                    [x80; x03; x00; x04; x00; x00; x00; x0c; x00; x00; x00;
                     x01; x01; x00; x00; x04; x00; x00; x00; x64] None) [])
              (CSettings (SettingsFrame.mk ControlFrameHeader.zero
                            [SettingsFlagIdValue.mk 1 4 100]))
              (CSettings (SettingsFrame.mk (ControlFrameHeader.mk 3 4 0 12)
                            [SettingsFlagIdValue.mk 1 4 100]))
              [x80; x03; x00; x04; x00; x00; x00; x0c; x00; x00; x00; x01;
               x01; x00; x00; x04; x00; x00; x00; x64]
              eq_refl eq_refl) as [_ H].
  apply H. vm_compute. reflexivity.
Defined.

(** C4 (counterexample): a SETTINGS frame with [2^21] entries is emitted
    without error with 16777220 payload bytes after the header, while the
    length field of the header holds 4 (and the flags byte 1). *)
Lemma C4_counterexample :
  WriteFrame (plainFramer (mkWriter [] None) [])
    (CSettings (SettingsFrame.mk ControlFrameHeader.zero manySettings))
  = (plainFramer
       (mkWriter ([x80; x03; x00; x04; x01; x00; x00; x04] ++
                  [x00; x20; x00; x00] ++ flagIdValuesBytes manySettings)
          None) [],
     Control (CSettings
                (SettingsFrame.mk (ControlFrameHeader.mk 3 0x0004 0 16777220)
                   manySettings)),
     None)
  ∧ lengthField ([x80; x03; x00; x04; x01; x00; x00; x04] ++
                 [x00; x20; x00; x00] ++ flagIdValuesBytes manySettings) = 4
  ∧ len ([x80; x03; x00; x04; x01; x00; x00; x04] ++
         [x00; x20; x00; x00] ++ flagIdValuesBytes manySettings) - 8
    = 16777220.
Proof.
  assert (Hlen : len manySettings = 2097152) by (apply len_repeat; lia).
  generalize dependent manySettings. intros l Hlen.
  split; [|split].
  - unfold plainFramer.
    rewrite (SettingsFrame_write_runs (zlib := storedZlib)).
    cbn [app ControlFrameHeader.Flags ControlFrameHeader.zero].
    rewrite Hlen. reflexivity.
  - reflexivity.
  - rewrite !len_app, len_flagIdValuesBytes, Hlen. reflexivity.
Qed.
End LengthFieldExample.

(** ** Diagnostics and banned headers *)
Section Diagnostics.
Context {zlib : Zlib}.

(** The banned-header test comes after the parsing of the block: with
    header compression off, a diagnostic that [parseHeaderValueBlock]
    recorded is what the three frame readers get from [readHeaders], before
    they look for banned names. *)
Lemma readHeaders_diagnostic (f f' : Framer) payloadSize streamId h x :
  headerCompressionDisabled f = true →
  parseHeaderValueBlock Framer_Read streamId f = (f', inl (h, Some x)) →
  readHeaders payloadSize streamId f = (f', inr (SpdyError x)).
Proof.
  intros Hd Hp. unfold readHeaders. rewrite Hd, Hp. reflexivity.
Qed.
End Diagnostics.

Section DiagnosticsExample.
#[local] Existing Instance storedZlib.

(** An unlowercased banned name: the diagnostic is what [ReadFrame]
    returns. *)
Lemma uppercase_banned_header_reported :
  ReadFrame
    (plainFramer (mkWriter [] None)
       ([x80; x03; x00; x02; x00; x00; x00; x1f; x00; x00; x00; x01] ++
        uppercaseConnectionBlock))
  = (plainFramer (mkWriter [] None) [],
     inr (SpdyError (mkError UnlowercasedHeaderName 1))).
Proof. vm_compute. reflexivity. Qed.

(** A duplicate of a name that is its own canonical form is detected. *)
Lemma duplicate_status_reported :
  parseHeaderValueBlock bytes_Read 1 duplicateStatusBlock
  = ([], inl ({[ ":status"%string := ["a"; "b"]%string ]},
             Some (mkError DuplicateHeaders 1))).
Proof. vm_compute. reflexivity. Qed.

(** C8 (negative): a SYN_REPLY frame whose header block holds the banned
    name [connection] twice.  [http.Header.Add] stores the values under the
    canonical key [Connection], the duplicate test [h[name] != nil] looks
    [connection] up and finds nothing: the block is parsed without
    diagnostic, and [ReadFrame] rejects the frame with
    [InvalidHeaderPresent] only. *)
Theorem C8_duplicate_banned_header_not_reported :
  parseHeaderValueBlock bytes_Read 1 duplicateConnectionBlock
  = ([], inl ({[ "Connection"%string := ["a"; "b"]%string ]}, None))
  ∧ ReadFrame (plainFramer (mkWriter [] None) duplicateConnectionWire)
    = (plainFramer (mkWriter [] None) [],
       inr (SpdyError (mkError InvalidHeaderPresent 1))).
Proof. split; vm_compute; reflexivity. Qed.
End DiagnosticsExample.

(** ** Header names and values *)

Lemma ascii_cases (P : ascii → Prop) :
  (∀ b0 b1 b2 b3 b4 b5 b6 b7, P (Ascii b0 b1 b2 b3 b4 b5 b6 b7)) → ∀ c, P c.
Proof. intros H [b0 b1 b2 b3 b4 b5 b6 b7]. apply H. Qed.

Lemma toLowerByte_toUpperByte (c : ascii) :
  toLowerByte (toUpperByte c) = toLowerByte c.
Proof.
  revert c. apply ascii_cases.
  intros [] [] [] [] [] [] [] []; vm_compute; reflexivity.
Qed.

Lemma toLowerByte_idemp (c : ascii) :
  toLowerByte (toLowerByte c) = toLowerByte c.
Proof.
  revert c. apply ascii_cases.
  intros [] [] [] [] [] [] [] []; vm_compute; reflexivity.
Qed.

Lemma ToLower_canonicalize (upper : bool) (a : string) :
  ToLower (canonicalize upper a) = ToLower a.
Proof.
  revert upper. induction a as [|c a IH]; intros upper; [reflexivity|].
  cbn [canonicalize ToLower]. rewrite IH. f_equal.
  destruct upper; [apply toLowerByte_toUpperByte|apply toLowerByte_idemp].
Qed.

Lemma ToLower_canonicalMIMEHeaderKey (a : string) :
  ToLower (canonicalMIMEHeaderKey a) = ToLower a.
Proof.
  unfold canonicalMIMEHeaderKey. destruct (allValid a); [|reflexivity].
  apply ToLower_canonicalize.
Qed.

Lemma canonicalScan_cases (upper : bool) (rest s : string) :
  canonicalScan upper rest s = s
  ∨ canonicalScan upper rest s = canonicalMIMEHeaderKey s.
Proof.
  revert upper. induction rest as [|c rest IH]; intros upper;
    cbn [canonicalScan]; [now left|].
  destruct (negb (validHeaderFieldByte c)); [now left|].
  destruct (upper && isLower c); [now right|].
  destruct (negb upper && isUpper c); [now right|].
  apply IH.
Qed.

Lemma ToLower_CanonicalMIMEHeaderKey (s : string) :
  ToLower (CanonicalMIMEHeaderKey s) = ToLower s.
Proof.
  unfold CanonicalMIMEHeaderKey.
  destruct (canonicalScan_cases true s s) as [-> | ->]; [reflexivity|].
  apply ToLower_canonicalMIMEHeaderKey.
Qed.

Lemma ToLower_lowercase (s : string) :
  isLowercaseASCII s = true → ToLower s = s.
Proof.
  induction s as [|c s IH]; [reflexivity|]. cbn [isLowercaseASCII ToLower].
  intros H. apply andb_prop in H as [H Hs]. apply andb_prop in H as [_ Hc].
  rewrite IH by exact Hs. f_equal. unfold toLowerByte.
  now destruct (isUpper c).
Qed.

(** On lowercase names the canonical form determines the name. *)
Lemma CanonicalMIMEHeaderKey_lowercase_inj (a b : string) :
  isLowercaseASCII a = true → isLowercaseASCII b = true →
  CanonicalMIMEHeaderKey a = CanonicalMIMEHeaderKey b → a = b.
Proof.
  intros Ha Hb H. apply (f_equal ToLower) in H.
  rewrite !ToLower_CanonicalMIMEHeaderKey, !ToLower_lowercase in H; auto.
Qed.

Lemma CanonicalMIMEHeaderKey_lowercase_eq (a b : string) :
  isLowercaseASCII a = true → isLowercaseASCII b = true →
  CanonicalMIMEHeaderKey a = b → a = b.
Proof.
  intros Ha Hb H. apply (f_equal ToLower) in H.
  rewrite ToLower_CanonicalMIMEHeaderKey, !ToLower_lowercase in H; auto.
Qed.

Lemma Split_without_separator (v : string) (sep : ascii) :
  contains sep v = false → Split v sep = [v].
Proof.
  induction v as [|c v IH]; [reflexivity|]. cbn [contains Split].
  intros H. apply orb_false_elim in H as [Hc Hv].
  rewrite Hc, IH by exact Hv. reflexivity.
Qed.

Lemma append_cons (c : ascii) (v s : string) :
  (String c v +:+ s = String c (v +:+ s))%string.
Proof. reflexivity. Qed.

Lemma Split_append (v s : string) (sep : ascii) :
  contains sep v = false →
  Split (v +:+ String sep s) sep = v :: Split s sep.
Proof.
  induction v as [|c v IH].
  - intros _. change ("" +:+ String sep s)%string with (String sep s).
    cbn [Split]. now rewrite Ascii.eqb_refl.
  - cbn [contains]. intros H. apply orb_false_elim in H as [Hc Hv].
    rewrite append_cons. cbn [Split]. rewrite Hc, IH by exact Hv.
    reflexivity.
Qed.

Lemma Split_Join (values : list string) (sep : ascii) :
  values ≠ [] → Forall (λ v, contains sep v = false) values →
  Split (Join values sep) sep = values.
Proof.
  induction values as [|v values IH]; [congruence|]. intros _ Hv.
  apply Forall_cons in Hv as [Hv Hvs].
  destruct values as [|v' values].
  - cbn [Join]. now apply Split_without_separator.
  - change (Join (v :: v' :: values) sep)
      with (v +:+ String sep (Join (v' :: values) sep))%string.
    rewrite Split_append by exact Hv. f_equal. apply IH; [congruence|exact Hvs].
Qed.

(** ** The header block in a buffer *)

Lemma uint32_small (z : Z) : 0 ≤ z < 2 ^ 32 → uint32 z = z.
Proof. intros H. unfold uint32. now apply Z.mod_small. Qed.

Lemma slen_nonneg (s : string) : 0 ≤ slen s.
Proof. unfold slen. lia. Qed.

Lemma headerEntriesBytes_cons name values entries :
  headerEntriesBytes ((name, values) :: entries)
  = putUint32 (uint32 (slen name)) ++
    list_byte_of_string (ToLower name) ++
    putUint32 (uint32 (slen (Join values headerValueSeparator))) ++
    list_byte_of_string (Join values headerValueSeparator) ++
    headerEntriesBytes entries.
Proof.
  unfold headerEntriesBytes. cbn [flat_map fst snd].
  now rewrite <- !app_assoc.
Qed.

Lemma writeHeaderEntries_buffer entries (b : list byte) (n : Z) :
  ∃ n', writeHeaderEntries buffer_Write entries b n
        = (b ++ headerEntriesBytes entries, n', None).
Proof.
  revert b n. induction entries as [|[name values] entries IH]; intros b n.
  - exists n. cbn. now rewrite app_nil_r.
  - cbn [writeHeaderEntries]. unfold buffer_Write at 1 2 3 4.
    destruct (IH ((((b ++ putUint32 (uint32 (slen name))) ++
                   list_byte_of_string (ToLower name)) ++
                  putUint32 (uint32 (slen (Join values headerValueSeparator))))
                 ++ list_byte_of_string (Join values headerValueSeparator))
                (n + 2 + slen (ToLower name) + 2
                 + slen (Join values headerValueSeparator))) as [n' ->].
    exists n'. rewrite headerEntriesBytes_cons, <- !app_assoc. reflexivity.
Qed.

Section HeaderBlock.
Context {order : MapOrder}.

Lemma serializedHeaders_eq (h : Header) :
  serializedHeaders h
  = putUint32 (uint32 (len (range h))) ++ headerEntriesBytes (range h).
Proof.
  unfold serializedHeaders, writeHeaderValueBlock. unfold buffer_Write at 1.
  destruct (writeHeaderEntries_buffer (range h)
              ([] ++ putUint32 (uint32 (len (range h)))) (0 + 2)) as [n' ->].
  reflexivity.
Qed.
End HeaderBlock.

(** ** Parsing what was serialized *)

Lemma binary_Read32_bytes (v : Z) (rest : list byte) :
  binary_Read32 bytes_Read (putUint32 v ++ rest) = (rest, inl (v mod 2 ^ 32)).
Proof.
  unfold binary_Read32, io_ReadFull. cbn [Z.eqb].
  rewrite rbind_unfold, (bytes_Read_app 4) by reflexivity.
  unfold rret. now rewrite getUint32_putUint32.
Qed.

Lemma io_ReadFull_bytes (p rest : list byte) (n : Z) :
  len p = n → io_ReadFull bytes_Read n (p ++ rest) = (rest, inl p).
Proof.
  intros Hn. unfold io_ReadFull. destruct (Z.eqb_spec n 0) as [->|Hnz].
  - destruct p; [reflexivity|].
    rewrite len_cons in Hn. pose proof (len_nonneg p). lia.
  - now apply bytes_Read_app.
Qed.

Lemma fold_Header_Add (h : Header) (name : string) (values : list string) :
  values ≠ [] →
  fold_left (λ h v, Header_Add h name v) values h
  = <[CanonicalMIMEHeaderKey name :=
        default [] (h !! CanonicalMIMEHeaderKey name) ++ values]> h.
Proof.
  revert h. induction values as [|v values IH]; [congruence|].
  intros h _. cbn [fold_left]. destruct values as [|v' values].
  - reflexivity.
  - rewrite IH by congruence. unfold Header_Add at 1 2.
    rewrite lookup_insert_eq. cbn [default].
    rewrite insert_insert_eq. unfold id. rewrite <- app_assoc. reflexivity.
Qed.

Lemma Header_index_nil (h : Header) (name : string) :
  h !! name = None → Header_index_non_nil h name = false.
Proof. intros H. unfold Header_index_non_nil. now rewrite H. Qed.

Lemma parseHeaderEntries_serialized (streamId : Z)
    (entries : list (string * list string)) :
  ∀ (h : Header) (e : option Error) (rest : list byte),
    Forall (λ entry, roundTripEntry entry.1 entry.2) entries →
    NoDup entries.*1 →
    (∀ k, is_Some (h !! k) →
          ∃ b, isLowercaseASCII b = true ∧ k = CanonicalMIMEHeaderKey b
               ∧ b ∉ entries.*1) →
    parseHeaderEntries bytes_Read streamId (length entries) h e
      (headerEntriesBytes entries ++ rest)
    = (rest,
       inl (fold_left
              (λ m entry, <[CanonicalMIMEHeaderKey entry.1 := entry.2]> m)
              entries h, e)).
Proof.
  induction entries as [|[name values] entries IH];
    intros h e rest Hgood Hnd Hkeys; [reflexivity|].
  apply Forall_cons in Hgood as [(Hlow & Hne & Hnul & Hn & Hv) Hgood].
  cbn [fst snd] in *. rewrite fmap_cons in Hnd. cbn [fst] in Hnd.
  apply NoDup_cons in Hnd as [Hname Hnd].
  assert (Hfresh : h !! name = None).
  { destruct (h !! name) as [vs|] eqn:E; [|reflexivity].
    destruct (Hkeys name) as (b & Hb & Hk & Hnb); [now rewrite E|].
    symmetry in Hk. apply CanonicalMIMEHeaderKey_lowercase_eq in Hk; auto.
    subst b. exfalso. apply Hnb. rewrite fmap_cons. left. }
  assert (Hcfresh : h !! CanonicalMIMEHeaderKey name = None).
  { destruct (h !! CanonicalMIMEHeaderKey name) as [vs|] eqn:E;
      [|reflexivity].
    destruct (Hkeys (CanonicalMIMEHeaderKey name)) as (b & Hb & Hk & Hnb);
      [now rewrite E|].
    apply CanonicalMIMEHeaderKey_lowercase_inj in Hk; auto.
    subst b. exfalso. apply Hnb. rewrite fmap_cons. left. }
  cbn [length parseHeaderEntries]. rewrite headerEntriesBytes_cons.
  rewrite <- !app_assoc.
  rewrite (rbind_inl _ _ _ _ _ (binary_Read32_bytes _ _)).
  rewrite ToLower_lowercase by exact Hlow.
  pose proof (slen_nonneg name).
  pose proof (slen_nonneg (Join values headerValueSeparator)).
  rewrite !uint32_small by lia.
  change (slen name mod 2 ^ 32) with (uint32 (slen name)).
  rewrite uint32_small by lia.
  rewrite (rbind_inl _ _ _ _ _
             (io_ReadFull_bytes _ _ _ (len_list_byte_of_string name))).
  rewrite string_of_list_byte_of_string, ToLower_lowercase by exact Hlow.
  rewrite String.eqb_refl. cbn [negb].
  rewrite Header_index_nil by exact Hfresh.
  rewrite (rbind_inl _ _ _ _ _ (binary_Read32_bytes _ _)).
  change (slen (Join values headerValueSeparator) mod 2 ^ 32)
    with (uint32 (slen (Join values headerValueSeparator))).
  rewrite uint32_small by lia.
  rewrite (rbind_inl _ _ _ _ _
             (io_ReadFull_bytes _ _ _ (len_list_byte_of_string _))).
  rewrite string_of_list_byte_of_string, Split_Join by assumption.
  rewrite fold_Header_Add, Hcfresh by exact Hne. cbn [default app].
  rewrite IH; [reflexivity|exact Hgood|exact Hnd|].
  intros k Hk. destruct (decide (k = CanonicalMIMEHeaderKey name)) as [->|Hne'].
  - exists name. auto.
  - rewrite lookup_insert_ne in Hk by congruence.
    destruct (Hkeys k Hk) as (b & Hb & Hkb & Hnb). exists b.
    split; [exact Hb|]. split; [exact Hkb|].
    intros Hin. apply Hnb. rewrite fmap_cons. now right.
Qed.

Lemma fold_left_insert_list_to_map (l : list (string * list string)) :
  NoDup l.*1 →
  fold_left (λ (m : Header) entry, <[entry.1 := entry.2]> m) l ∅
  = list_to_map l.
Proof.
  induction l as [|x l IH] using rev_ind; [reflexivity|]. intros Hnd.
  rewrite fold_left_app. cbn [fold_left].
  rewrite fmap_app in Hnd.
  rewrite IH by (apply NoDup_app in Hnd as [H _]; exact H).
  destruct x as [k v]. cbn [fst snd].
  rewrite <- list_to_map_cons.
  apply list_to_map_proper.
  - rewrite fmap_cons. cbn [fst]. apply NoDup_cons.
    apply NoDup_app in Hnd as (H1 & H2 & _). split; [|exact H1].
    intros Hin. apply (H2 k Hin). cbn. left.
  - apply Permutation_cons_append.
Qed.

Lemma fold_left_canonical (l : list (string * list string)) (h : Header) :
  fold_left (λ m entry, <[CanonicalMIMEHeaderKey entry.1 := entry.2]> m) l h
  = fold_left (λ (m : Header) entry, <[entry.1 := entry.2]> m)
      ((λ entry, (CanonicalMIMEHeaderKey entry.1, entry.2)) <$> l) h.
Proof.
  revert h. induction l as [|x l IH]; intros h; [reflexivity|].
  cbn [fold_left fmap list_fmap]. apply IH.
Qed.

Section HeaderBlockRoundTrip.
Context {order : MapOrder}.

Lemma canonical_keys_NoDup (l : list (string * list string)) :
  Forall (λ entry, roundTripEntry entry.1 entry.2) l →
  NoDup l.*1 →
  NoDup ((λ entry, (CanonicalMIMEHeaderKey entry.1, entry.2)) <$> l).*1.
Proof.
  intros Hgood Hnd. rewrite <- list_fmap_compose.
  change (fst ∘ (λ entry : string * list string,
                   (CanonicalMIMEHeaderKey entry.1, entry.2)))
    with (CanonicalMIMEHeaderKey ∘ (fst : string * list string → string)).
  rewrite list_fmap_compose.
  apply NoDup_fmap_2_strong; [|exact Hnd].
  intros a b Ha Hb Hab.
  apply list_elem_of_fmap in Ha as ([a' va] & -> & Ha).
  apply list_elem_of_fmap in Hb as ([b' vb] & -> & Hb).
  rewrite Forall_forall in Hgood.
  destruct (Hgood _ Ha) as (Hla & _), (Hgood _ Hb) as (Hlb & _).
  now apply CanonicalMIMEHeaderKey_lowercase_inj.
Qed.

(** C5 (amended): for a header map whose names are lowercase ASCII, whose
    value lists are non-empty and free of NUL bytes and whose sizes fit the
    32-bit length fields, the serializer writes the entry count and, per
    entry, the name length, the name, the value length and the values
    joined by NUL; parsing these bytes gives, without diagnostic, the map
    in which each name is replaced by its canonical MIME form, the key
    under which [http.Header.Add] stores it, with the same values in the
    same order; this is the written map when every name is its own
    canonical form. *)
Theorem C5_header_block_round_trip :
  ∀ (h : Header) (streamId : Z) (rest : list byte),
    (∀ name values, h !! name = Some values → roundTripEntry name values) →
    Z.of_nat (size h) < 2 ^ 32 →
    serializedHeaders h
    = putUint32 (uint32 (len (range h))) ++ headerEntriesBytes (range h)
    ∧ parseHeaderValueBlock bytes_Read streamId (serializedHeaders h ++ rest)
      = (rest, inl (canonicalHeader h, None))
    ∧ ((∀ name, is_Some (h !! name) → CanonicalMIMEHeaderKey name = name) →
       canonicalHeader h = h).
Proof.
  intros h streamId rest Hgood Hsize.
  split; [apply serializedHeaders_eq|]. split.
  - assert (Hperm := range_perm h).
    assert (Hall : Forall (λ entry, roundTripEntry entry.1 entry.2) (range h)).
    { rewrite Forall_forall. intros [name values] Hin.
      rewrite Hperm in Hin. apply elem_of_map_to_list in Hin.
      now apply Hgood. }
    assert (Hnd : NoDup (range h).*1).
    { rewrite Hperm. apply NoDup_fst_map_to_list. }
    assert (Hlen : len (range h) = Z.of_nat (size h)).
    { unfold len. rewrite Hperm, length_map_to_list. reflexivity. }
    rewrite serializedHeaders_eq, <- app_assoc.
    unfold parseHeaderValueBlock.
    rewrite (rbind_inl _ _ _ _ _ (binary_Read32_bytes _ _)).
    rewrite Hlen, uint32_small by lia.
    change (Z.of_nat (size h) mod 2 ^ 32) with (uint32 (Z.of_nat (size h))).
    rewrite uint32_small, <- Hlen by lia. unfold len. rewrite Nat2Z.id.
    rewrite parseHeaderEntries_serialized; [|exact Hall|exact Hnd|].
    2:{ intros k Hk. rewrite lookup_empty in Hk. now destruct Hk. }
    rewrite fold_left_canonical, fold_left_insert_list_to_map
      by now apply canonical_keys_NoDup.
    do 3 f_equal. unfold canonicalHeader.
    apply list_to_map_proper; [now apply canonical_keys_NoDup|].
    now apply fmap_Permutation.
  - intros Hcanon. unfold canonicalHeader.
    rewrite <- (list_to_map_to_list h) at 2. f_equal.
    rewrite <- (list_fmap_id (map_to_list h)) at 2.
    apply list_fmap_ext. intros i [name values] Hin.
    apply list_elem_of_lookup_2, elem_of_map_to_list in Hin.
    cbn [fst snd]. rewrite Hcanon by (now rewrite Hin). reflexivity.
Qed.
End HeaderBlockRoundTrip.

Section HeaderBlockExample.
#[local] Existing Instance keyOrder.

(** C5 (witness): the map [{":method": ["GET"]}], whose name is its own
    canonical form, comes back as it was written. *)
Lemma C5_witness :
  parseHeaderValueBlock bytes_Read 1
    (serializedHeaders {[ ":method"%string := ["GET"%string] ]} ++ [])
  = ([], inl ({[ ":method"%string := ["GET"%string] ]}, None)).
Proof.
  destruct (C5_header_block_round_trip
              {[ ":method"%string := ["GET"%string] ]} 1 [])
    as (_ & Hparse & Hsame).
  - intros name values H. apply lookup_singleton_Some in H as [<- <-].
    repeat split; try reflexivity; [discriminate|].
    repeat constructor.
  - reflexivity.
  - rewrite Hparse, Hsame; [reflexivity|].
    intros name [values H]. apply lookup_singleton_Some in H as [<- _].
    reflexivity.
Defined.

(** C5 (counterexample): the map [{"host": ["x"]}], with a lowercase ASCII
    name and a value without NUL, comes back as [{"Host": ["x"]}]. *)
Lemma C5_counterexample :
  isLowercaseASCII "host" = true
  ∧ contains headerValueSeparator "x" = false
  ∧ parseHeaderValueBlock bytes_Read 1
      (serializedHeaders {[ "host"%string := ["x"%string] ]})
    = ([], inl ({[ "Host"%string := ["x"%string] ]}, None))
  ∧ ({[ "Host"%string := ["x"%string] ]} : Header)
    ≠ {[ "host"%string := ["x"%string] ]}.
Proof.
  split; [reflexivity|]. split; [reflexivity|].
  split; [vm_compute; reflexivity|].
  intros H. apply (f_equal (λ m : Header, m !! "host"%string)) in H.
  vm_compute in H. discriminate H.
Qed.
End HeaderBlockExample.

(** * Further properties of the codec *)

(** ** Words that pack a flags byte and a 24-bit quantity *)

Lemma packed_word (hi lo : Z) :
  0 ≤ hi < 2 ^ 8 → 0 ≤ lo < 2 ^ 24 →
  Z.lor (uint32 (Z.shiftl hi 24)) lo = hi * 2 ^ 24 + lo.
Proof.
  intros Hhi Hlo. rewrite flags_word_low_bits, Z.mod_small by lia.
  replace (2 ^ 24 * hi) with (Z.shiftl hi 24)
    by (rewrite Z.shiftl_mul_pow2; lia).
  apply lor_shiftl_add; lia.
Qed.

Lemma packed_word_high (hi lo : Z) :
  0 ≤ hi < 2 ^ 8 → 0 ≤ lo < 2 ^ 24 →
  Z.shiftr (hi * 2 ^ 24 + lo) 24 = hi.
Proof.
  intros Hhi Hlo. rewrite Z.shiftr_div_pow2 by lia.
  rewrite Z.div_add_l, Z.div_small by lia. lia.
Qed.

Lemma packed_word_flags (hi lo : Z) :
  0 ≤ hi < 2 ^ 8 → 0 ≤ lo < 2 ^ 24 →
  Z.shiftr (Z.land (hi * 2 ^ 24 + lo) 0xff000000) 24 = hi.
Proof.
  intros Hhi Hlo. rewrite Z.shiftr_land, packed_word_high by lia.
  change (Z.shiftr 0xff000000 24) with (Z.ones 8).
  rewrite Z.land_ones by lia. apply Z.mod_small. lia.
Qed.

Lemma packed_word_low (hi lo : Z) :
  0 ≤ hi < 2 ^ 8 → 0 ≤ lo < 2 ^ 24 →
  Z.land (hi * 2 ^ 24 + lo) 0xffffff = lo.
Proof.
  intros Hhi Hlo. change 0xffffff with (Z.ones 24).
  rewrite Z.land_ones by lia.
  rewrite Z.add_comm, Z.mod_add by lia. apply Z.mod_small. lia.
Qed.

Lemma byte_of_Z_mod (a b : Z) : a mod 256 = b mod 256 → byte_of_Z a = byte_of_Z b.
Proof. intros H. unfold byte_of_Z. now rewrite H. Qed.

Lemma putUint16_pair (a t : Z) :
  0 ≤ t < 2 ^ 16 →
  putUint16 a ++ putUint16 t = putUint32 (a * 2 ^ 16 + t).
Proof.
  intros Ht. unfold putUint16, putUint32. cbn [app].
  rewrite !Z.shiftr_div_pow2 by lia.
  assert (H16 : (a * 2 ^ 16 + t) / 2 ^ 16 = a)
    by (rewrite Z.div_add_l, Z.div_small by lia; lia).
  assert (H24 : (a * 2 ^ 16 + t) / 2 ^ 24 = a / 2 ^ 8).
  { change (2 ^ 24) with (2 ^ 16 * 2 ^ 8).
    rewrite <- Z.div_div, H16 by lia. reflexivity. }
  assert (H8 : (a * 2 ^ 16 + t) / 2 ^ 8 = a * 2 ^ 8 + t / 2 ^ 8).
  { change (2 ^ 16) with (2 ^ 8 * 2 ^ 8).
    rewrite Z.mul_assoc, Z.div_add_l by lia. reflexivity. }
  rewrite H16, H24, H8. do 2 f_equal. f_equal; [|f_equal].
  - apply byte_of_Z_mod. change (2 ^ 8) with 256.
    rewrite Z.add_comm, Z.mod_add by lia. reflexivity.
  - apply byte_of_Z_mod. change (2 ^ 16) with (256 * 256).
    rewrite Z.mul_assoc, Z.add_comm, Z.mod_add by lia. reflexivity.
Qed.

Lemma land_top_bit_small (v : Z) :
  0 ≤ v < 2 ^ 31 → Z.land v 0x80000000 = 0.
Proof.
  intros Hv. apply Z.bits_inj'. intros n Hn.
  rewrite Z.land_spec, Z.bits_0. change 0x80000000 with (2 ^ 31).
  rewrite Z.pow2_bits_eqb by lia.
  destruct (Z.eqb_spec 31 n) as [<-|_]; [|apply andb_false_r].
  rewrite andb_true_r. apply Z.testbit_false; [lia|].
  rewrite Z.div_small by lia. reflexivity.
Qed.

Lemma land_top_bit_large (v : Z) :
  2 ^ 31 ≤ v < 2 ^ 32 → Z.land v 0x80000000 ≠ 0.
Proof.
  intros Hv H. apply (f_equal (λ z, Z.testbit z 31)) in H.
  rewrite Z.land_spec, Z.bits_0 in H. change 0x80000000 with (2 ^ 31) in H.
  rewrite Z.pow2_bits_eqb, andb_true_r in H by lia.
  apply Z.testbit_false in H; [|lia].
  assert (Hq : v / 2 ^ 31 = 1); [|rewrite Hq in H; discriminate H].
  symmetry. apply Z.div_unique with (v - 2 ^ 31); lia.
Qed.

Lemma land_low31_small (v : Z) :
  0 ≤ v < 2 ^ 31 → Z.land v 0x7fffffff = v.
Proof.
  intros Hv. change 0x7fffffff with (Z.ones 31).
  rewrite Z.land_ones by lia. apply Z.mod_small. lia.
Qed.



Section WireWords.
Context {zlib : Zlib}.

Lemma binary_Read32_wire (f : Framer) (v : Z) (rest : list byte) :
  r f = putUint32 v ++ rest →
  binary_Read32 Framer_Read f = (set_r f rest, inl (uint32 v)).
Proof.
  intros H. unfold putUint32 in H. cbn [app] in H.
  rewrite (binary_Read32_Framer f _ _ _ _ _ H).
  change (getUint32 _) with (getUint32 (putUint32 v)).
  now rewrite getUint32_putUint32.
Qed.

End WireWords.

Ltac read_word :=
  rewrite ?rbind_assoc;
  erewrite (rbind_inl (binary_Read32 Framer_Read))
    by (apply binary_Read32_wire; cbn [r set_r];
        first [eassumption|reflexivity]).

Section WireRead.
Context {zlib : Zlib} {order : MapOrder}.

(** [ReadFrame] decodes the header that [writeControlFrameHeader] wrote and
    hands it to the reader of the frame type. *)
Lemma ReadFrame_control (g : Framer) (h : ControlFrameHeader.t)
    (payload : list byte) :
  r g = controlFrameHeaderBytes h ++ payload →
  0 ≤ ControlFrameHeader.version h < 2 ^ 15 →
  0 ≤ ControlFrameHeader.frameType h < 2 ^ 16 →
  0 ≤ ControlFrameHeader.Flags h < 2 ^ 8 →
  0 ≤ ControlFrameHeader.length h < 2 ^ 24 →
  ReadFrame g
  = match newControlFrame (ControlFrameHeader.frameType h) with
    | inr err => rfail err
    | inl cframe =>
        let* cframe := controlFrame_read cframe h in rret (Control cframe)
    end (set_r g payload).
Proof.
  destruct h as [ver ty fl ln].
  cbn [ControlFrameHeader.version ControlFrameHeader.frameType
         ControlFrameHeader.Flags ControlFrameHeader.length].
  intros Hr Hver Hty Hfl Hln. unfold controlFrameHeaderBytes in Hr.
  cbn [ControlFrameHeader.version ControlFrameHeader.frameType
         ControlFrameHeader.Flags ControlFrameHeader.length] in Hr.
  rewrite <- !app_assoc, (app_assoc (putUint16 _)) in Hr.
  rewrite putUint16_pair in Hr by lia.
  change 0x8000 with (Z.shiftl 1 15) in Hr.
  rewrite lor_shiftl_add, packed_word in Hr by lia.
  unfold ReadFrame.
  erewrite (rbind_inl (binary_Read32 Framer_Read))
    by (apply binary_Read32_wire; exact Hr).
  set (v := (1 * 2 ^ 15 + ver) * 2 ^ 16 + ty).
  assert (Hv : uint32 v = v) by (apply uint32_small; unfold v; lia).
  rewrite Hv.
  assert (Hbit : (Z.land v 0x80000000 =? 0) = false).
  { apply Z.eqb_neq, land_top_bit_large. unfold v. lia. }
  rewrite Hbit. cbn [negb].
  assert (Hty' : Z.land v 0xffff = ty).
  { change 0xffff with (Z.ones 16). rewrite Z.land_ones by lia.
    unfold v. rewrite Z.add_comm, Z.mod_add by lia. apply Z.mod_small. lia. }
  assert (Hver' : uint16 (Z.land 0x7fff (Z.shiftr v 16)) = ver).
  { rewrite Z.land_comm. change 0x7fff with (Z.ones 15).
    rewrite Z.land_ones, Z.shiftr_div_pow2 by lia.
    unfold v. rewrite Z.div_add_l, (Z.div_small ty) by lia.
    rewrite Z.add_0_r, Z.add_comm, Z.mod_add by lia.
    unfold uint16. rewrite (Z.mod_small ver) by lia.
    apply Z.mod_small. lia. }
  rewrite Hty', Hver'. unfold parseControlFrame.
  erewrite (rbind_inl (binary_Read32 Framer_Read))
    by (apply binary_Read32_wire; reflexivity).
  rewrite uint32_small, packed_word_flags, packed_word_low by lia.
  reflexivity.
Qed.


Lemma finish_write_runs {F} (f : Framer) (frame : F) (reset : bool)
    (a : sink_action) (bs out : list byte) :
  w f = mkWriter out None → runs a bs →
  finish_write f frame reset (a (w f))
  = (let f := set_w f (mkWriter (out ++ bs) None) in
     if reset then set_headerBuf f [] else f, frame, None).
Proof. intros Hw Ha. rewrite Hw, Ha. reflexivity. Qed.

Lemma WriteFrame_RstStream (f : Framer) (out : list byte)
    (cfh : ControlFrameHeader.t) (sid st : Z) :
  w f = mkWriter out None → sid ≠ 0 → st ≠ 0 →
  let h := ControlFrameHeader.mk Version TypeRstStream 0 8 in
  WriteFrame f (CRstStream (RstStreamFrame.mk cfh sid st))
  = (set_w f (mkWriter (out ++ controlFrameHeaderBytes h ++
                        putUint32 sid ++ putUint32 st) None),
     Control (CRstStream (RstStreamFrame.mk h sid st)), None).
Proof.
  intros Hw Hsid Hst h. cbn [WriteFrame controlFrame_write].
  unfold RstStreamFrame_write.
  cbn [RstStreamFrame.StreamId RstStreamFrame.Status RstStreamFrame.CFHeader].
  apply Z.eqb_neq in Hsid, Hst. rewrite Hsid, Hst.
  erewrite finish_write_runs; [reflexivity|exact Hw|auto with sink].
Qed.

Lemma ReadFrame_RstStream (g : Framer) (sid st : Z) (rest : list byte) :
  let h := ControlFrameHeader.mk Version TypeRstStream 0 8 in
  r g = (controlFrameHeaderBytes h ++ putUint32 sid ++ putUint32 st) ++ rest →
  0 < sid < 2 ^ 32 → 0 < st < 2 ^ 32 →
  ReadFrame g
  = (set_r g rest, inl (Control (CRstStream (RstStreamFrame.mk h sid st)))).
Proof.
  intros h Hr Hsid Hst. rewrite <- !app_assoc in Hr.
  rewrite (ReadFrame_control g h _ Hr)
    by (vm_compute; split; [discriminate|reflexivity]).
  ceval (newControlFrame (ControlFrameHeader.frameType h)).
  cbn [controlFrame_read]. unfold RstStreamFrame_read.
  read_word. read_word. rewrite !uint32_small by lia.
  assert (E1 : (st =? 0) = false) by (apply Z.eqb_neq; lia).
  assert (E2 : (sid =? 0) = false) by (apply Z.eqb_neq; lia).
  rewrite rbind_unfold, E1, E2. reflexivity.
Qed.

Lemma WriteFrame_Ping (f : Framer) (out : list byte)
    (cfh : ControlFrameHeader.t) (id : Z) :
  w f = mkWriter out None → id ≠ 0 →
  let h := ControlFrameHeader.mk Version TypePing 0 4 in
  WriteFrame f (CPing (PingFrame.mk cfh id))
  = (set_w f (mkWriter (out ++ controlFrameHeaderBytes h ++ putUint32 id)
                None),
     Control (CPing (PingFrame.mk h id)), None).
Proof.
  intros Hw Hid h. cbn [WriteFrame controlFrame_write].
  unfold PingFrame_write. cbn [PingFrame.Id PingFrame.CFHeader].
  apply Z.eqb_neq in Hid. rewrite Hid.
  erewrite finish_write_runs; [reflexivity|exact Hw|auto with sink].
Qed.

Lemma ReadFrame_Ping (g : Framer) (id : Z) (rest : list byte) :
  let h := ControlFrameHeader.mk Version TypePing 0 4 in
  r g = (controlFrameHeaderBytes h ++ putUint32 id) ++ rest →
  0 < id < 2 ^ 32 →
  ReadFrame g = (set_r g rest, inl (Control (CPing (PingFrame.mk h id)))).
Proof.
  intros h Hr Hid. rewrite <- !app_assoc in Hr.
  rewrite (ReadFrame_control g h _ Hr)
    by (vm_compute; split; [discriminate|reflexivity]).
  ceval (newControlFrame (ControlFrameHeader.frameType h)).
  cbn [controlFrame_read]. unfold PingFrame_read.
  read_word. rewrite !uint32_small by lia.
  assert (E : (id =? 0) = false) by (apply Z.eqb_neq; lia).
  rewrite rbind_unfold, E. reflexivity.
Qed.

Lemma WriteFrame_GoAway (f : Framer) (out : list byte)
    (cfh : ControlFrameHeader.t) (last st : Z) :
  w f = mkWriter out None →
  let h := ControlFrameHeader.mk Version TypeGoAway 0 8 in
  WriteFrame f (CGoAway (GoAwayFrame.mk cfh last st))
  = (set_w f (mkWriter (out ++ controlFrameHeaderBytes h ++
                        putUint32 last ++ putUint32 st) None),
     Control (CGoAway (GoAwayFrame.mk h last st)), None).
Proof.
  intros Hw h. cbn [WriteFrame controlFrame_write].
  unfold GoAwayFrame_write.
  cbn [GoAwayFrame.LastGoodStreamId GoAwayFrame.GoAwayStatus
         GoAwayFrame.CFHeader].
  erewrite finish_write_runs; [reflexivity|exact Hw|auto with sink].
Qed.

Lemma ReadFrame_GoAway (g : Framer) (last st : Z) (rest : list byte) :
  let h := ControlFrameHeader.mk Version TypeGoAway 0 8 in
  r g = (controlFrameHeaderBytes h ++ putUint32 last ++ putUint32 st) ++ rest →
  0 ≤ last < 2 ^ 32 → 0 ≤ st < 2 ^ 32 →
  ReadFrame g
  = (set_r g rest, inl (Control (CGoAway (GoAwayFrame.mk h last st)))).
Proof.
  intros h Hr Hlast Hst. rewrite <- !app_assoc in Hr.
  rewrite (ReadFrame_control g h _ Hr)
    by (vm_compute; split; [discriminate|reflexivity]).
  ceval (newControlFrame (ControlFrameHeader.frameType h)).
  cbn [controlFrame_read]. unfold GoAwayFrame_read.
  read_word. cbn [ControlFrameHeader.Flags ControlFrameHeader.length h].
  cbn [Z.eqb Pos.eqb negb]. read_word. rewrite !uint32_small by lia.
  reflexivity.
Qed.

Lemma WriteFrame_WindowUpdate (f : Framer) (out : list byte)
    (cfh : ControlFrameHeader.t) (sid delta : Z) :
  w f = mkWriter out None →
  let h := ControlFrameHeader.mk Version TypeWindowUpdate 0 8 in
  WriteFrame f (CWindowUpdate (WindowUpdateFrame.mk cfh sid delta))
  = (set_w f (mkWriter (out ++ controlFrameHeaderBytes h ++
                        putUint32 sid ++ putUint32 delta) None),
     Control (CWindowUpdate (WindowUpdateFrame.mk h sid delta)), None).
Proof.
  intros Hw h. cbn [WriteFrame controlFrame_write].
  unfold WindowUpdateFrame_write.
  cbn [WindowUpdateFrame.StreamId WindowUpdateFrame.DeltaWindowSize
         WindowUpdateFrame.CFHeader].
  erewrite finish_write_runs; [reflexivity|exact Hw|auto with sink].
Qed.

Lemma ReadFrame_WindowUpdate (g : Framer) (sid delta : Z)
    (rest : list byte) :
  let h := ControlFrameHeader.mk Version TypeWindowUpdate 0 8 in
  r g = (controlFrameHeaderBytes h ++ putUint32 sid ++ putUint32 delta)
        ++ rest →
  0 ≤ sid < 2 ^ 32 → 0 ≤ delta < 2 ^ 32 →
  ReadFrame g
  = (set_r g rest,
     inl (Control (CWindowUpdate (WindowUpdateFrame.mk h sid delta)))).
Proof.
  intros h Hr Hsid Hdelta. rewrite <- !app_assoc in Hr.
  rewrite (ReadFrame_control g h _ Hr)
    by (vm_compute; split; [discriminate|reflexivity]).
  ceval (newControlFrame (ControlFrameHeader.frameType h)).
  cbn [controlFrame_read]. unfold WindowUpdateFrame_read.
  read_word. cbn [ControlFrameHeader.Flags ControlFrameHeader.length h].
  cbn [Z.eqb Pos.eqb negb]. read_word. rewrite !uint32_small by lia.
  reflexivity.
Qed.


Lemma readFlagIdValues_wire (l : list SettingsFlagIdValue.t) :
  Forall wireFlagIdValue l →
  ∀ (g : Framer) (rest : list byte),
    r g = flagIdValuesBytes l ++ rest →
    readFlagIdValues (length l) g = (set_r g rest, inl l).
Proof.
  induction l as [|v l IH]; intros Hok g rest Hr.
  - cbn in Hr. cbn [length readFlagIdValues]. unfold rret.
    rewrite <- Hr, set_r_id. reflexivity.
  - apply Forall_cons in Hok as [(Hf & Hi & Hv) Hok].
    rewrite flagIdValuesBytes_cons, <- !app_assoc in Hr.
    rewrite packed_word in Hr by lia.
    cbn [length readFlagIdValues]. read_word. read_word.
    erewrite (rbind_inl (readFlagIdValues _))
      by (apply IH; [exact Hok|reflexivity]).
    rewrite !uint32_small, packed_word_flags, packed_word_low by lia.
    destruct v; reflexivity.
Qed.

Lemma WriteFrame_Settings (f : Framer) (out : list byte)
    (cfh : ControlFrameHeader.t) (l : list SettingsFlagIdValue.t) :
  w f = mkWriter out None →
  let h := ControlFrameHeader.mk Version TypeSettings
             (ControlFrameHeader.Flags cfh) (uint32 (len l * 8 + 4)) in
  WriteFrame f (CSettings (SettingsFrame.mk cfh l))
  = (set_w f (mkWriter (out ++ controlFrameHeaderBytes h ++
                        putUint32 (uint32 (len l)) ++ flagIdValuesBytes l)
                None),
     Control (CSettings (SettingsFrame.mk h l)), None).
Proof.
  intros Hw h. cbn [WriteFrame controlFrame_write]. unfold SettingsFrame_write.
  cbn [SettingsFrame.CFHeader SettingsFrame.FlagIdValues].
  erewrite finish_write_runs; [reflexivity|exact Hw|auto with sink].
Qed.

Lemma ReadFrame_Settings (g : Framer) (flags : Z)
    (l : list SettingsFlagIdValue.t) (rest : list byte) :
  let h := ControlFrameHeader.mk Version TypeSettings flags
             (uint32 (len l * 8 + 4)) in
  r g = (controlFrameHeaderBytes h ++ putUint32 (uint32 (len l)) ++
         flagIdValuesBytes l) ++ rest →
  0 ≤ flags < 2 ^ 8 → len l * 8 + 4 < 2 ^ 24 →
  Forall wireFlagIdValue l →
  ReadFrame g
  = (set_r g rest, inl (Control (CSettings (SettingsFrame.mk h l)))).
Proof.
  intros h Hr Hflags Hlen Hl. rewrite <- !app_assoc in Hr.
  pose proof (len_nonneg l) as Hpos.
  rewrite (ReadFrame_control g h _ Hr).
  2-5: unfold h, Version, TypeSettings;
    cbn [ControlFrameHeader.version ControlFrameHeader.frameType
           ControlFrameHeader.Flags ControlFrameHeader.length];
    rewrite ?uint32_small; lia.
  ceval (newControlFrame (ControlFrameHeader.frameType h)).
  cbn [controlFrame_read]. unfold SettingsFrame_read.
  read_word. rewrite !(uint32_small (len l)) by lia.
  unfold len at 1. rewrite Nat2Z.id, ?rbind_assoc.
  erewrite (rbind_inl (readFlagIdValues _))
    by (apply readFlagIdValues_wire; [exact Hl|reflexivity]).
  reflexivity.
Qed.

Lemma WriteFrame_Data (f : Framer) (out : list byte) (sid flags : Z)
    (data : list byte) :
  w f = mkWriter out None →
  sid ≠ 0 → Z.land sid 0x80000000 = 0 → len data < 0x0f000000 →
  WriteFrame f (Data (DataFrame.mk sid flags data))
  = (set_w f
       (mkWriter (out ++ putUint32 sid ++
                  putUint32 (Z.lor (uint32 (Z.shiftl flags 24))
                               (uint32 (len data))) ++ data) None),
     Data (DataFrame.mk sid flags data), None).
Proof.
  intros Hw Hsid Hbit Hlen. cbn [WriteFrame]. unfold writeDataFrame.
  cbn [DataFrame.StreamId DataFrame.Flags DataFrame.Data].
  apply Z.eqb_neq in Hsid. rewrite Hsid, Hbit.
  apply Z.leb_gt in Hlen. rewrite Hlen. cbn [Z.eqb negb orb].
  erewrite finish_write_runs; [reflexivity|exact Hw|auto with sink].
Qed.

Lemma ReadFrame_Data (g : Framer) (sid flags : Z) (data rest : list byte) :
  r g = (putUint32 sid ++
         putUint32 (Z.lor (uint32 (Z.shiftl flags 24)) (uint32 (len data)))
         ++ data) ++ rest →
  0 < sid < 2 ^ 31 → 0 ≤ flags < 2 ^ 8 → len data < 2 ^ 24 →
  ReadFrame g = (set_r g rest, inl (Data (DataFrame.mk sid flags data))).
Proof.
  intros Hr Hsid Hflags Hlen. rewrite <- !app_assoc in Hr.
  pose proof (len_nonneg data) as Hpos.
  rewrite (uint32_small (len data)), packed_word in Hr by lia.
  unfold ReadFrame. read_word. rewrite uint32_small by lia.
  rewrite land_top_bit_small, land_low31_small by lia.
  cbn [Z.eqb negb]. unfold parseDataFrame. read_word.
  rewrite uint32_small, packed_word_high, packed_word_low by lia.
  rewrite ?rbind_assoc.
  erewrite (rbind_inl (io_ReadFull Framer_Read _))
    by (apply io_ReadFull_Framer; [reflexivity|reflexivity]).
  assert (E : (sid =? 0) = false) by (apply Z.eqb_neq; lia).
  rewrite E, rbind_unfold. reflexivity.
Qed.

End WireRead.

(** ** Header blocks inside frames, header compression off *)
Section PlainHeaders.
Context {zlib : Zlib} {order : MapOrder}.

Lemma Framer_lift_rbind {A B} (c : reading Framer A)
    (c' : reading (list byte) A) (k : A → reading Framer B)
    (k' : A → reading (list byte) B) :
  (∀ f, c f = Framer_lift c' f) →
  (∀ a f, k a f = Framer_lift (k' a) f) →
  ∀ f, rbind c k f = Framer_lift (rbind c' k') f.
Proof.
  intros Hc Hk f. unfold rbind, Framer_lift. rewrite Hc. unfold Framer_lift.
  destruct (c' (r f)) as [src [a|e]]; [|reflexivity].
  rewrite Hk. unfold Framer_lift. cbn [r set_r].
  destruct (k' a src) as [src' res]. reflexivity.
Qed.

Lemma Framer_lift_rret {A} (a : A) (f : Framer) :
  rret a f = Framer_lift (rret a) f.
Proof. unfold Framer_lift, rret. now rewrite set_r_id. Qed.

Lemma Framer_lift_io_ReadFull (n : Z) (f : Framer) :
  io_ReadFull Framer_Read n f = Framer_lift (io_ReadFull bytes_Read n) f.
Proof.
  unfold io_ReadFull. destruct (n =? 0); [apply Framer_lift_rret|reflexivity].
Qed.

Lemma Framer_lift_binary_Read32 (f : Framer) :
  binary_Read32 Framer_Read f = Framer_lift (binary_Read32 bytes_Read) f.
Proof.
  unfold binary_Read32. apply Framer_lift_rbind.
  - apply Framer_lift_io_ReadFull.
  - intros a g. apply Framer_lift_rret.
Qed.

Lemma Framer_lift_parseHeaderEntries streamId count h e (f : Framer) :
  parseHeaderEntries Framer_Read streamId count h e f
  = Framer_lift (parseHeaderEntries bytes_Read streamId count h e) f.
Proof.
  revert h e f. induction count as [|count IH]; intros h e f;
    cbn [parseHeaderEntries]; [apply Framer_lift_rret|].
  apply Framer_lift_rbind; [apply Framer_lift_binary_Read32|].
  intros l1 f1. apply Framer_lift_rbind; [apply Framer_lift_io_ReadFull|].
  intros nameBytes f2.
  apply Framer_lift_rbind; [apply Framer_lift_binary_Read32|].
  intros l2 f3. apply Framer_lift_rbind; [apply Framer_lift_io_ReadFull|].
  intros value f4. apply IH.
Qed.

(** With header compression off, the header block is parsed from the
    source of the framer as from any byte source. *)
Lemma Framer_lift_parseHeaderValueBlock streamId (f : Framer) :
  parseHeaderValueBlock Framer_Read streamId f
  = Framer_lift (parseHeaderValueBlock bytes_Read streamId) f.
Proof.
  unfold parseHeaderValueBlock.
  apply Framer_lift_rbind; [apply Framer_lift_binary_Read32|].
  intros n g. apply Framer_lift_parseHeaderEntries.
Qed.

Lemma len_headerEntriesBytes (entries : list (string * list string)) :
  len entries ≤ len (headerEntriesBytes entries).
Proof.
  induction entries as [|[name values] entries IH]; [reflexivity|].
  rewrite headerEntriesBytes_cons, !len_app, !len_putUint32, len_cons.
  pose proof (len_nonneg (list_byte_of_string (ToLower name))).
  pose proof (len_nonneg
                (list_byte_of_string (Join values headerValueSeparator))).
  lia.
Qed.

(** Parsing the serialized form of a header map whose entries survive the
    round trip. *)
Lemma parseHeaderValueBlock_serialized (h : Header) (streamId : Z)
    (rest : list byte) :
  (∀ name values, h !! name = Some values → roundTripEntry name values) →
  len (serializedHeaders h) < 2 ^ 32 →
  parseHeaderValueBlock bytes_Read streamId (serializedHeaders h ++ rest)
  = (rest, inl (canonicalHeader h, None)).
Proof.
  intros Hgood Hsize.
  assert (Hperm := range_perm h).
  assert (Hall : Forall (λ entry, roundTripEntry entry.1 entry.2) (range h)).
  { rewrite Forall_forall. intros [name values] Hin.
    rewrite Hperm in Hin. apply elem_of_map_to_list in Hin.
    now apply Hgood. }
  assert (Hnd : NoDup (range h).*1).
  { rewrite Hperm. apply NoDup_fst_map_to_list. }
  assert (Hlen : 0 ≤ len (range h) < 2 ^ 32).
  { split; [apply len_nonneg|].
    rewrite serializedHeaders_eq, len_app, len_putUint32 in Hsize.
    pose proof (len_headerEntriesBytes (range h)). lia. }
  rewrite serializedHeaders_eq, <- app_assoc.
  unfold parseHeaderValueBlock.
  rewrite (rbind_inl _ _ _ _ _ (binary_Read32_bytes _ _)).
  rewrite uint32_small by exact Hlen.
  change (len (range h) mod 2 ^ 32) with (uint32 (len (range h))).
  rewrite uint32_small by exact Hlen. unfold len at 1. rewrite Nat2Z.id.
  rewrite parseHeaderEntries_serialized; [|exact Hall|exact Hnd|].
  2:{ intros k Hk. rewrite lookup_empty in Hk. now destruct Hk. }
  rewrite fold_left_canonical, fold_left_insert_list_to_map
    by now apply canonical_keys_NoDup.
  do 3 f_equal. unfold canonicalHeader.
  apply list_to_map_proper; [now apply canonical_keys_NoDup|].
  now apply fmap_Permutation.
Qed.

Lemma readHeaders_serialized (g : Framer) (h : Header)
    (payloadSize streamId : Z) (rest : list byte) :
  headerCompressionDisabled g = true →
  r g = serializedHeaders h ++ rest →
  (∀ name values, h !! name = Some values → roundTripEntry name values) →
  len (serializedHeaders h) < 2 ^ 32 →
  readHeaders payloadSize streamId g = (set_r g rest, inl (canonicalHeader h)).
Proof.
  intros Hd Hr Hgood Hsize. unfold readHeaders. rewrite Hd.
  rewrite Framer_lift_parseHeaderValueBlock. unfold Framer_lift.
  rewrite Hr, parseHeaderValueBlock_serialized by assumption.
  reflexivity.
Qed.

Lemma writeHeaderEntries_headerBuf entries (f : Framer) (n : Z) :
  headerCompressionDisabled f = true →
  ∃ n', writeHeaderEntries headerWriter_Write entries f n
        = (set_headerBuf f (headerBuf f ++ headerEntriesBytes entries),
           n', None).
Proof.
  intros Hd. destruct f as [d wr hb hc src N hd]. cbn in Hd. subst d.
  unfold set_headerBuf.
  cbn [headerCompressionDisabled headerBuf w headerCompressor r
         headerReader_N headerDecompressor].
  revert hb n. induction entries as [|[name values] entries IH]; intros hb n.
  - exists n. cbn. now rewrite app_nil_r.
  - cbn [writeHeaderEntries]. unfold headerWriter_Write at 1 2 3 4.
    unfold set_headerBuf.
    cbn [headerCompressionDisabled headerBuf w headerCompressor r
           headerReader_N headerDecompressor].
    destruct (IH ((((hb ++ putUint32 (uint32 (slen name))) ++
                    list_byte_of_string (ToLower name)) ++
                   putUint32
                     (uint32 (slen (Join values headerValueSeparator))))
                  ++ list_byte_of_string (Join values headerValueSeparator))
                (n + 2 + slen (ToLower name) + 2
                 + slen (Join values headerValueSeparator))) as [n' ->].
    exists n'. rewrite headerEntriesBytes_cons, <- !app_assoc. reflexivity.
Qed.

(** With header compression off, marshalling appends the serialized map to
    the scratch buffer and changes nothing else. *)
Lemma marshalHeaders_plain (f : Framer) (h : Header) :
  headerCompressionDisabled f = true →
  marshalHeaders f h
  = (set_headerBuf f (headerBuf f ++ serializedHeaders h), None).
Proof.
  intros Hd. unfold marshalHeaders, writeHeaderValueBlock.
  unfold headerWriter_Write at 1. rewrite Hd.
  destruct (writeHeaderEntries_headerBuf (range h)
              (set_headerBuf f
                 (headerBuf f ++ putUint32 (uint32 (len (range h)))))
              (0 + 2)) as [n' ->].
  { destruct f; exact Hd. }
  destruct f as [d wr hb hc src N hd]. cbn in Hd. subst d.
  unfold set_headerBuf.
  cbn [headerBuf headerCompressionDisabled w headerCompressor r
         headerReader_N headerDecompressor].
  rewrite serializedHeaders_eq, <- app_assoc. reflexivity.
Qed.


Lemma WriteFrame_SynReply (f : Framer) (out : list byte)
    (cfh : ControlFrameHeader.t) (sid : Z) (h : Header) :
  headerCompressionDisabled f = true → w f = mkWriter out None → sid ≠ 0 →
  let block := headerBuf f ++ serializedHeaders h in
  let hd := ControlFrameHeader.mk Version TypeSynReply
              (ControlFrameHeader.Flags cfh) (uint32 (len block + 4)) in
  WriteFrame f (CSynReply (SynReplyFrame.mk cfh sid h))
  = (set_headerBuf
       (set_w f (mkWriter (out ++ controlFrameHeaderBytes hd ++
                           putUint32 sid ++ block) None)) [],
     Control (CSynReply (SynReplyFrame.mk hd sid h)), None).
Proof.
  intros Hd Hw Hsid block hd. cbn [WriteFrame controlFrame_write].
  unfold writeSynReplyFrame.
  cbn [SynReplyFrame.StreamId SynReplyFrame.Headers SynReplyFrame.CFHeader].
  apply Z.eqb_neq in Hsid. rewrite Hsid, marshalHeaders_plain by exact Hd.
  erewrite finish_write_runs; [|exact Hw|auto with sink].
  destruct f; reflexivity.
Qed.

Lemma WriteFrame_Headers (f : Framer) (out : list byte)
    (cfh : ControlFrameHeader.t) (sid : Z) (h : Header) :
  headerCompressionDisabled f = true → w f = mkWriter out None → sid ≠ 0 →
  let block := headerBuf f ++ serializedHeaders h in
  let hd := ControlFrameHeader.mk Version TypeHeaders
              (ControlFrameHeader.Flags cfh) (uint32 (len block + 4)) in
  WriteFrame f (CHeaders (HeadersFrame.mk cfh sid h))
  = (set_headerBuf
       (set_w f (mkWriter (out ++ controlFrameHeaderBytes hd ++
                           putUint32 sid ++ block) None)) [],
     Control (CHeaders (HeadersFrame.mk hd sid h)), None).
Proof.
  intros Hd Hw Hsid block hd. cbn [WriteFrame controlFrame_write].
  unfold writeHeadersFrame.
  cbn [HeadersFrame.StreamId HeadersFrame.Headers HeadersFrame.CFHeader].
  apply Z.eqb_neq in Hsid. rewrite Hsid, marshalHeaders_plain by exact Hd.
  erewrite finish_write_runs; [|exact Hw|auto with sink].
  destruct f; reflexivity.
Qed.

Lemma WriteFrame_SynStream (f : Framer) (out : list byte)
    (cfh : ControlFrameHeader.t) (sid assoc pri slot : Z) (h : Header) :
  headerCompressionDisabled f = true → w f = mkWriter out None → sid ≠ 0 →
  let block := headerBuf f ++ serializedHeaders h in
  let hd := ControlFrameHeader.mk Version TypeSynStream
              (ControlFrameHeader.Flags cfh) (uint32 (len block + 10)) in
  WriteFrame f (CSynStream (SynStreamFrame.mk cfh sid assoc pri slot h))
  = (set_headerBuf
       (set_w f (mkWriter (out ++ controlFrameHeaderBytes hd ++
                           putUint32 sid ++ putUint32 assoc ++
                           [byte_of_Z (uint8 (Z.shiftl pri 5))] ++
                           [byte_of_Z slot] ++ block) None)) [],
     Control (CSynStream (SynStreamFrame.mk hd sid assoc pri slot h)), None).
Proof.
  intros Hd Hw Hsid block hd. cbn [WriteFrame controlFrame_write].
  unfold writeSynStreamFrame.
  cbn [SynStreamFrame.StreamId SynStreamFrame.Headers SynStreamFrame.CFHeader
         SynStreamFrame.AssociatedToStreamId SynStreamFrame.Priority
         SynStreamFrame.Slot].
  apply Z.eqb_neq in Hsid. rewrite Hsid, marshalHeaders_plain by exact Hd.
  erewrite finish_write_runs; [|exact Hw|auto 10 with sink].
  destruct f; reflexivity.
Qed.

Lemma ReadFrame_SynReply (g : Framer) (flags sid : Z) (h : Header)
    (rest : list byte) :
  let block := serializedHeaders h in
  let hd := ControlFrameHeader.mk Version TypeSynReply flags
              (uint32 (len block + 4)) in
  headerCompressionDisabled g = true →
  r g = (controlFrameHeaderBytes hd ++ putUint32 sid ++ block) ++ rest →
  0 ≤ flags < 2 ^ 8 → 0 < sid < 2 ^ 32 → len block + 4 < 2 ^ 24 →
  (∀ name values, h !! name = Some values → roundTripEntry name values) →
  hasInvalidHeader invalidRespHeaders (canonicalHeader h) = false →
  ReadFrame g
  = (set_r g rest,
     inl (Control (CSynReply (SynReplyFrame.mk hd sid (canonicalHeader h))))).
Proof.
  intros block hd Hd Hr Hflags Hsid Hlen Hgood Hbanned.
  rewrite <- !app_assoc in Hr. pose proof (len_nonneg block) as Hpos.
  rewrite (ReadFrame_control g hd _ Hr).
  2-5: unfold hd, Version, TypeSynReply;
    cbn [ControlFrameHeader.version ControlFrameHeader.frameType
           ControlFrameHeader.Flags ControlFrameHeader.length];
    rewrite ?uint32_small; lia.
  ceval (newControlFrame (ControlFrameHeader.frameType hd)).
  cbn [controlFrame_read]. unfold readSynReplyFrame.
  read_word. rewrite ?rbind_assoc.
  erewrite (rbind_inl (readHeaders _ _))
    by (apply readHeaders_serialized;
        [exact Hd|reflexivity|exact Hgood|fold block; lia]).
  rewrite Hbanned, uint32_small by lia.
  assert (E : (sid =? 0) = false) by (apply Z.eqb_neq; lia).
  rewrite E, rbind_unfold. reflexivity.
Qed.


Lemma ReadFrame_Headers (g : Framer) (flags sid : Z) (h : Header)
    (rest : list byte) :
  let block := serializedHeaders h in
  let hd := ControlFrameHeader.mk Version TypeHeaders flags
              (uint32 (len block + 4)) in
  headerCompressionDisabled g = true →
  r g = (controlFrameHeaderBytes hd ++ putUint32 sid ++ block) ++ rest →
  0 ≤ flags < 2 ^ 8 → 0 < sid < 2 ^ 32 → len block + 4 < 2 ^ 24 →
  (∀ name values, h !! name = Some values → roundTripEntry name values) →
  hasInvalidHeader
    (if sid mod 2 =? 0 then invalidReqHeaders else invalidRespHeaders)
    (canonicalHeader h) = false →
  ReadFrame g
  = (set_r g rest,
     inl (Control (CHeaders (HeadersFrame.mk hd sid (canonicalHeader h))))).
Proof.
  intros block hd Hd Hr Hflags Hsid Hlen Hgood Hbanned.
  rewrite <- !app_assoc in Hr. pose proof (len_nonneg block) as Hpos.
  rewrite (ReadFrame_control g hd _ Hr).
  2-5: unfold hd, Version, TypeHeaders;
    cbn [ControlFrameHeader.version ControlFrameHeader.frameType
           ControlFrameHeader.Flags ControlFrameHeader.length];
    rewrite ?uint32_small; lia.
  ceval (newControlFrame (ControlFrameHeader.frameType hd)).
  cbn [controlFrame_read]. unfold readHeadersFrame.
  read_word. rewrite ?rbind_assoc.
  erewrite (rbind_inl (readHeaders _ _))
    by (apply readHeaders_serialized;
        [exact Hd|reflexivity|exact Hgood|fold block; lia]).
  rewrite uint32_small by lia.
  assert (E : (sid =? 0) = false) by (apply Z.eqb_neq; lia).
  rewrite Hbanned, E, rbind_unfold. reflexivity.
Qed.

Lemma ReadFrame_SynStream (g : Framer) (flags sid assoc pri slot : Z)
    (h : Header) (rest : list byte) :
  let block := serializedHeaders h in
  let hd := ControlFrameHeader.mk Version TypeSynStream flags
              (uint32 (len block + 10)) in
  headerCompressionDisabled g = true →
  r g = (controlFrameHeaderBytes hd ++ putUint32 sid ++ putUint32 assoc ++
         [byte_of_Z (uint8 (Z.shiftl pri 5))] ++ [byte_of_Z slot] ++ block)
        ++ rest →
  0 ≤ flags < 2 ^ 8 → 0 < sid < 2 ^ 32 → 0 ≤ assoc < 2 ^ 32 →
  0 ≤ pri ≤ 7 → 0 ≤ slot < 2 ^ 8 → len block + 10 < 2 ^ 24 →
  (∀ name values, h !! name = Some values → roundTripEntry name values) →
  hasInvalidHeader invalidReqHeaders (canonicalHeader h) = false →
  ReadFrame g
  = (set_r g rest,
     inl (Control (CSynStream
                     (SynStreamFrame.mk hd sid assoc pri slot
                        (canonicalHeader h))))).
Proof.
  intros block hd Hd Hr Hflags Hsid Hassoc Hpri Hslot Hlen Hgood Hbanned.
  rewrite <- !app_assoc in Hr. pose proof (len_nonneg block) as Hpos.
  rewrite (ReadFrame_control g hd _ Hr).
  2-5: unfold hd, Version, TypeSynStream;
    cbn [ControlFrameHeader.version ControlFrameHeader.frameType
           ControlFrameHeader.Flags ControlFrameHeader.length];
    rewrite ?uint32_small; lia.
  ceval (newControlFrame (ControlFrameHeader.frameType hd)).
  cbn [controlFrame_read]. unfold readSynStreamFrame.
  read_word. read_word. read8. read8. rewrite ?rbind_assoc.
  erewrite (rbind_inl (readHeaders _ _))
    by (apply readHeaders_serialized;
        [exact Hd|reflexivity|exact Hgood|fold block; lia]).
  rewrite !uint32_small by lia.
  assert (E : (sid =? 0) = false) by (apply Z.eqb_neq; lia).
  rewrite Hbanned, E, rbind_unfold, priority_byte, getUint8_byte by lia.
  rewrite (Z.mod_small slot) by lia. reflexivity.
Qed.

End PlainHeaders.

(** ** Sequences of frames *)
Section FrameStream.
Context {zlib : Zlib} {order : MapOrder}.

Lemma set_headerBuf_nil (f : Framer) (x : Writer) :
  headerBuf f = [] → set_headerBuf (set_w f x) [] = set_w f x.
Proof. intros H. destruct f; cbn in *. now subst. Qed.

(** One frame: what [WriteFrame] appends to a sink that never fails is
    read back by [ReadFrame] as the frame value the writer left. *)
Lemma roundTripFrame_wire (f : Framer) (out : list byte) (frame : Frame) :
  headerCompressionDisabled f = true → headerBuf f = [] →
  w f = mkWriter out None → roundTripFrame frame →
  ∃ wire frame',
    WriteFrame f frame = (set_w f (mkWriter (out ++ wire) None), frame', None)
    ∧ ∀ (g : Framer) (rest : list byte),
        headerCompressionDisabled g = true → r g = wire ++ rest →
        ReadFrame g = (set_r g rest, inl (canonicalFrame frame')).
Proof.
  intros Hd Hb Hw Hok.
  destruct frame as [[fr|fr|fr|fr|fr|fr|fr|fr]|fr]; destruct fr;
    cbn [roundTripFrame SynStreamFrame.CFHeader SynStreamFrame.StreamId
           SynStreamFrame.AssociatedToStreamId SynStreamFrame.Priority
           SynStreamFrame.Slot SynStreamFrame.Headers
           SynReplyFrame.CFHeader SynReplyFrame.StreamId SynReplyFrame.Headers
           RstStreamFrame.StreamId RstStreamFrame.Status
           SettingsFrame.CFHeader SettingsFrame.FlagIdValues PingFrame.Id
           GoAwayFrame.LastGoodStreamId GoAwayFrame.GoAwayStatus
           HeadersFrame.CFHeader HeadersFrame.StreamId HeadersFrame.Headers
           WindowUpdateFrame.StreamId WindowUpdateFrame.DeltaWindowSize
           DataFrame.StreamId DataFrame.Flags DataFrame.Data] in Hok.
  - destruct Hok as (Hfl & Hsid & Hassoc & Hpri & Hslot & Hlen & Hgood & Hban).
    do 2 eexists. split.
    + rewrite (WriteFrame_SynStream f out) by (auto; lia).
      rewrite Hb, set_headerBuf_nil by exact Hb. cbn [app]. reflexivity.
    + intros g rest Hg Hr. cbn [canonicalFrame].
      apply ReadFrame_SynStream; auto.
  - destruct Hok as (Hfl & Hsid & Hlen & Hgood & Hban).
    do 2 eexists. split.
    + rewrite (WriteFrame_SynReply f out) by (auto; lia).
      rewrite Hb, set_headerBuf_nil by exact Hb. cbn [app]. reflexivity.
    + intros g rest Hg Hr. cbn [canonicalFrame].
      apply ReadFrame_SynReply; auto.
  - destruct Hok as (Hsid & Hst). do 2 eexists. split.
    + apply WriteFrame_RstStream; [exact Hw|lia|lia].
    + intros g rest _ Hr. now apply ReadFrame_RstStream.
  - destruct Hok as (Hfl & Hlen & Hl). do 2 eexists. split.
    + apply WriteFrame_Settings. exact Hw.
    + intros g rest _ Hr. now apply ReadFrame_Settings.
  - do 2 eexists. split.
    + apply WriteFrame_Ping; [exact Hw|lia].
    + intros g rest _ Hr. now apply ReadFrame_Ping.
  - destruct Hok as (Hlast & Hst). do 2 eexists. split.
    + apply WriteFrame_GoAway. exact Hw.
    + intros g rest _ Hr. now apply ReadFrame_GoAway.
  - destruct Hok as (Hfl & Hsid & Hlen & Hgood & Hban).
    do 2 eexists. split.
    + rewrite (WriteFrame_Headers f out) by (auto; lia).
      rewrite Hb, set_headerBuf_nil by exact Hb. cbn [app]. reflexivity.
    + intros g rest Hg Hr. cbn [canonicalFrame].
      apply ReadFrame_Headers; auto.
  - destruct Hok as (Hsid & Hdelta). do 2 eexists. split.
    + apply WriteFrame_WindowUpdate. exact Hw.
    + intros g rest _ Hr. now apply ReadFrame_WindowUpdate.
  - destruct Hok as (Hsid & Hfl & Hlen). do 2 eexists. split.
    + apply WriteFrame_Data; [exact Hw|lia|apply land_top_bit_small; lia|lia].
    + intros g rest _ Hr. now apply ReadFrame_Data.
Qed.


(** X10: frames written one after the other by a framer without header
    compression, on a sink that never fails, are read back in the same
    order by [ReadFrame], each as the writer left it (with the header names
    in canonical form), and the reader stops exactly where the written
    bytes end. *)
Theorem frames_round_trip :
  ∀ (frames : list Frame) (f : Framer) (out : list byte),
    headerCompressionDisabled f = true → headerBuf f = [] →
    w f = mkWriter out None → Forall roundTripFrame frames →
    ∃ wire frames',
      WriteFrames f frames
      = (set_w f (mkWriter (out ++ wire) None), frames', None)
      ∧ ∀ (g : Framer) (rest : list byte),
          headerCompressionDisabled g = true → r g = wire ++ rest →
          ReadFrames (length frames) g
          = (set_r g rest, inl (canonicalFrame <$> frames')).
Proof.
  induction frames as [|frame frames IH]; intros f out Hd Hb Hw Hok.
  - exists [], []. split.
    + cbn [WriteFrames]. rewrite app_nil_r, <- Hw. now destruct f.
    + intros g rest _ Hr. cbn in Hr. cbn [length ReadFrames]. unfold rret.
      rewrite <- Hr, set_r_id. reflexivity.
  - apply Forall_cons in Hok as [Hframe Hok].
    destruct (roundTripFrame_wire f out frame Hd Hb Hw Hframe)
      as (wire1 & frame' & Hwrite & Hread).
    destruct (IH (set_w f (mkWriter (out ++ wire1) None)) (out ++ wire1))
      as (wire2 & frames' & Hwrites & Hreads);
      [destruct f; exact Hd|destruct f; exact Hb|reflexivity|exact Hok|].
    exists (wire1 ++ wire2), (frame' :: frames'). split.
    + cbn [WriteFrames]. rewrite Hwrite, Hwrites, <- app_assoc. reflexivity.
    + intros g rest Hg Hr. rewrite <- app_assoc in Hr.
      cbn [length ReadFrames].
      rewrite (rbind_inl _ _ _ _ _ (Hread g _ Hg Hr)).
      erewrite (rbind_inl (ReadFrames _))
        by (apply Hreads; [destruct g; exact Hg|reflexivity]).
      reflexivity.
Qed.

End FrameStream.

(** ** What the readers of the fixed-size frames accept *)
Section FixedSizeReaders.
Context {zlib : Zlib} {order : MapOrder}.

(** X11: [ReadFrame] on a PING frame, whatever the version and the length
    field of its header: id 0 gives [ZeroStreamId] (tested first), non-zero
    flags give [InvalidControlFrame] with the id, and otherwise the frame is
    returned with the header as it was on the wire. *)
Theorem Ping_read_spec :
  ∀ (g : Framer) (h : ControlFrameHeader.t) (id : Z) (rest : list byte),
    r g = controlFrameHeaderBytes h ++ putUint32 id ++ rest →
    ControlFrameHeader.frameType h = TypePing →
    0 ≤ ControlFrameHeader.version h < 2 ^ 15 →
    0 ≤ ControlFrameHeader.Flags h < 2 ^ 8 →
    0 ≤ ControlFrameHeader.length h < 2 ^ 24 →
    0 ≤ id < 2 ^ 32 →
    ReadFrame g
    = (set_r g rest,
       if id =? 0 then inr ZeroStreamIdError
       else if ControlFrameHeader.Flags h =? 0
       then inl (Control (CPing (PingFrame.mk h id)))
       else inr (SpdyError (mkError InvalidControlFrame id))).
Proof.
  intros g h id rest Hr Hty Hver Hfl Hlen Hid.
  rewrite (ReadFrame_control g h _ Hr), Hty by (rewrite ?Hty; done).
  ceval (newControlFrame TypePing).
  cbn [controlFrame_read]. unfold PingFrame_read.
  read_word. rewrite uint32_small, rbind_unfold by lia.
  destruct (id =? 0); [reflexivity|].
  destruct (ControlFrameHeader.Flags h =? 0); reflexivity.
Qed.

(** X12: [ReadFrame] on a RST_STREAM frame, whatever the version, the flags
    and the length field of its header: status 0 gives
    [InvalidControlFrame] with the stream id (tested first, also for stream
    id 0), stream id 0 gives [ZeroStreamId], and otherwise the frame is
    returned; the reserved top bit of the stream id is kept. *)
Theorem RstStream_read_spec :
  ∀ (g : Framer) (h : ControlFrameHeader.t) (sid st : Z) (rest : list byte),
    r g = controlFrameHeaderBytes h ++ putUint32 sid ++ putUint32 st ++ rest →
    ControlFrameHeader.frameType h = TypeRstStream →
    0 ≤ ControlFrameHeader.version h < 2 ^ 15 →
    0 ≤ ControlFrameHeader.Flags h < 2 ^ 8 →
    0 ≤ ControlFrameHeader.length h < 2 ^ 24 →
    0 ≤ sid < 2 ^ 32 → 0 ≤ st < 2 ^ 32 →
    ReadFrame g
    = (set_r g rest,
       if st =? 0 then inr (SpdyError (mkError InvalidControlFrame sid))
       else if sid =? 0 then inr ZeroStreamIdError
       else inl (Control (CRstStream (RstStreamFrame.mk h sid st)))).
Proof.
  intros g h sid st rest Hr Hty Hver Hfl Hlen Hsid Hst.
  rewrite (ReadFrame_control g h _ Hr), Hty by (rewrite ?Hty; done).
  ceval (newControlFrame TypeRstStream).
  cbn [controlFrame_read]. unfold RstStreamFrame_read.
  read_word. read_word. rewrite !uint32_small, rbind_unfold by lia.
  destruct (st =? 0); [reflexivity|].
  destruct (sid =? 0); reflexivity.
Qed.

(** X13: [ReadFrame] on a GOAWAY frame: when the flags are not 0 or the
    length field is not 8, it returns [InvalidControlFrame] with the last
    good stream id after reading that word only, so that the rest of the
    frame stays in the source; otherwise it reads the status and returns
    the frame. *)
Theorem GoAway_read_spec :
  ∀ (g : Framer) (h : ControlFrameHeader.t) (last : Z) (rest : list byte),
    r g = controlFrameHeaderBytes h ++ putUint32 last ++ rest →
    ControlFrameHeader.frameType h = TypeGoAway →
    0 ≤ ControlFrameHeader.version h < 2 ^ 15 →
    0 ≤ ControlFrameHeader.Flags h < 2 ^ 8 →
    0 ≤ ControlFrameHeader.length h < 2 ^ 24 →
    0 ≤ last < 2 ^ 32 →
    (ControlFrameHeader.Flags h ≠ 0 ∨ ControlFrameHeader.length h ≠ 8 →
     ReadFrame g
     = (set_r g rest, inr (SpdyError (mkError InvalidControlFrame last))))
    ∧ (ControlFrameHeader.Flags h = 0 → ControlFrameHeader.length h = 8 →
       ∀ (st : Z) (rest' : list byte),
         rest = putUint32 st ++ rest' → 0 ≤ st < 2 ^ 32 →
         ReadFrame g
         = (set_r g rest',
            inl (Control (CGoAway (GoAwayFrame.mk h last st))))).
Proof.
  intros g h last rest Hr Hty Hver Hfl Hlen Hlast.
  rewrite (ReadFrame_control g h _ Hr), Hty by (rewrite ?Hty; done).
  ceval (newControlFrame TypeGoAway).
  cbn [controlFrame_read]. unfold GoAwayFrame_read.
  read_word. rewrite uint32_small by lia. split.
  - intros Hbad. rewrite rbind_unfold.
    destruct (Z.eqb_spec (ControlFrameHeader.Flags h) 0) as [E|E];
      [|reflexivity].
    destruct (Z.eqb_spec (ControlFrameHeader.length h) 8) as [E'|E'];
      [|reflexivity].
    destruct Hbad; contradiction.
  - intros -> -> st rest' -> Hst. cbn [Z.eqb Pos.eqb negb].
    read_word. rewrite uint32_small by lia. reflexivity.
Qed.

(** X14: [ReadFrame] on a WINDOW_UPDATE frame: the same tests of the flags
    and of the length field, made after the stream id is read; the stream
    id is not tested, 0 included. *)
Theorem WindowUpdate_read_spec :
  ∀ (g : Framer) (h : ControlFrameHeader.t) (sid : Z) (rest : list byte),
    r g = controlFrameHeaderBytes h ++ putUint32 sid ++ rest →
    ControlFrameHeader.frameType h = TypeWindowUpdate →
    0 ≤ ControlFrameHeader.version h < 2 ^ 15 →
    0 ≤ ControlFrameHeader.Flags h < 2 ^ 8 →
    0 ≤ ControlFrameHeader.length h < 2 ^ 24 →
    0 ≤ sid < 2 ^ 32 →
    (ControlFrameHeader.Flags h ≠ 0 ∨ ControlFrameHeader.length h ≠ 8 →
     ReadFrame g
     = (set_r g rest, inr (SpdyError (mkError InvalidControlFrame sid))))
    ∧ (ControlFrameHeader.Flags h = 0 → ControlFrameHeader.length h = 8 →
       ∀ (delta : Z) (rest' : list byte),
         rest = putUint32 delta ++ rest' → 0 ≤ delta < 2 ^ 32 →
         ReadFrame g
         = (set_r g rest',
            inl (Control (CWindowUpdate
                            (WindowUpdateFrame.mk h sid delta))))).
Proof.
  intros g h sid rest Hr Hty Hver Hfl Hlen Hsid.
  rewrite (ReadFrame_control g h _ Hr), Hty by (rewrite ?Hty; done).
  ceval (newControlFrame TypeWindowUpdate).
  cbn [controlFrame_read]. unfold WindowUpdateFrame_read.
  read_word. rewrite uint32_small by lia. split.
  - intros Hbad. rewrite rbind_unfold.
    destruct (Z.eqb_spec (ControlFrameHeader.Flags h) 0) as [E|E];
      [|reflexivity].
    destruct (Z.eqb_spec (ControlFrameHeader.length h) 8) as [E'|E'];
      [|reflexivity].
    destruct Hbad; contradiction.
  - intros -> -> delta rest' -> Hdelta. cbn [Z.eqb Pos.eqb negb].
    read_word. rewrite uint32_small by lia. reflexivity.
Qed.

(** X15: [ReadFrame] on a SETTINGS frame reads as many entries as the count
    word says, whatever the flags and the length field of the header: the
    length field is not compared with the count. *)
Theorem Settings_read_spec :
  ∀ (g : Framer) (h : ControlFrameHeader.t)
    (l : list SettingsFlagIdValue.t) (rest : list byte),
    r g = controlFrameHeaderBytes h ++ putUint32 (len l) ++
          flagIdValuesBytes l ++ rest →
    ControlFrameHeader.frameType h = TypeSettings →
    0 ≤ ControlFrameHeader.version h < 2 ^ 15 →
    0 ≤ ControlFrameHeader.Flags h < 2 ^ 8 →
    0 ≤ ControlFrameHeader.length h < 2 ^ 24 →
    len l < 2 ^ 32 → Forall wireFlagIdValue l →
    ReadFrame g
    = (set_r g rest, inl (Control (CSettings (SettingsFrame.mk h l)))).
Proof.
  intros g h l rest Hr Hty Hver Hfl Hlen Hcount Hl.
  pose proof (len_nonneg l) as Hpos.
  rewrite (ReadFrame_control g h _ Hr), Hty by (rewrite ?Hty; done).
  ceval (newControlFrame TypeSettings).
  cbn [controlFrame_read]. unfold SettingsFrame_read.
  read_word. rewrite uint32_small by lia.
  unfold len at 1. rewrite Nat2Z.id, ?rbind_assoc.
  erewrite (rbind_inl (readFlagIdValues _))
    by (apply readFlagIdValues_wire; [exact Hl|reflexivity]).
  reflexivity.
Qed.

End FixedSizeReaders.

(** ** End of input *)
Section Truncated.
Context {zlib : Zlib} {order : MapOrder}.

Lemma binary_Read32_short (f : Framer) :
  len (r f) < 4 →
  binary_Read32 Framer_Read f
  = (set_r f [],
     inr (IoError (match r f with [] => EOF | _ => ErrUnexpectedEOF end))).
Proof.
  intros H. unfold binary_Read32, io_ReadFull. cbn [Z.eqb].
  rewrite rbind_unfold. unfold Framer_Read, bytes_Read.
  destruct (Z.leb_spec 4 (len (r f))); [lia|].
  destruct (r f); reflexivity.
Qed.

(** X16: [ReadFrame] at the end of the input.  On an empty source it returns
    [io.EOF]; on a source of one to three bytes [io.ErrUnexpectedEOF]; on a
    source that ends after the first word of a frame it returns [io.EOF]
    again, as at a clean end of the input; and a DATA frame whose payload
    is cut short gives [io.EOF] when no payload byte is left and
    [io.ErrUnexpectedEOF] otherwise.  The source is empty afterwards. *)
Theorem ReadFrame_truncated :
  ∀ (g : Framer),
    (r g = [] → ReadFrame g = (g, inr (IoError EOF)))
    ∧ (0 < len (r g) < 4 →
       ReadFrame g = (set_r g [], inr (IoError ErrUnexpectedEOF)))
    ∧ (len (r g) = 4 → ReadFrame g = (set_r g [], inr (IoError EOF)))
    ∧ (∀ (sid flags n : Z) (data : list byte),
         r g = putUint32 sid ++
               putUint32 (Z.lor (uint32 (Z.shiftl flags 24)) n) ++ data →
         0 ≤ sid < 2 ^ 31 → 0 ≤ flags < 2 ^ 8 → 0 ≤ n < 2 ^ 24 →
         len data < n →
         ReadFrame g
         = (set_r g [],
            inr (IoError (match data with
                          | [] => EOF
                          | _ => ErrUnexpectedEOF
                          end)))).
Proof.
  intros g. split; [|split; [|split]].
  - intros Hr. unfold ReadFrame.
    erewrite rbind_inr by (apply binary_Read32_short; rewrite Hr; reflexivity).
    rewrite Hr. rewrite <- Hr at 1. now rewrite set_r_id.
  - intros Hlen. unfold ReadFrame.
    erewrite rbind_inr by (apply binary_Read32_short; lia).
    destruct (r g); [unfold len in Hlen; cbn [length] in Hlen; lia|reflexivity].
  - intros Hlen. destruct (r g) as [|a [|b [|c [|d [|x l]]]]] eqn:Hr;
      try (unfold len in Hlen; cbn [length] in Hlen; lia).
    unfold ReadFrame, parseControlFrame, parseDataFrame. read32.
    destruct (negb _).
    + erewrite rbind_inr by (apply binary_Read32_short; reflexivity).
      reflexivity.
    + rewrite rbind_assoc.
      erewrite rbind_inr by (apply binary_Read32_short; reflexivity).
      reflexivity.
  - intros sid flags n data Hr Hsid Hflags Hn Hlen.
    rewrite packed_word in Hr by lia.
    unfold ReadFrame. read_word. rewrite uint32_small by lia.
    rewrite land_top_bit_small by lia. cbn [Z.eqb negb].
    unfold parseDataFrame. read_word.
    rewrite uint32_small, packed_word_low by lia.
    rewrite !rbind_unfold. unfold io_ReadFull.
    destruct (Z.eqb_spec n 0) as [->|Hnz];
      [pose proof (len_nonneg data); lia|].
    unfold Framer_Read, bytes_Read. cbn [r set_r].
    destruct (Z.leb_spec n (len data)); [lia|].
    destruct data; reflexivity.
Qed.

End Truncated.

(** ** Canonical header names *)

Lemma isLower_toUpperByte (c : ascii) : isLower (toUpperByte c) = false.
Proof.
  revert c. apply ascii_cases.
  intros [] [] [] [] [] [] [] []; vm_compute; reflexivity.
Qed.

Lemma isUpper_toLowerByte (c : ascii) : isUpper (toLowerByte c) = false.
Proof.
  revert c. apply ascii_cases.
  intros [] [] [] [] [] [] [] []; vm_compute; reflexivity.
Qed.

Lemma isUpper_toUpperByte (c : ascii) :
  isLower c = true → isUpper (toUpperByte c) = true.
Proof.
  assert (H : implb (isLower c) (isUpper (toUpperByte c)) = true).
  { revert c. apply ascii_cases.
    intros [] [] [] [] [] [] [] []; vm_compute; reflexivity. }
  intros E. now rewrite E in H.
Qed.

Lemma isLower_toLowerByte (c : ascii) :
  isUpper c = true → isLower (toLowerByte c) = true.
Proof.
  assert (H : implb (isUpper c) (isLower (toLowerByte c)) = true).
  { revert c. apply ascii_cases.
    intros [] [] [] [] [] [] [] []; vm_compute; reflexivity. }
  intros E. now rewrite E in H.
Qed.

Lemma validHeaderFieldByte_toUpperByte (c : ascii) :
  validHeaderFieldByte c = true → validHeaderFieldByte (toUpperByte c) = true.
Proof.
  intros H. destruct (isLower c) eqn:L.
  - unfold validHeaderFieldByte. now rewrite isUpper_toUpperByte.
  - unfold toUpperByte. now rewrite L.
Qed.

Lemma validHeaderFieldByte_toLowerByte (c : ascii) :
  validHeaderFieldByte c = true → validHeaderFieldByte (toLowerByte c) = true.
Proof.
  intros H. destruct (isUpper c) eqn:U.
  - unfold validHeaderFieldByte. rewrite isLower_toLowerByte by exact U.
    now rewrite orb_true_r.
  - unfold toLowerByte. now rewrite U.
Qed.

(** The quick scan finds nothing to change in a rewritten key. *)
Lemma canonicalScan_canonicalize (upper : bool) (a t : string) :
  allValid a = true → canonicalScan upper (canonicalize upper a) t = t.
Proof.
  revert upper. induction a as [|c a IH]; intros upper Hv; [reflexivity|].
  cbn [allValid] in Hv. apply andb_prop in Hv as [Hc Hv].
  cbn [canonicalize canonicalScan].
  destruct upper.
  - rewrite validHeaderFieldByte_toUpperByte, isLower_toUpperByte by exact Hc.
    cbn [negb andb]. apply IH, Hv.
  - rewrite validHeaderFieldByte_toLowerByte, isUpper_toLowerByte by exact Hc.
    cbn [negb andb]. apply IH, Hv.
Qed.

(** [CanonicalMIMEHeaderKey] is idempotent. *)
Lemma CanonicalMIMEHeaderKey_idemp (s : string) :
  CanonicalMIMEHeaderKey (CanonicalMIMEHeaderKey s) = CanonicalMIMEHeaderKey s.
Proof.
  assert (E : CanonicalMIMEHeaderKey s = s
              ∨ CanonicalMIMEHeaderKey s = canonicalMIMEHeaderKey s)
    by apply canonicalScan_cases.
  destruct E as [E|E]; [now rewrite !E|].
  unfold canonicalMIMEHeaderKey in E. destruct (allValid s) eqn:V.
  - rewrite E. apply canonicalScan_canonicalize, V.
  - now rewrite !E.
Qed.

Lemma canonicalEntries_empty : canonicalEntries ∅.
Proof. intros k vs H. rewrite lookup_empty in H. discriminate. Qed.

Lemma canonicalEntries_Header_Add (h : Header) (name v : string) :
  canonicalEntries h → canonicalEntries (Header_Add h name v).
Proof.
  intros Hh k vs. unfold Header_Add.
  destruct (decide (k = CanonicalMIMEHeaderKey name)) as [->|Hne].
  - rewrite lookup_insert_eq. intros [= <-].
    split; [apply CanonicalMIMEHeaderKey_idemp|].
    now destruct (default [] _).
  - rewrite lookup_insert_ne by congruence. apply Hh.
Qed.

Lemma canonicalEntries_fold (name : string) (values : list string)
    (h : Header) :
  canonicalEntries h →
  canonicalEntries (fold_left (λ h v, Header_Add h name v) values h).
Proof.
  revert h. induction values as [|v values IH]; intros h Hh; [exact Hh|].
  cbn [fold_left]. apply IH, canonicalEntries_Header_Add, Hh.
Qed.

Lemma parseHeaderEntries_canonical {R} (Read : Z → reading R (list byte))
    streamId count h e s s' h' e' :
  canonicalEntries h →
  parseHeaderEntries Read streamId count h e s = (s', inl (h', e')) →
  canonicalEntries h'.
Proof.
  revert h e s. induction count as [|count IH]; intros h e s Hh;
    cbn [parseHeaderEntries].
  - intros [= <- <- <-]. exact Hh.
  - intros H.
    apply rbind_inv_inl in H as (s1 & l1 & _ & H).
    apply rbind_inv_inl in H as (s2 & nameBytes & _ & H).
    apply rbind_inv_inl in H as (s3 & l2 & _ & H).
    apply rbind_inv_inl in H as (s4 & value & _ & H).
    eapply IH, H. apply canonicalEntries_fold, Hh.
Qed.

Lemma parseHeaderValueBlock_canonical {R} (Read : Z → reading R (list byte))
    streamId s s' h e :
  parseHeaderValueBlock Read streamId s = (s', inl (h, e)) →
  canonicalEntries h.
Proof.
  unfold parseHeaderValueBlock. intros H.
  apply rbind_inv_inl in H as (s1 & n & _ & H).
  eapply parseHeaderEntries_canonical, H. apply canonicalEntries_empty.
Qed.

Lemma hasInvalidHeader_false (invalid : gset string) (h : Header) (k : string) :
  hasInvalidHeader invalid h = false → k ∈ invalid → h !! k = None.
Proof.
  unfold hasInvalidHeader. intros H Hk.
  destruct (h !! k) as [vs|] eqn:E; [|reflexivity].
  apply elem_of_map_to_list in E.
  assert (Hex : existsb (λ kv : string * list string,
                           bool_decide (kv.1 ∈ invalid)) (map_to_list h)
                = true).
  { apply existsb_exists. exists (k, vs). split.
    - now apply list_elem_of_In.
    - now apply bool_decide_eq_true. }
  congruence.
Qed.

Section ReadInversion.
Context {zlib : Zlib} {order : MapOrder}.

Lemma readHeaders_parsed payloadSize streamId (f f' : Framer) h :
  readHeaders payloadSize streamId f = (f', inl h) →
  ∃ f1,
    parseHeaderValueBlock
      (if headerCompressionDisabled f then Framer_Read
       else headerDecompressor_Read) streamId f1 = (f', inl (h, None))
    ∧ (headerCompressionDisabled f = false → headerReader_N f' = 0).
Proof.
  unfold readHeaders.
  destruct (if headerCompressionDisabled f then _ else _)
    as [f1 [err|]]; [discriminate|].
  destruct (parseHeaderValueBlock _ streamId f1) as [f2 res] eqn:Hp.
  intros H. exists f1.
  destruct (headerCompressionDisabled f) eqn:Hd; cbn [negb andb] in H.
  - destruct res as [[h0 [x|]]|err]; cbn in H; try discriminate.
    injection H as <- <-. split; [exact Hp|discriminate].
  - destruct (Z.eqb_spec (headerReader_N f2) 0) as [E|E].
    + rewrite andb_true_r, orb_false_r in H.
      destruct res as [[h0 [x|]]|err]; cbn in H.
      * discriminate.
      * injection H as <- <-. split; [exact Hp|intros _; exact E].
      * destruct (bool_decide _); discriminate.
    + rewrite orb_true_r in H. discriminate.
Qed.

Lemma ReadFrame_Control_inv (g g' : Framer) (c : controlFrame) :
  ReadFrame g = (g', inl (Control c)) →
  ∃ h cframe g1,
    newControlFrame (ControlFrameHeader.frameType h) = inl cframe
    ∧ controlFrame_read cframe h g1 = (g', inl c)
    ∧ headerCompressionDisabled g1 = headerCompressionDisabled g
    ∧ 0 ≤ ControlFrameHeader.version h < 2 ^ 15
    ∧ 0 ≤ ControlFrameHeader.frameType h < 2 ^ 16
    ∧ 0 ≤ ControlFrameHeader.Flags h < 2 ^ 8
    ∧ 0 ≤ ControlFrameHeader.length h < 2 ^ 24.
Proof.
  unfold ReadFrame. intros H.
  apply rbind_inv_inl in H as (g1 & firstWord & Hw1 & H).
  destruct (negb _).
  - unfold parseControlFrame in H.
    apply rbind_inv_inl in H as (g2 & length & Hw2 & H).
    destruct (newControlFrame _) as [cframe|err] eqn:Hn; [|discriminate].
    apply rbind_inv_inl in H as (g3 & c' & Hc & [= ? ?]). subst g3 c'.
    eexists (ControlFrameHeader.mk _ _ _ _), cframe, g2.
    split; [exact Hn|]. split; [exact Hc|].
    cbn [ControlFrameHeader.version ControlFrameHeader.frameType
           ControlFrameHeader.Flags ControlFrameHeader.length].
    split; [|repeat split].
    + unfold binary_Read32, io_ReadFull in Hw1, Hw2. cbn [Z.eqb] in Hw1, Hw2.
      apply rbind_inv_inl in Hw1 as (? & ? & Hw1 & [= <- _]).
      apply rbind_inv_inl in Hw2 as (? & ? & Hw2 & [= <- _]).
      unfold Framer_Read in Hw1, Hw2.
      destruct (bytes_Read 4 (r g)) as [? ?]. injection Hw1 as <- _.
      destruct (bytes_Read 4 _) as [? ?]. injection Hw2 as <- _.
      reflexivity.
    + unfold uint16. apply Z.mod_pos_bound. lia.
    + unfold uint16. rewrite Z.land_comm. change 0x7fff with (Z.ones 15).
      rewrite Z.land_ones by lia.
      pose proof (Z.mod_pos_bound (Z.shiftr firstWord 16) (2 ^ 15)
                    ltac:(lia)).
      rewrite Z.mod_small by lia. lia.
    + change 0xffff with (Z.ones 16). rewrite Z.land_ones by lia.
      apply Z.mod_pos_bound. lia.
    + change 0xffff with (Z.ones 16). rewrite Z.land_ones by lia.
      apply Z.mod_pos_bound. lia.
    + rewrite Z.shiftr_land. change (Z.shiftr 0xff000000 24) with (Z.ones 8).
      rewrite Z.land_ones by lia. apply Z.mod_pos_bound. lia.
    + rewrite Z.shiftr_land. change (Z.shiftr 0xff000000 24) with (Z.ones 8).
      rewrite Z.land_ones by lia. apply Z.mod_pos_bound. lia.
    + change 0xffffff with (Z.ones 24). rewrite Z.land_ones by lia.
      apply Z.mod_pos_bound. lia.
    + change 0xffffff with (Z.ones 24). rewrite Z.land_ones by lia.
      apply Z.mod_pos_bound. lia.
  - apply rbind_inv_inl in H as (g2 & d & _ & [=]).
Qed.

End ReadInversion.

(** ** What [ReadFrame] returns *)

Lemma getUint32_range (bs : list byte) : 0 ≤ getUint32 bs < 2 ^ 32.
Proof.
  destruct bs as [|a [|b [|c [|d [|x bs]]]]]; cbn [getUint32]; try lia.
  pose proof (Z_of_byte_range a). pose proof (Z_of_byte_range b).
  pose proof (Z_of_byte_range c). pose proof (Z_of_byte_range d).
  rewrite (lor_shiftl_add _ _ 8) by lia.
  rewrite (lor_shiftl_add _ _ 16) by lia.
  rewrite (lor_shiftl_add _ _ 24) by lia. lia.
Qed.

Lemma binary_Read32_range {R} (Read : Z → reading R (list byte)) s s' v :
  binary_Read32 Read s = (s', inl v) → 0 ≤ v < 2 ^ 32.
Proof.
  unfold binary_Read32. intros H.
  apply rbind_inv_inl in H as (s1 & bs & _ & [= _ <-]).
  apply getUint32_range.
Qed.

Lemma binary_Read8_range {R} (Read : Z → reading R (list byte)) s s' v :
  binary_Read8 Read s = (s', inl v) → 0 ≤ v < 2 ^ 8.
Proof.
  unfold binary_Read8. intros H.
  apply rbind_inv_inl in H as (s1 & bs & _ & [= _ <-]).
  apply getUint8_range.
Qed.

Lemma len_takeZ {A} (n : Z) (l : list A) :
  0 ≤ n ≤ len l → len (takeZ n l) = n.
Proof.
  revert n. induction l as [|x l IH]; intros n Hn; cbn [takeZ].
  - rewrite len_nil in *. lia.
  - rewrite len_cons in Hn. destruct (Z.leb_spec n 0).
    + rewrite len_nil. lia.
    + rewrite len_cons, IH by lia. lia.
Qed.

Lemma newControlFrame_inv (frameType : Z) (cframe : controlFrame) :
  newControlFrame frameType = inl cframe → typeCode cframe = frameType.
Proof.
  unfold newControlFrame.
  destruct (cframeCtor !! frameType) as [ctor|] eqn:E; [|discriminate].
  intros [= ->]. apply elem_of_list_to_map_2 in E.
  repeat (apply elem_of_cons in E as [[= -> ->]|E]; [reflexivity|]).
  now apply elem_of_nil in E.
Qed.

Section ReadResults.
Context {zlib : Zlib} {order : MapOrder}.

Lemma io_ReadFull_len (n : Z) (f f' : Framer) (data : list byte) :
  0 ≤ n → io_ReadFull Framer_Read n f = (f', inl data) → len data = n.
Proof.
  intros Hn. unfold io_ReadFull. destruct (Z.eqb_spec n 0) as [->|Hnz].
  - intros [= _ <-]. reflexivity.
  - unfold Framer_Read, bytes_Read.
    destruct (Z.leb_spec n (len (r f))).
    + intros [= _ <-]. apply len_takeZ. lia.
    + destruct (r f); discriminate.
Qed.

Lemma readFlagIdValues_ranges count (f f' : Framer) l :
  readFlagIdValues count f = (f', inl l) → Forall wireFlagIdValue l.
Proof.
  revert f f' l. induction count as [|count IH]; intros f f' l;
    cbn [readFlagIdValues].
  - intros [= _ <-]. constructor.
  - intros H.
    apply rbind_inv_inl in H as (f1 & w1 & H1 & H).
    apply rbind_inv_inl in H as (f2 & w2 & H2 & H).
    apply rbind_inv_inl in H as (f3 & l' & H3 & [= _ <-]).
    apply binary_Read32_range in H2.
    constructor; [|eapply IH, H3].
    unfold wireFlagIdValue.
    cbn [SettingsFlagIdValue.Flag SettingsFlagIdValue.Id
           SettingsFlagIdValue.Value].
    rewrite Z.shiftr_land. change (Z.shiftr 0xff000000 24) with (Z.ones 8).
    change 0xffffff with (Z.ones 24). rewrite !Z.land_ones by lia.
    pose proof (Z.mod_pos_bound (Z.shiftr w1 24) (2 ^ 8) ltac:(lia)).
    pose proof (Z.mod_pos_bound w1 (2 ^ 24) ltac:(lia)). lia.
Qed.

(** The header block of a frame that was read went through [readHeaders]
    and the test of the banned names. *)
Lemma controlFrame_read_headers cframe h (g1 g' : Framer) c :
  controlFrame_read cframe h g1 = (g', inl c) →
  hasInvalidHeader (bannedNames c) (frameHeaders c) = false
  ∧ if headerBearing c
    then ∃ payloadSize streamId f,
           readHeaders payloadSize streamId f = (g', inl (frameHeaders c))
           ∧ headerCompressionDisabled f = headerCompressionDisabled g1
    else frameHeaders c = ∅.
Proof.
  assert (Hkeep : ∀ (f f' : Framer) v,
            binary_Read32 Framer_Read f = (f', inl v) →
            headerCompressionDisabled f' = headerCompressionDisabled f).
  { intros f f' v H. unfold binary_Read32 in H.
    apply rbind_inv_inl in H as (f1 & bs & H & [= <- _]).
    unfold io_ReadFull in H. cbn [Z.eqb] in H. unfold Framer_Read in H.
    destruct (bytes_Read 4 (r f)) as [src res]. injection H as <- _.
    reflexivity. }
  assert (Hkeep8 : ∀ (f f' : Framer) v,
            binary_Read8 Framer_Read f = (f', inl v) →
            headerCompressionDisabled f' = headerCompressionDisabled f).
  { intros f f' v H. unfold binary_Read8 in H.
    apply rbind_inv_inl in H as (f1 & bs & H & [= <- _]).
    unfold io_ReadFull in H. cbn [Z.eqb] in H. unfold Framer_Read in H.
    destruct (bytes_Read 1 (r f)) as [src res]. injection H as <- _.
    reflexivity. }
  intros H.
  destruct cframe; cbn [controlFrame_read] in H;
    apply rbind_inv_inl in H as (g2 & x & Hx & [= ? ?]); subst g2 c;
    cbn [bannedNames frameHeaders headerBearing];
    try (split; reflexivity).
  - unfold readSynStreamFrame in Hx.
    apply rbind_inv_inl in Hx as (f1 & sid & H1 & Hx).
    apply rbind_inv_inl in Hx as (f2 & assoc & H2 & Hx).
    apply rbind_inv_inl in Hx as (f3 & pri & H3 & Hx).
    apply rbind_inv_inl in Hx as (f4 & slot & H4 & Hx).
    apply rbind_inv_inl in Hx as (f5 & hs & H5 & Hx).
    destruct (hasInvalidHeader _ hs) eqn:Hb; [discriminate|].
    destruct (sid =? 0); [discriminate|]. injection Hx as <- <-.
    cbn [SynStreamFrame.Headers]. split; [exact Hb|].
    do 3 eexists. split; [exact H5|].
    rewrite (Hkeep8 _ _ _ H4), (Hkeep8 _ _ _ H3), (Hkeep _ _ _ H2).
    apply (Hkeep _ _ _ H1).
  - unfold readSynReplyFrame in Hx.
    apply rbind_inv_inl in Hx as (f1 & sid & H1 & Hx).
    apply rbind_inv_inl in Hx as (f5 & hs & H5 & Hx).
    destruct (hasInvalidHeader _ hs) eqn:Hb; [discriminate|].
    destruct (sid =? 0); [discriminate|]. injection Hx as <- <-.
    cbn [SynReplyFrame.Headers]. split; [exact Hb|].
    do 3 eexists. split; [exact H5|]. apply (Hkeep _ _ _ H1).
  - unfold readHeadersFrame in Hx.
    apply rbind_inv_inl in Hx as (f1 & sid & H1 & Hx).
    apply rbind_inv_inl in Hx as (f5 & hs & H5 & Hx).
    destruct (hasInvalidHeader _ hs) eqn:Hb; [discriminate|].
    destruct (sid =? 0); [discriminate|]. injection Hx as <- <-.
    cbn [HeadersFrame.Headers HeadersFrame.StreamId]. split; [exact Hb|].
    do 3 eexists. split; [exact H5|]. apply (Hkeep _ _ _ H1).
Qed.

(** X17: the header map of a frame that [ReadFrame] returns is as
    [http.Header.Add] builds it: every key is in canonical MIME form (not
    the lowercase form of the wire), and every key has at least one
    value. *)
Theorem ReadFrame_headers_canonical :
  ∀ (g g' : Framer) (c : controlFrame),
    ReadFrame g = (g', inl (Control c)) →
    canonicalEntries (frameHeaders c).
Proof.
  intros g g' c H.
  apply ReadFrame_Control_inv in H as (h & cframe & g1 & _ & H & _).
  apply controlFrame_read_headers in H as [_ H].
  destruct (headerBearing c).
  - destruct H as (p & sid & f & H & _).
    apply readHeaders_parsed in H as (f1 & H & _).
    eapply parseHeaderValueBlock_canonical, H.
  - rewrite H. apply canonicalEntries_empty.
Qed.

(** X18: no frame that [ReadFrame] returns has a banned name among the keys
    of its header map: the names of [invalidReqHeaders] for SYN_STREAM, of
    [invalidRespHeaders] for SYN_REPLY, and for HEADERS the former on even
    and the latter on odd stream ids. *)
Theorem ReadFrame_no_banned_name :
  ∀ (g g' : Framer) (c : controlFrame) (name : string),
    ReadFrame g = (g', inl (Control c)) →
    name ∈ bannedNames c → frameHeaders c !! name = None.
Proof.
  intros g g' c name H Hname.
  apply ReadFrame_Control_inv in H as (h & cframe & g1 & _ & H & _).
  apply controlFrame_read_headers in H as [H _].
  eapply hasInvalidHeader_false; eassumption.
Qed.

(** X19: with header compression on, [ReadFrame] returns a SYN_STREAM,
    SYN_REPLY or HEADERS frame only when the decompressor has consumed the
    whole payload that the length field announces: the bounded reader is
    left with [N = 0]. *)
Theorem ReadFrame_compressed_payload_consumed :
  ∀ (g g' : Framer) (c : controlFrame),
    headerCompressionDisabled g = false →
    ReadFrame g = (g', inl (Control c)) →
    headerBearing c = true →
    headerReader_N g' = 0.
Proof.
  intros g g' c Hd H Hc.
  apply ReadFrame_Control_inv in H as (h & cframe & g1 & _ & H & Hd1 & _).
  apply controlFrame_read_headers in H as [_ H]. rewrite Hc in H.
  destruct H as (p & sid & f & H & Hf).
  apply readHeaders_parsed in H as (f1 & _ & H). apply H. congruence.
Qed.


Lemma controlFrame_read_ranges cframe h (g1 g' : Framer) c :
  controlFrame_read cframe h g1 = (g', inl c) →
  frameCFHeader c = h ∧ typeCode c = typeCode cframe
  ∧ match c with
    | CSynStream fr =>
        0 < SynStreamFrame.StreamId fr < 2 ^ 32
        ∧ 0 ≤ SynStreamFrame.AssociatedToStreamId fr < 2 ^ 32
        ∧ 0 ≤ SynStreamFrame.Priority fr ≤ 7
        ∧ 0 ≤ SynStreamFrame.Slot fr < 2 ^ 8
    | CSynReply fr => 0 < SynReplyFrame.StreamId fr < 2 ^ 32
    | CRstStream fr =>
        0 < RstStreamFrame.StreamId fr < 2 ^ 32
        ∧ 0 < RstStreamFrame.Status fr < 2 ^ 32
    | CSettings fr => Forall wireFlagIdValue (SettingsFrame.FlagIdValues fr)
    | CPing fr =>
        0 < PingFrame.Id fr < 2 ^ 32 ∧ ControlFrameHeader.Flags h = 0
    | CGoAway fr =>
        0 ≤ GoAwayFrame.LastGoodStreamId fr < 2 ^ 32
        ∧ 0 ≤ GoAwayFrame.GoAwayStatus fr < 2 ^ 32
        ∧ ControlFrameHeader.Flags h = 0
        ∧ ControlFrameHeader.length h = 8
    | CHeaders fr => 0 < HeadersFrame.StreamId fr < 2 ^ 32
    | CWindowUpdate fr =>
        0 ≤ WindowUpdateFrame.StreamId fr < 2 ^ 32
        ∧ 0 ≤ WindowUpdateFrame.DeltaWindowSize fr < 2 ^ 32
        ∧ ControlFrameHeader.Flags h = 0
        ∧ ControlFrameHeader.length h = 8
    end.
Proof.
  intros H.
  destruct cframe; cbn [controlFrame_read] in H;
    apply rbind_inv_inl in H as (g2 & x & Hx & [= ? ?]); subst g2 c;
    cbn [typeCode].
  - unfold readSynStreamFrame in Hx.
    apply rbind_inv_inl in Hx as (f1 & sid & H1 & Hx).
    apply rbind_inv_inl in Hx as (f2 & assoc & H2 & Hx).
    apply rbind_inv_inl in Hx as (f3 & pri & H3 & Hx).
    apply rbind_inv_inl in Hx as (f4 & slot & H4 & Hx).
    apply rbind_inv_inl in Hx as (f5 & hs & H5 & Hx).
    destruct (hasInvalidHeader _ hs); [discriminate|].
    destruct (Z.eqb_spec sid 0); [discriminate|]. injection Hx as <- <-.
    apply binary_Read32_range in H1, H2. apply binary_Read8_range in H3, H4.
    cbn [frameCFHeader SynStreamFrame.CFHeader SynStreamFrame.StreamId
           SynStreamFrame.AssociatedToStreamId SynStreamFrame.Priority
           SynStreamFrame.Slot].
    repeat split; try lia.
    + apply Z.shiftr_nonneg. lia.
    + rewrite Z.shiftr_div_pow2 by lia. change (2 ^ 5) with 32.
      apply Z.lt_succ_r, Z.div_lt_upper_bound; lia.
  - unfold readSynReplyFrame in Hx.
    apply rbind_inv_inl in Hx as (f1 & sid & H1 & Hx).
    apply rbind_inv_inl in Hx as (f5 & hs & H5 & Hx).
    destruct (hasInvalidHeader _ hs); [discriminate|].
    destruct (Z.eqb_spec sid 0); [discriminate|]. injection Hx as <- <-.
    apply binary_Read32_range in H1.
    cbn [frameCFHeader SynReplyFrame.CFHeader SynReplyFrame.StreamId].
    repeat split; lia.
  - unfold RstStreamFrame_read in Hx.
    apply rbind_inv_inl in Hx as (f1 & sid & H1 & Hx).
    apply rbind_inv_inl in Hx as (f2 & st & H2 & Hx).
    destruct (Z.eqb_spec st 0); [discriminate|].
    destruct (Z.eqb_spec sid 0); [discriminate|]. injection Hx as <- <-.
    apply binary_Read32_range in H1, H2.
    cbn [frameCFHeader RstStreamFrame.CFHeader RstStreamFrame.StreamId
           RstStreamFrame.Status].
    repeat split; lia.
  - unfold SettingsFrame_read in Hx.
    apply rbind_inv_inl in Hx as (f1 & n & H1 & Hx).
    apply rbind_inv_inl in Hx as (f2 & l & H2 & [= _ <-]).
    cbn [frameCFHeader SettingsFrame.CFHeader SettingsFrame.FlagIdValues].
    repeat split. eapply readFlagIdValues_ranges, H2.
  - unfold PingFrame_read in Hx.
    apply rbind_inv_inl in Hx as (f1 & id & H1 & Hx).
    destruct (Z.eqb_spec id 0); [discriminate|].
    destruct (Z.eqb_spec (ControlFrameHeader.Flags h) 0); [|discriminate].
    injection Hx as <- <-. apply binary_Read32_range in H1.
    cbn [frameCFHeader PingFrame.CFHeader PingFrame.Id].
    repeat split; try lia; assumption.
  - unfold GoAwayFrame_read in Hx.
    apply rbind_inv_inl in Hx as (f1 & last & H1 & Hx).
    destruct (Z.eqb_spec (ControlFrameHeader.Flags h) 0); [|discriminate].
    destruct (Z.eqb_spec (ControlFrameHeader.length h) 8); [|discriminate].
    cbn [negb] in Hx.
    apply rbind_inv_inl in Hx as (f2 & st & H2 & [= _ <-]).
    apply binary_Read32_range in H1, H2.
    cbn [frameCFHeader GoAwayFrame.CFHeader GoAwayFrame.LastGoodStreamId
           GoAwayFrame.GoAwayStatus].
    repeat split; try lia; assumption.
  - unfold readHeadersFrame in Hx.
    apply rbind_inv_inl in Hx as (f1 & sid & H1 & Hx).
    apply rbind_inv_inl in Hx as (f5 & hs & H5 & Hx).
    destruct (hasInvalidHeader _ hs); [discriminate|].
    destruct (Z.eqb_spec sid 0); [discriminate|]. injection Hx as <- <-.
    apply binary_Read32_range in H1.
    cbn [frameCFHeader HeadersFrame.CFHeader HeadersFrame.StreamId].
    repeat split; lia.
  - unfold WindowUpdateFrame_read in Hx.
    apply rbind_inv_inl in Hx as (f1 & sid & H1 & Hx).
    destruct (Z.eqb_spec (ControlFrameHeader.Flags h) 0); [|discriminate].
    destruct (Z.eqb_spec (ControlFrameHeader.length h) 8); [|discriminate].
    cbn [negb] in Hx.
    apply rbind_inv_inl in Hx as (f2 & delta & H2 & [= _ <-]).
    apply binary_Read32_range in H1, H2.
    cbn [frameCFHeader WindowUpdateFrame.CFHeader WindowUpdateFrame.StreamId
           WindowUpdateFrame.DeltaWindowSize].
    repeat split; try lia; assumption.
Qed.

(** X20: every frame that [ReadFrame] returns has its fields in the ranges
    of their places on the wire: the header of a control frame carries the
    type code of its variant, a 15-bit version, 8-bit flags and a 24-bit
    length; stream ids that are tested are not 0; a SYN_STREAM priority is
    at most 7; a RST_STREAM status is not 0; PING, GOAWAY and
    WINDOW_UPDATE frames have flags 0, the latter two length 8; SETTINGS
    entries have an 8-bit flag and a 24-bit id; a DATA frame has a 31-bit
    stream id other than 0 and fewer than [2^24] payload bytes. *)
Theorem ReadFrame_wireRanges :
  ∀ (g g' : Framer) (frame : Frame),
    ReadFrame g = (g', inl frame) → wireRanges frame.
Proof.
  intros g g' [c|d] H.
  - apply ReadFrame_Control_inv in H
      as (h & cframe & g1 & Hn & H & _ & Hver & Hty & Hfl & Hlen).
    apply newControlFrame_inv in Hn.
    apply controlFrame_read_ranges in H as (Hh & Hc & H).
    cbn [wireRanges]. rewrite Hh.
    split; [congruence|]. auto.
  - unfold ReadFrame in H.
    apply rbind_inv_inl in H as (g1 & firstWord & Hw1 & H).
    destruct (negb _).
    { unfold parseControlFrame in H.
      apply rbind_inv_inl in H as (g2 & length & Hw2 & H).
      destruct (newControlFrame _); [|discriminate].
      apply rbind_inv_inl in H as (g3 & c' & Hc & [=]). }
    apply rbind_inv_inl in H as (g2 & d' & H & [= ? ?]). subst g2 d'.
    unfold parseDataFrame in H.
    apply rbind_inv_inl in H as (g3 & length & Hw2 & H).
    apply rbind_inv_inl in H as (g4 & data & Hdata & H).
    destruct (Z.eqb_spec (Z.land firstWord 0x7fffffff) 0); [discriminate|].
    injection H as _ <-.
    apply binary_Read32_range in Hw2.
    cbn [wireRanges DataFrame.StreamId DataFrame.Flags DataFrame.Data].
    assert (Hlow : 0 ≤ Z.land length 0xffffff < 2 ^ 24).
    { change 0xffffff with (Z.ones 24). rewrite Z.land_ones by lia.
      apply Z.mod_pos_bound. lia. }
    apply io_ReadFull_len in Hdata; [|lia].
    assert (Hsid : 0 ≤ Z.land firstWord 0x7fffffff < 2 ^ 31).
    { change 0x7fffffff with (Z.ones 31). rewrite Z.land_ones by lia.
      apply Z.mod_pos_bound. lia. }
    repeat split; try lia.
    + apply Z.shiftr_nonneg. lia.
    + rewrite Z.shiftr_div_pow2 by lia.
      apply Z.div_lt_upper_bound; lia.
Qed.

End ReadResults.

(** ** What the writers put in the header and in the scratch buffer *)
Section WriteResults.
Context {zlib : Zlib} {order : MapOrder}.

Lemma finish_write_inv {F} (f0 f' : Framer) (frame frame' : F) (reset : bool)
    (res : Writer * option error) (e : option error) :
  finish_write f0 frame reset res = (f', frame', e) →
  frame' = frame ∧ e = res.2
  ∧ headerBuf f' = (if reset then match e with
                                  | None => []
                                  | Some _ => headerBuf f0
                                  end
                    else headerBuf f0).
Proof.
  unfold finish_write. destruct res as [w' [e0|]]; intros [= <- <- <-].
  - destruct reset; auto.
  - destruct reset; auto.
Qed.

Lemma controlFrame_write_header (f f' : Framer) (frame frame' : controlFrame) :
  controlFrame_write frame f = (f', frame', None) →
  typeCode frame' = typeCode frame
  ∧ frameHeaders frame' = frameHeaders frame
  ∧ ControlFrameHeader.version (frameCFHeader frame') = Version
  ∧ ControlFrameHeader.frameType (frameCFHeader frame') = typeCode frame
  ∧ ControlFrameHeader.Flags (frameCFHeader frame')
    = if clearsFlags frame then 0
      else ControlFrameHeader.Flags (frameCFHeader frame).
Proof.
  intros H.
  destruct frame as [fr|fr|fr|fr|fr|fr|fr|fr]; cbn [controlFrame_write] in H.
  - destruct (writeSynStreamFrame f fr) as [[f0 fr0] e0] eqn:Hs.
    injection H as <- <- ->. unfold writeSynStreamFrame in Hs.
    destruct (_ =? 0); [discriminate|].
    destruct (marshalHeaders f _) as [f1 [e1|]]; [discriminate|].
    apply finish_write_inv in Hs as (-> & _). cbn. auto.
  - destruct (writeSynReplyFrame f fr) as [[f0 fr0] e0] eqn:Hs.
    injection H as <- <- ->. unfold writeSynReplyFrame in Hs.
    destruct (_ =? 0); [discriminate|].
    destruct (marshalHeaders f _) as [f1 [e1|]]; [discriminate|].
    apply finish_write_inv in Hs as (-> & _). cbn. auto.
  - destruct (RstStreamFrame_write fr f) as [[f0 fr0] e0] eqn:Hs.
    injection H as <- <- ->. unfold RstStreamFrame_write in Hs.
    destruct (_ =? 0); [discriminate|].
    apply finish_write_inv in Hs as (-> & _). cbn. auto.
  - destruct (SettingsFrame_write fr f) as [[f0 fr0] e0] eqn:Hs.
    injection H as <- <- ->. unfold SettingsFrame_write in Hs.
    apply finish_write_inv in Hs as (-> & _). cbn. auto.
  - destruct (PingFrame_write fr f) as [[f0 fr0] e0] eqn:Hs.
    injection H as <- <- ->. unfold PingFrame_write in Hs.
    destruct (_ =? 0); [discriminate|].
    apply finish_write_inv in Hs as (-> & _). cbn. auto.
  - destruct (GoAwayFrame_write fr f) as [[f0 fr0] e0] eqn:Hs.
    injection H as <- <- ->. unfold GoAwayFrame_write in Hs.
    apply finish_write_inv in Hs as (-> & _). cbn. auto.
  - destruct (writeHeadersFrame f fr) as [[f0 fr0] e0] eqn:Hs.
    injection H as <- <- ->. unfold writeHeadersFrame in Hs.
    destruct (_ =? 0); [discriminate|].
    destruct (marshalHeaders f _) as [f1 [e1|]]; [discriminate|].
    apply finish_write_inv in Hs as (-> & _). cbn. auto.
  - destruct (WindowUpdateFrame_write fr f) as [[f0 fr0] e0] eqn:Hs.
    injection H as <- <- ->. unfold WindowUpdateFrame_write in Hs.
    apply finish_write_inv in Hs as (-> & _). cbn. auto.
Qed.

(** X21: whatever the caller left in the header of a control frame value,
    a successful [WriteFrame] emits a frame that starts with the control
    bit and version 3 (bytes [80 03]) followed by the type code of the
    variant, and leaves these in the header of the frame value; the flags
    are the caller's for SYN_STREAM, SYN_REPLY, SETTINGS and HEADERS and 0
    for the other variants.  A DATA frame is emitted with the top bit of
    its first byte clear, so that [ReadFrame] tells the two kinds apart. *)
Theorem WriteFrame_stamps_header :
  (∀ (f f' : Framer) (frame frame' : controlFrame),
     WriteFrame f (Control frame) = (f', Control frame', None) →
     typeCode frame' = typeCode frame
     ∧ ControlFrameHeader.version (frameCFHeader frame') = 3
     ∧ ControlFrameHeader.frameType (frameCFHeader frame') = typeCode frame
     ∧ ControlFrameHeader.Flags (frameCFHeader frame')
       = (if clearsFlags frame then 0
          else ControlFrameHeader.Flags (frameCFHeader frame))
     ∧ ∃ tail,
         written (w f')
         = written (w f) ++ [x80; x03] ++ putUint16 (typeCode frame) ++ tail)
  ∧ (∀ (f f' : Framer) (frame : DataFrame.t) (frame' : Frame),
       WriteFrame f (Data frame) = (f', frame', None) →
       Z.land (DataFrame.StreamId frame) 0x80000000 = 0
       ∧ ∃ tail,
           written (w f')
           = written (w f) ++ putUint32 (DataFrame.StreamId frame) ++ tail).
Proof.
  split.
  - intros f f' frame frame' H. cbn [WriteFrame] in H.
    destruct (controlFrame_write frame f) as [[f0 fr0] e0] eqn:Hc.
    injection H as -> -> ->.
    pose proof (controlFrame_write_header _ _ _ _ Hc)
      as (Hty & _ & Hver & Hft & Hfl).
    apply controlFrame_write_emitted in Hc as (f1 & payload & _ & Hc & _).
    repeat (split; [assumption|]).
    rewrite Hc. unfold controlFrameHeaderBytes.
    rewrite Hver, Hft, <- !app_assoc.
    eexists. reflexivity.
  - intros f f' frame frame' H. cbn [WriteFrame] in H.
    destruct (writeDataFrame f frame) as [[f0 fr0] e0] eqn:Hd.
    injection H as -> _ ->. unfold writeDataFrame in Hd.
    destruct (_ =? 0); [discriminate|].
    destruct (Z.eqb_spec (Z.land (DataFrame.StreamId frame) 0x80000000) 0)
      as [E|E]; [|discriminate].
    cbn [negb orb] in Hd. destruct (_ <=? _); [discriminate|].
    split; [exact E|].
    eapply finish_write_ok in Hd as [Hd _]; [|auto with sink].
    rewrite Hd. eexists. reflexivity.
Qed.

(** X22: the scratch buffer of the header block, header compression off.
    The writers of SYN_STREAM, SYN_REPLY and HEADERS append the serialized
    header map to whatever the scratch buffer holds and emit the whole
    buffer as the header block; the buffer is emptied after a successful
    write only, so that after a failed write it still holds the block. *)
Theorem scratch_buffer_after_write :
  ∀ (f f' : Framer) (frame : controlFrame) (frame' : Frame)
    (e : option error),
    headerCompressionDisabled f = true →
    headerBearing frame = true →
    checkedStreamId (Control frame) ≠ Some 0 →
    WriteFrame f (Control frame) = (f', frame', e) →
    let block := headerBuf f ++ serializedHeaders (frameHeaders frame) in
    match e with
    | None => headerBuf f' = [] ∧ block `suffix_of` written (w f')
    | Some _ => headerBuf f' = block
    end.
Proof.
  intros f f' frame frame' e Hd Hb Hsid H block. cbn [WriteFrame] in H.
  destruct (controlFrame_write frame f) as [[f0 fr0] e0] eqn:Hc.
  injection H as -> _ ->.
  destruct frame as [fr|fr|fr|fr|fr|fr|fr|fr]; try discriminate Hb;
    cbn [controlFrame_write] in Hc; cbn [checkedStreamId] in Hsid;
    cbn [frameHeaders] in block.
  - destruct (writeSynStreamFrame f fr) as [[f1 fr1] e1] eqn:Hs.
    injection Hc as <- _ <-. unfold writeSynStreamFrame in Hs.
    destruct (Z.eqb_spec (SynStreamFrame.StreamId fr) 0) as [E|_];
      [congruence|].
    rewrite marshalHeaders_plain in Hs by exact Hd.
    destruct e1 as [err|].
    + apply finish_write_inv in Hs as (_ & _ & ->). reflexivity.
    + pose proof (finish_write_inv _ _ _ _ _ _ _ Hs) as (_ & _ & ->).
      split; [reflexivity|].
      eapply finish_write_ok in Hs as [Hs _]; [|auto 10 with sink].
      rewrite !app_assoc in Hs. rewrite Hs. eexists. reflexivity.
  - destruct (writeSynReplyFrame f fr) as [[f1 fr1] e1] eqn:Hs.
    injection Hc as <- _ <-. unfold writeSynReplyFrame in Hs.
    destruct (Z.eqb_spec (SynReplyFrame.StreamId fr) 0) as [E|_];
      [congruence|].
    rewrite marshalHeaders_plain in Hs by exact Hd.
    destruct e1 as [err|].
    + apply finish_write_inv in Hs as (_ & _ & ->). reflexivity.
    + pose proof (finish_write_inv _ _ _ _ _ _ _ Hs) as (_ & _ & ->).
      split; [reflexivity|].
      eapply finish_write_ok in Hs as [Hs _]; [|auto 10 with sink].
      rewrite !app_assoc in Hs. rewrite Hs. eexists. reflexivity.
  - destruct (writeHeadersFrame f fr) as [[f1 fr1] e1] eqn:Hs.
    injection Hc as <- _ <-. unfold writeHeadersFrame in Hs.
    destruct (Z.eqb_spec (HeadersFrame.StreamId fr) 0) as [E|_];
      [congruence|].
    rewrite marshalHeaders_plain in Hs by exact Hd.
    destruct e1 as [err|].
    + apply finish_write_inv in Hs as (_ & _ & ->). reflexivity.
    + pose proof (finish_write_inv _ _ _ _ _ _ _ Hs) as (_ & _ & ->).
      split; [reflexivity|].
      eapply finish_write_ok in Hs as [Hs _]; [|auto 10 with sink].
      rewrite !app_assoc in Hs. rewrite Hs. eexists. reflexivity.
Qed.

End WriteResults.

(** ** Round trips, frame by frame *)
Section RoundTrips.
Context {zlib : Zlib} {order : MapOrder}.

(** X1: RST_STREAM round trip.  For a stream id and a status other than 0
    (any 32-bit values, the reserved top bit of the stream id included),
    [WriteFrame] appends the header [80 03 00 03 00 00 00 08], the stream
    id and the status to a sink that never fails, and [ReadFrame] on these
    bytes returns the frame as the writer left it, stopping after them. *)
Theorem RstStream_round_trip :
  ∀ (f g : Framer) (out rest : list byte) (cfh : ControlFrameHeader.t)
    (sid st : Z),
    w f = mkWriter out None → 0 < sid < 2 ^ 32 → 0 < st < 2 ^ 32 →
    let written_frame :=
      CRstStream (RstStreamFrame.mk (ControlFrameHeader.mk 3 0x0003 0 8)
                    sid st) in
    let wire := [x80; x03; x00; x03; x00; x00; x00; x08] ++
                putUint32 sid ++ putUint32 st in
    WriteFrame f (CRstStream (RstStreamFrame.mk cfh sid st))
    = (set_w f (mkWriter (out ++ wire) None), Control written_frame, None)
    ∧ (r g = wire ++ rest →
       ReadFrame g = (set_r g rest, inl (Control written_frame))).
Proof.
  intros f g out rest cfh sid st Hw Hsid Hst written_frame wire. split.
  - apply (WriteFrame_RstStream f out cfh sid st Hw); lia.
  - intros Hr. apply (ReadFrame_RstStream g sid st rest Hr); lia.
Qed.

(** X2: PING round trip for every id other than 0. *)
Theorem Ping_round_trip :
  ∀ (f g : Framer) (out rest : list byte) (cfh : ControlFrameHeader.t)
    (id : Z),
    w f = mkWriter out None → 0 < id < 2 ^ 32 →
    let written_frame :=
      CPing (PingFrame.mk (ControlFrameHeader.mk 3 0x0006 0 4) id) in
    let wire := [x80; x03; x00; x06; x00; x00; x00; x04] ++ putUint32 id in
    WriteFrame f (CPing (PingFrame.mk cfh id))
    = (set_w f (mkWriter (out ++ wire) None), Control written_frame, None)
    ∧ (r g = wire ++ rest →
       ReadFrame g = (set_r g rest, inl (Control written_frame))).
Proof.
  intros f g out rest cfh id Hw Hid written_frame wire. split.
  - apply (WriteFrame_Ping f out cfh id Hw); lia.
  - intros Hr. apply (ReadFrame_Ping g id rest Hr); lia.
Qed.

(** X3: GOAWAY round trip, for any 32-bit last good stream id and status;
    the flags of the caller are replaced by 0. *)
Theorem GoAway_round_trip :
  ∀ (f g : Framer) (out rest : list byte) (cfh : ControlFrameHeader.t)
    (last st : Z),
    w f = mkWriter out None → 0 ≤ last < 2 ^ 32 → 0 ≤ st < 2 ^ 32 →
    let written_frame :=
      CGoAway (GoAwayFrame.mk (ControlFrameHeader.mk 3 0x0007 0 8) last st) in
    let wire := [x80; x03; x00; x07; x00; x00; x00; x08] ++
                putUint32 last ++ putUint32 st in
    WriteFrame f (CGoAway (GoAwayFrame.mk cfh last st))
    = (set_w f (mkWriter (out ++ wire) None), Control written_frame, None)
    ∧ (r g = wire ++ rest →
       ReadFrame g = (set_r g rest, inl (Control written_frame))).
Proof.
  intros f g out rest cfh last st Hw Hlast Hst written_frame wire. split.
  - apply (WriteFrame_GoAway f out cfh last st Hw).
  - intros Hr. apply (ReadFrame_GoAway g last st rest Hr); lia.
Qed.

(** X4: WINDOW_UPDATE round trip, for any 32-bit stream id (0 included)
    and delta (0 and values above [2^31 - 1] included). *)
Theorem WindowUpdate_round_trip :
  ∀ (f g : Framer) (out rest : list byte) (cfh : ControlFrameHeader.t)
    (sid delta : Z),
    w f = mkWriter out None → 0 ≤ sid < 2 ^ 32 → 0 ≤ delta < 2 ^ 32 →
    let written_frame :=
      CWindowUpdate
        (WindowUpdateFrame.mk (ControlFrameHeader.mk 3 0x0009 0 8)
           sid delta) in
    let wire := [x80; x03; x00; x09; x00; x00; x00; x08] ++
                putUint32 sid ++ putUint32 delta in
    WriteFrame f (CWindowUpdate (WindowUpdateFrame.mk cfh sid delta))
    = (set_w f (mkWriter (out ++ wire) None), Control written_frame, None)
    ∧ (r g = wire ++ rest →
       ReadFrame g = (set_r g rest, inl (Control written_frame))).
Proof.
  intros f g out rest cfh sid delta Hw Hsid Hdelta written_frame wire. split.
  - apply (WriteFrame_WindowUpdate f out cfh sid delta Hw).
  - intros Hr. apply (ReadFrame_WindowUpdate g sid delta rest Hr); lia.
Qed.

(** X5: SETTINGS round trip.  When the flags fit 8 bits, each entry has an
    8-bit flag, a 24-bit id and a 32-bit value, and the payload size
    [8 * count + 4] fits the 24-bit length field, [WriteFrame] emits the
    header, the count and per entry the word [flag << 24 | id] and the
    value, and [ReadFrame] on these bytes returns the same entries in the
    same order, with the header the writer left. *)
Theorem Settings_round_trip :
  ∀ (f g : Framer) (out rest : list byte) (cfh : ControlFrameHeader.t)
    (l : list SettingsFlagIdValue.t),
    w f = mkWriter out None →
    0 ≤ ControlFrameHeader.Flags cfh < 2 ^ 8 →
    len l * 8 + 4 < 2 ^ 24 →
    Forall wireFlagIdValue l →
    let h := ControlFrameHeader.mk 3 0x0004 (ControlFrameHeader.Flags cfh)
               (len l * 8 + 4) in
    let wire := controlFrameHeaderBytes h ++ putUint32 (len l) ++
                flagIdValuesBytes l in
    WriteFrame f (CSettings (SettingsFrame.mk cfh l))
    = (set_w f (mkWriter (out ++ wire) None),
       Control (CSettings (SettingsFrame.mk h l)), None)
    ∧ (r g = wire ++ rest →
       ReadFrame g
       = (set_r g rest, inl (Control (CSettings (SettingsFrame.mk h l))))).
Proof.
  intros f g out rest cfh l Hw Hfl Hlen Hl h wire.
  pose proof (len_nonneg l) as Hpos.
  pose proof (WriteFrame_Settings f out cfh l Hw) as Hwrite.
  pose proof (ReadFrame_Settings g (ControlFrameHeader.Flags cfh) l rest)
    as Hread.
  cbv zeta in Hwrite, Hread.
  rewrite !uint32_small in Hwrite, Hread by lia.
  split; [exact Hwrite|]. intros Hr. now apply Hread.
Qed.

(** X6: DATA round trip.  For a 31-bit stream id other than 0, 8-bit flags
    and fewer than [2^24] payload bytes, [WriteFrame] emits the stream id,
    the word [flags << 24 | length] and the payload, and [ReadFrame] on
    these bytes returns the same frame. *)
Theorem Data_round_trip :
  ∀ (f g : Framer) (out rest : list byte) (sid flags : Z)
    (data : list byte),
    w f = mkWriter out None →
    0 < sid < 2 ^ 31 → 0 ≤ flags < 2 ^ 8 → len data < 2 ^ 24 →
    let frame := DataFrame.mk sid flags data in
    let wire := putUint32 sid ++ putUint32 (flags * 2 ^ 24 + len data) ++
                data in
    WriteFrame f (Data frame)
    = (set_w f (mkWriter (out ++ wire) None), Data frame, None)
    ∧ (r g = wire ++ rest → ReadFrame g = (set_r g rest, inl (Data frame))).
Proof.
  intros f g out rest sid flags data Hw Hsid Hfl Hlen frame wire.
  pose proof (len_nonneg data) as Hpos.
  pose proof (WriteFrame_Data f out sid flags data Hw) as Hwrite.
  pose proof (ReadFrame_Data g sid flags data rest) as Hread.
  rewrite (uint32_small (len data)), packed_word in Hwrite, Hread by lia.
  split.
  - apply Hwrite; [lia|apply land_top_bit_small; lia|lia].
  - intros Hr. now apply Hread.
Qed.

(** X8: SYN_REPLY round trip, header compression off and the scratch buffer
    empty.  For a stream id other than 0, 8-bit flags, a header map whose
    entries survive the round trip, none under a name banned in replies,
    and a payload that fits the length field, [WriteFrame] emits the
    header, the stream id and the serialized map, and leaves the framer as
    it was but for the sink; [ReadFrame] on these bytes returns the frame
    the writer left, with the names of the map in canonical form. *)
Theorem SynReply_round_trip :
  ∀ (f g : Framer) (out rest : list byte) (cfh : ControlFrameHeader.t)
    (sid : Z) (h : Header),
    headerCompressionDisabled f = true → headerBuf f = [] →
    w f = mkWriter out None →
    headerCompressionDisabled g = true →
    0 ≤ ControlFrameHeader.Flags cfh < 2 ^ 8 → 0 < sid < 2 ^ 32 →
    len (serializedHeaders h) + 4 < 2 ^ 24 →
    roundTripHeaders invalidRespHeaders h →
    let hd := ControlFrameHeader.mk 3 0x0002 (ControlFrameHeader.Flags cfh)
                (len (serializedHeaders h) + 4) in
    let wire := controlFrameHeaderBytes hd ++ putUint32 sid ++
                serializedHeaders h in
    WriteFrame f (CSynReply (SynReplyFrame.mk cfh sid h))
    = (set_w f (mkWriter (out ++ wire) None),
       Control (CSynReply (SynReplyFrame.mk hd sid h)), None)
    ∧ (r g = wire ++ rest →
       ReadFrame g
       = (set_r g rest,
          inl (Control (CSynReply
                          (SynReplyFrame.mk hd sid (canonicalHeader h)))))).
Proof.
  intros f g out rest cfh sid h Hd Hb Hw Hg Hfl Hsid Hlen [Hgood Hban]
    hd wire.
  pose proof (len_nonneg (serializedHeaders h)) as Hpos.
  pose proof (WriteFrame_SynReply f out cfh sid h Hd Hw) as Hwrite.
  pose proof (ReadFrame_SynReply g (ControlFrameHeader.Flags cfh) sid h rest)
    as Hread.
  cbv zeta in Hwrite, Hread. rewrite Hb in Hwrite. cbn [app] in Hwrite.
  rewrite !uint32_small in Hwrite, Hread by lia.
  rewrite set_headerBuf_nil in Hwrite by exact Hb.
  split; [apply Hwrite; lia|]. intros Hr. now apply Hread.
Qed.

(** X9: HEADERS round trip, header compression off and the scratch buffer
    empty; the banned names are those of requests on even stream ids and
    those of replies on odd ones. *)
Theorem Headers_round_trip :
  ∀ (f g : Framer) (out rest : list byte) (cfh : ControlFrameHeader.t)
    (sid : Z) (h : Header),
    headerCompressionDisabled f = true → headerBuf f = [] →
    w f = mkWriter out None →
    headerCompressionDisabled g = true →
    0 ≤ ControlFrameHeader.Flags cfh < 2 ^ 8 → 0 < sid < 2 ^ 32 →
    len (serializedHeaders h) + 4 < 2 ^ 24 →
    roundTripHeaders
      (if sid mod 2 =? 0 then invalidReqHeaders else invalidRespHeaders) h →
    let hd := ControlFrameHeader.mk 3 0x0008 (ControlFrameHeader.Flags cfh)
                (len (serializedHeaders h) + 4) in
    let wire := controlFrameHeaderBytes hd ++ putUint32 sid ++
                serializedHeaders h in
    WriteFrame f (CHeaders (HeadersFrame.mk cfh sid h))
    = (set_w f (mkWriter (out ++ wire) None),
       Control (CHeaders (HeadersFrame.mk hd sid h)), None)
    ∧ (r g = wire ++ rest →
       ReadFrame g
       = (set_r g rest,
          inl (Control (CHeaders
                          (HeadersFrame.mk hd sid (canonicalHeader h)))))).
Proof.
  intros f g out rest cfh sid h Hd Hb Hw Hg Hfl Hsid Hlen [Hgood Hban]
    hd wire.
  pose proof (len_nonneg (serializedHeaders h)) as Hpos.
  pose proof (WriteFrame_Headers f out cfh sid h Hd Hw) as Hwrite.
  pose proof (ReadFrame_Headers g (ControlFrameHeader.Flags cfh) sid h rest)
    as Hread.
  cbv zeta in Hwrite, Hread. rewrite Hb in Hwrite. cbn [app] in Hwrite.
  rewrite !uint32_small in Hwrite, Hread by lia.
  rewrite set_headerBuf_nil in Hwrite by exact Hb.
  split; [apply Hwrite; lia|]. intros Hr. now apply Hread.
Qed.

(** X7: SYN_STREAM round trip, header compression off and the scratch
    buffer empty: the stream id, the associated stream id, the priority
    (0 to 7, in the top three bits of its byte), the slot and the header
    map come back as written, the names of the map in canonical form. *)
Theorem SynStream_round_trip :
  ∀ (f g : Framer) (out rest : list byte) (cfh : ControlFrameHeader.t)
    (sid assoc pri slot : Z) (h : Header),
    headerCompressionDisabled f = true → headerBuf f = [] →
    w f = mkWriter out None →
    headerCompressionDisabled g = true →
    0 ≤ ControlFrameHeader.Flags cfh < 2 ^ 8 → 0 < sid < 2 ^ 32 →
    0 ≤ assoc < 2 ^ 32 → 0 ≤ pri ≤ 7 → 0 ≤ slot < 2 ^ 8 →
    len (serializedHeaders h) + 10 < 2 ^ 24 →
    roundTripHeaders invalidReqHeaders h →
    let hd := ControlFrameHeader.mk 3 0x0001 (ControlFrameHeader.Flags cfh)
                (len (serializedHeaders h) + 10) in
    let wire := controlFrameHeaderBytes hd ++ putUint32 sid ++
                putUint32 assoc ++ [byte_of_Z (pri * 32); byte_of_Z slot] ++
                serializedHeaders h in
    WriteFrame f (CSynStream (SynStreamFrame.mk cfh sid assoc pri slot h))
    = (set_w f (mkWriter (out ++ wire) None),
       Control (CSynStream (SynStreamFrame.mk hd sid assoc pri slot h)),
       None)
    ∧ (r g = wire ++ rest →
       ReadFrame g
       = (set_r g rest,
          inl (Control (CSynStream
                          (SynStreamFrame.mk hd sid assoc pri slot
                             (canonicalHeader h)))))).
Proof.
  intros f g out rest cfh sid assoc pri slot h Hd Hb Hw Hg Hfl Hsid Hassoc
    Hpri Hslot Hlen [Hgood Hban] hd wire.
  pose proof (len_nonneg (serializedHeaders h)) as Hpos.
  pose proof (WriteFrame_SynStream f out cfh sid assoc pri slot h Hd Hw)
    as Hwrite.
  pose proof (ReadFrame_SynStream g (ControlFrameHeader.Flags cfh) sid assoc
                pri slot h rest) as Hread.
  cbv zeta in Hwrite, Hread. rewrite Hb in Hwrite. cbn [app] in Hwrite, Hread.
  rewrite !uint32_small in Hwrite, Hread by lia.
  rewrite set_headerBuf_nil in Hwrite by exact Hb.
  assert (Hbyte : uint8 (Z.shiftl pri 5) = pri * 32).
  { unfold uint8. rewrite Z.shiftl_mul_pow2 by lia. change (2 ^ 5) with 32.
    apply Z.mod_small. lia. }
  rewrite Hbyte in Hwrite, Hread.
  split; [apply Hwrite; lia|]. intros Hr. now apply Hread.
Qed.

(** X23: a RST_STREAM value with status 0 and a stream id other than 0 is
    refused with [InvalidControlFrame] only after the header and the
    stream id have been written: twelve bytes of a frame that is never
    completed are on the sink when the error is returned. *)
Theorem RstStream_status_zero_partial_write :
  ∀ (f : Framer) (out : list byte) (cfh : ControlFrameHeader.t) (sid : Z),
    w f = mkWriter out None → sid ≠ 0 →
    WriteFrame f (CRstStream (RstStreamFrame.mk cfh sid 0))
    = (set_w f
         (mkWriter (out ++ [x80; x03; x00; x03; x00; x00; x00; x08] ++
                    putUint32 sid) None),
       Control (CRstStream
                  (RstStreamFrame.mk (ControlFrameHeader.mk 3 0x0003 0 8)
                     sid 0)),
       Some (SpdyError (mkError InvalidControlFrame sid))).
Proof.
  intros f out cfh sid Hw Hsid. cbn [WriteFrame controlFrame_write].
  unfold RstStreamFrame_write.
  cbn [RstStreamFrame.StreamId RstStreamFrame.Status RstStreamFrame.CFHeader].
  apply Z.eqb_neq in Hsid. rewrite Hsid. cbn [Z.eqb].
  rewrite Hw. unfold sink_seq at 1.
  rewrite (runs_writeControlFrameHeader _ out). unfold sink_seq.
  rewrite (runs_binary_Write32 sid). unfold sink_fail, finish_write.
  rewrite <- app_assoc. reflexivity.
Qed.

End RoundTrips.

Section RoundTripExamples.
#[local] Existing Instance storedZlib.
#[local] Existing Instance keyOrder.

(** X1 (witness). *)
Lemma RstStream_round_trip_witness :
  ReadFrame
    (plainFramer (mkWriter [] None)
       [x80; x03; x00; x03; x00; x00; x00; x08;
        x00; x00; x00; x01; x00; x00; x00; x05])
  = (plainFramer (mkWriter [] None) [],
     inl (Control (CRstStream
                     (RstStreamFrame.mk (ControlFrameHeader.mk 3 3 0 8)
                        1 5)))).
Proof.
  refine (proj2 (RstStream_round_trip (plainFramer (mkWriter [] None) [])
                   (plainFramer (mkWriter [] None) _) [] []
                   ControlFrameHeader.zero 1 5 eq_refl _ _) eq_refl); lia.
Defined.

(** X23 (witness). *)
Lemma RstStream_status_zero_partial_write_witness :
  WriteFrame (plainFramer (mkWriter [] None) [])
    (CRstStream (RstStreamFrame.mk ControlFrameHeader.zero 1 0))
  = (plainFramer
       (mkWriter [x80; x03; x00; x03; x00; x00; x00; x08;
                  x00; x00; x00; x01] None) [],
     Control (CRstStream
                (RstStreamFrame.mk (ControlFrameHeader.mk 3 3 0 8) 1 0)),
     Some (SpdyError (mkError InvalidControlFrame 1))).
Proof.
  refine (RstStream_status_zero_partial_write
            (plainFramer (mkWriter [] None) []) [] ControlFrameHeader.zero 1
            eq_refl _).
  discriminate.
Defined.

(** X2 (witness). *)
Lemma Ping_round_trip_witness :
  ReadFrame
    (plainFramer (mkWriter [] None)
       [x80; x03; x00; x06; x00; x00; x00; x04; x00; x00; x01; x00])
  = (plainFramer (mkWriter [] None) [],
     inl (Control (CPing (PingFrame.mk (ControlFrameHeader.mk 3 6 0 4)
                            256)))).
Proof.
  refine (proj2 (Ping_round_trip (plainFramer (mkWriter [] None) [])
                   (plainFramer (mkWriter [] None) _) [] []
                   ControlFrameHeader.zero 256 eq_refl _) eq_refl); lia.
Defined.

(** X3 (witness). *)
Lemma GoAway_round_trip_witness :
  ReadFrame
    (plainFramer (mkWriter [] None)
       [x80; x03; x00; x07; x00; x00; x00; x08;
        x00; x00; x00; x07; x00; x00; x00; x01])
  = (plainFramer (mkWriter [] None) [],
     inl (Control (CGoAway
                     (GoAwayFrame.mk (ControlFrameHeader.mk 3 7 0 8) 7 1)))).
Proof.
  refine (proj2 (GoAway_round_trip (plainFramer (mkWriter [] None) [])
                   (plainFramer (mkWriter [] None) _) [] []
                   ControlFrameHeader.zero 7 1 eq_refl _ _) eq_refl); lia.
Defined.

(** X4 (witness). *)
Lemma WindowUpdate_round_trip_witness :
  ReadFrame
    (plainFramer (mkWriter [] None)
       [x80; x03; x00; x09; x00; x00; x00; x08;
        x00; x00; x00; x03; x00; x01; x00; x00])
  = (plainFramer (mkWriter [] None) [],
     inl (Control (CWindowUpdate
                     (WindowUpdateFrame.mk (ControlFrameHeader.mk 3 9 0 8)
                        3 65536)))).
Proof.
  refine (proj2 (WindowUpdate_round_trip (plainFramer (mkWriter [] None) [])
                   (plainFramer (mkWriter [] None) _) [] []
                   ControlFrameHeader.zero 3 65536 eq_refl _ _) eq_refl); lia.
Defined.

(** X5 (witness). *)
Lemma Settings_round_trip_witness :
  ReadFrame
    (plainFramer (mkWriter [] None)
       [x80; x03; x00; x04; x00; x00; x00; x0c; x00; x00; x00; x01;
        x01; x00; x00; x04; x00; x00; x00; x64])
  = (plainFramer (mkWriter [] None) [],
     inl (Control (CSettings
                     (SettingsFrame.mk (ControlFrameHeader.mk 3 4 0 12)
                        [SettingsFlagIdValue.mk 1 4 100])))).
Proof.
  refine (proj2 (Settings_round_trip (plainFramer (mkWriter [] None) [])
                   (plainFramer (mkWriter [] None) _) [] []
                   ControlFrameHeader.zero [SettingsFlagIdValue.mk 1 4 100]
                   eq_refl _ _ _) eq_refl).
  - cbn. lia.
  - vm_compute. reflexivity.
  - repeat constructor; cbn; lia.
Defined.

(** X6 (witness). *)
Lemma Data_round_trip_witness :
  ReadFrame
    (plainFramer (mkWriter [] None)
       [x00; x00; x00; x01; x01; x00; x00; x02; x68; x69])
  = (plainFramer (mkWriter [] None) [],
     inl (Data (DataFrame.mk 1 1 [x68; x69]))).
Proof.
  refine (proj2 (Data_round_trip (plainFramer (mkWriter [] None) [])
                   (plainFramer (mkWriter [] None) _) [] []
                   1 1 [x68; x69] eq_refl _ _ _) eq_refl);
    [lia|lia|vm_compute; reflexivity].
Defined.

Lemma statusHeaders_roundTrip (invalid : gset string) :
  hasInvalidHeader invalid (canonicalHeader statusHeaders) = false →
  roundTripHeaders invalid statusHeaders.
Proof.
  intros H. split; [|exact H]. unfold statusHeaders.
  intros name values E. apply lookup_singleton_Some in E as [<- <-].
  repeat split; try reflexivity; [discriminate|repeat constructor].
Defined.

(** X8 (witness). *)
Lemma SynReply_round_trip_witness :
  ReadFrame (plainFramer (mkWriter [] None) synReplyWire)
  = (plainFramer (mkWriter [] None) [],
     inl (Control (CSynReply
                     (SynReplyFrame.mk (ControlFrameHeader.mk 3 2 0 26) 1
                        statusHeaders)))).
Proof.
  assert (Hflags : 0 ≤ ControlFrameHeader.Flags ControlFrameHeader.zero
                   < 2 ^ 8) by (cbn; lia).
  assert (Hlen : len (serializedHeaders statusHeaders) + 4 < 2 ^ 24)
    by (vm_compute; reflexivity).
  assert (Hh : roundTripHeaders invalidRespHeaders statusHeaders)
    by (apply statusHeaders_roundTrip; vm_compute; reflexivity).
  pose proof
    (SynReply_round_trip (plainFramer (mkWriter [] None) [])
       (plainFramer (mkWriter [] None) synReplyWire) [] []
       ControlFrameHeader.zero 1 statusHeaders
       eq_refl eq_refl eq_refl eq_refl Hflags ltac:(lia) Hlen Hh) as H.
  cbv zeta in H. destruct H as [_ H].
  rewrite H by (vm_compute; reflexivity). vm_compute. reflexivity.
Defined.

(** X9 (witness). *)
Lemma Headers_round_trip_witness :
  ReadFrame
    (plainFramer (mkWriter [] None)
       ([x80; x03; x00; x08; x00; x00; x00; x1a; x00; x00; x00; x02] ++
        serializedHeaders statusHeaders))
  = (plainFramer (mkWriter [] None) [],
     inl (Control (CHeaders
                     (HeadersFrame.mk (ControlFrameHeader.mk 3 8 0 26) 2
                        statusHeaders)))).
Proof.
  assert (Hflags : 0 ≤ ControlFrameHeader.Flags ControlFrameHeader.zero
                   < 2 ^ 8) by (cbn; lia).
  assert (Hlen : len (serializedHeaders statusHeaders) + 4 < 2 ^ 24)
    by (vm_compute; reflexivity).
  assert (Hh : roundTripHeaders
                 (if 2 mod 2 =? 0 then invalidReqHeaders
                  else invalidRespHeaders) statusHeaders)
    by (apply statusHeaders_roundTrip; vm_compute; reflexivity).
  pose proof
    (Headers_round_trip (plainFramer (mkWriter [] None) [])
       (plainFramer (mkWriter [] None)
          ([x80; x03; x00; x08; x00; x00; x00; x1a; x00; x00; x00; x02] ++
           serializedHeaders statusHeaders))
       [] [] ControlFrameHeader.zero 2 statusHeaders
       eq_refl eq_refl eq_refl eq_refl Hflags ltac:(lia) Hlen Hh) as H.
  cbv zeta in H. destruct H as [_ H].
  rewrite H by (vm_compute; reflexivity). vm_compute. reflexivity.
Defined.

(** X7 (witness). *)
Lemma SynStream_round_trip_witness :
  ReadFrame
    (plainFramer (mkWriter [] None)
       ([x80; x03; x00; x01; x00; x00; x00; x20; x00; x00; x00; x01;
         x00; x00; x00; x00; x60; x00] ++
        serializedHeaders statusHeaders))
  = (plainFramer (mkWriter [] None) [],
     inl (Control (CSynStream
                     (SynStreamFrame.mk (ControlFrameHeader.mk 3 1 0 32) 1 0
                        3 0 statusHeaders)))).
Proof.
  assert (Hflags : 0 ≤ ControlFrameHeader.Flags ControlFrameHeader.zero
                   < 2 ^ 8) by (cbn; lia).
  assert (Hlen : len (serializedHeaders statusHeaders) + 10 < 2 ^ 24)
    by (vm_compute; reflexivity).
  assert (Hh : roundTripHeaders invalidReqHeaders statusHeaders)
    by (apply statusHeaders_roundTrip; vm_compute; reflexivity).
  pose proof
    (SynStream_round_trip (plainFramer (mkWriter [] None) [])
       (plainFramer (mkWriter [] None)
          ([x80; x03; x00; x01; x00; x00; x00; x20; x00; x00; x00; x01;
            x00; x00; x00; x00; x60; x00] ++
           serializedHeaders statusHeaders))
       [] [] ControlFrameHeader.zero 1 0 3 0 statusHeaders
       eq_refl eq_refl eq_refl eq_refl Hflags ltac:(lia) ltac:(lia)
       ltac:(lia) ltac:(lia) Hlen Hh) as H.
  cbv zeta in H. destruct H as [_ H].
  rewrite H by (vm_compute; reflexivity). vm_compute. reflexivity.
Defined.


(** X10 (witness). *)
Lemma frames_round_trip_witness :
  ∃ wire frames',
    WriteFrames (plainFramer (mkWriter [] None) [])
      [Control (CPing (PingFrame.mk ControlFrameHeader.zero 1));
       Control (CSynReply synReplyExample);
       Data (DataFrame.mk 1 1 [x68; x69])]
    = (plainFramer (mkWriter ([] ++ wire) None) [], frames', None)
    ∧ ReadFrames 3 (plainFramer (mkWriter [] None) (wire ++ []))
      = (plainFramer (mkWriter [] None) [],
         inl (canonicalFrame <$> frames')).
Proof.
  assert (Hok : Forall roundTripFrame
                  [Control (CPing (PingFrame.mk ControlFrameHeader.zero 1));
                   Control (CSynReply synReplyExample);
                   Data (DataFrame.mk 1 1 [x68; x69])]).
  { apply Forall_cons. split; [cbn; lia|].
    apply Forall_cons. split.
    - unfold synReplyExample, roundTripFrame.
      cbn [SynReplyFrame.CFHeader SynReplyFrame.StreamId
             SynReplyFrame.Headers].
      split; [cbn; lia|]. split; [lia|].
      split; [vm_compute; reflexivity|].
      apply statusHeaders_roundTrip. vm_compute. reflexivity.
    - apply Forall_cons. split; [|constructor].
      cbn [roundTripFrame DataFrame.StreamId DataFrame.Flags DataFrame.Data].
      split; [lia|]. split; [lia|]. vm_compute. reflexivity. }
  destruct (frames_round_trip _ (plainFramer (mkWriter [] None) []) []
              eq_refl eq_refl eq_refl Hok) as (wire & frames' & Hw & Hr).
  exists wire, frames'. split; [exact Hw|].
  exact (Hr (plainFramer (mkWriter [] None) (wire ++ [])) [] eq_refl eq_refl).
Defined.

(** X11 (witness). *)
Lemma Ping_read_spec_witness :
  ReadFrame
    (plainFramer (mkWriter [] None)
       [x80; x03; x00; x06; x01; x00; x00; x04; x00; x00; x00; x07])
  = (plainFramer (mkWriter [] None) [],
     inr (SpdyError (mkError InvalidControlFrame 7))).
Proof.
  refine (Ping_read_spec (plainFramer (mkWriter [] None) _)
            (ControlFrameHeader.mk 3 6 1 4) 7 [] eq_refl eq_refl _ _ _ _);
    cbn; lia.
Defined.

(** X12 (witness). *)
Lemma RstStream_read_spec_witness :
  ReadFrame
    (plainFramer (mkWriter [] None)
       [x80; x03; x00; x03; x00; x00; x00; x08;
        x00; x00; x00; x00; x00; x00; x00; x00])
  = (plainFramer (mkWriter [] None) [],
     inr (SpdyError (mkError InvalidControlFrame 0))).
Proof.
  refine (RstStream_read_spec (plainFramer (mkWriter [] None) _)
            (ControlFrameHeader.mk 3 3 0 8) 0 0 [] eq_refl eq_refl
            _ _ _ _ _);
    cbn; lia.
Defined.

(** X13 (witness). *)
Lemma GoAway_read_spec_witness :
  ReadFrame
    (plainFramer (mkWriter [] None)
       [x80; x03; x00; x07; x00; x00; x00; x04;
        x00; x00; x00; x07; x00; x00; x00; x01])
  = (plainFramer (mkWriter [] None) [x00; x00; x00; x01],
     inr (SpdyError (mkError InvalidControlFrame 7))).
Proof.
  refine (proj1 (GoAway_read_spec (plainFramer (mkWriter [] None) _)
                   (ControlFrameHeader.mk 3 7 0 4) 7 [x00; x00; x00; x01]
                   eq_refl eq_refl _ _ _ _) _);
    cbn; lia.
Defined.

(** X14 (witness). *)
Lemma WindowUpdate_read_spec_witness :
  ReadFrame
    (plainFramer (mkWriter [] None)
       [x80; x03; x00; x09; x00; x00; x00; x08;
        x00; x00; x00; x00; x00; x00; x00; x01])
  = (plainFramer (mkWriter [] None) [],
     inl (Control (CWindowUpdate
                     (WindowUpdateFrame.mk (ControlFrameHeader.mk 3 9 0 8)
                        0 1)))).
Proof.
  refine (proj2 (WindowUpdate_read_spec (plainFramer (mkWriter [] None) _)
                   (ControlFrameHeader.mk 3 9 0 8) 0 [x00; x00; x00; x01]
                   eq_refl eq_refl _ _ _ _) eq_refl eq_refl 1 [] eq_refl _);
    cbn; lia.
Defined.

(** X15 (witness). *)
Lemma Settings_read_spec_witness :
  ReadFrame
    (plainFramer (mkWriter [] None)
       [x80; x03; x00; x04; x00; x00; x00; x00; x00; x00; x00; x01;
        x01; x00; x00; x04; x00; x00; x00; x64])
  = (plainFramer (mkWriter [] None) [],
     inl (Control (CSettings
                     (SettingsFrame.mk (ControlFrameHeader.mk 3 4 0 0)
                        [SettingsFlagIdValue.mk 1 4 100])))).
Proof.
  refine (Settings_read_spec (plainFramer (mkWriter [] None) _)
            (ControlFrameHeader.mk 3 4 0 0) [SettingsFlagIdValue.mk 1 4 100]
            [] eq_refl eq_refl _ _ _ _ _);
    try (cbn; lia).
  - vm_compute. reflexivity.
  - repeat constructor; cbn; lia.
Defined.

(** X16 (witness). *)
Lemma ReadFrame_truncated_witness :
  ReadFrame (plainFramer (mkWriter [] None) [x80; x03; x00; x06])
  = (plainFramer (mkWriter [] None) [], inr (IoError EOF)).
Proof.
  destruct (ReadFrame_truncated
              (plainFramer (mkWriter [] None) [x80; x03; x00; x06]))
    as (_ & _ & H & _).
  exact (H eq_refl).
Defined.

(** X17 (witness). *)
Lemma ReadFrame_headers_canonical_witness :
  canonicalEntries (canonicalHeader statusHeaders).
Proof.
  refine (ReadFrame_headers_canonical
            (plainFramer (mkWriter [] None) synReplyWire)
            (plainFramer (mkWriter [] None) [])
            (CSynReply (SynReplyFrame.mk (ControlFrameHeader.mk 3 2 0 26) 1
                          (canonicalHeader statusHeaders))) _).
  vm_compute. reflexivity.
Defined.

(** X18 (witness). *)
Lemma ReadFrame_no_banned_name_witness :
  canonicalHeader statusHeaders !! "Connection"%string = None.
Proof.
  refine (ReadFrame_no_banned_name
            (plainFramer (mkWriter [] None) synReplyWire)
            (plainFramer (mkWriter [] None) [])
            (CSynReply (SynReplyFrame.mk (ControlFrameHeader.mk 3 2 0 26) 1
                          (canonicalHeader statusHeaders)))
            "Connection"%string _ _).
  - vm_compute. reflexivity.
  - cbn [bannedNames]. unfold invalidRespHeaders.
    apply elem_of_list_to_set. left.
Defined.

(** X19 (witness). *)
Lemma ReadFrame_compressed_payload_consumed_witness :
  headerReader_N (ReadFrame (storedFramer (mkWriter [] None) synReplyWire)).1
  = 0.
Proof.
  refine (ReadFrame_compressed_payload_consumed
            (storedFramer (mkWriter [] None) synReplyWire) _
            (CSynReply (SynReplyFrame.mk (ControlFrameHeader.mk 3 2 0 26) 1
                          (canonicalHeader statusHeaders)))
            eq_refl _ eq_refl).
  vm_compute. reflexivity.
Defined.

(** X20 (witness). *)
Lemma ReadFrame_wireRanges_witness :
  wireRanges (Control (CPing (PingFrame.mk (ControlFrameHeader.mk 3 6 0 4)
                                1))).
Proof.
  refine (ReadFrame_wireRanges (plainFramer (mkWriter [] None) pingWire)
            (plainFramer (mkWriter [] None) []) _ _).
  vm_compute. reflexivity.
Defined.

(** X21 (witness). *)
Lemma WriteFrame_stamps_header_witness :
  ControlFrameHeader.Flags
    (frameCFHeader
       (CGoAway (GoAwayFrame.mk (ControlFrameHeader.mk 3 7 0 8) 7 1))) = 0.
Proof.
  destruct WriteFrame_stamps_header as [H _].
  destruct (H (plainFramer (mkWriter [] None) [])
              (plainFramer
                 (mkWriter [x80; x03; x00; x07; x00; x00; x00; x08;
                            x00; x00; x00; x07; x00; x00; x00; x01] None) [])
              (CGoAway (GoAwayFrame.mk (ControlFrameHeader.mk 2 0 255 0) 7 1))
              (CGoAway (GoAwayFrame.mk (ControlFrameHeader.mk 3 7 0 8) 7 1))
              eq_refl) as (_ & _ & _ & Hflags & _).
  exact Hflags.
Defined.

(** X22 (witness). *)
Lemma scratch_buffer_after_write_witness :
  headerBuf
    (WriteFrame (plainFramer (mkWriter [] (Some 8)) [])
       (CSynReply synReplyExample)).1.1
  = [] ++ serializedHeaders statusHeaders.
Proof.
  pose (f := plainFramer (mkWriter [] (Some 8)) []).
  pose (wr := WriteFrame f (CSynReply synReplyExample)).
  assert (Hwr : WriteFrame f (Control (CSynReply synReplyExample))
                = (wr.1.1, wr.1.2, Some (IoError ErrClosedPipe)))
    by (vm_compute; reflexivity).
  assert (Hsid : checkedStreamId (Control (CSynReply synReplyExample))
                 ≠ Some 0) by discriminate.
  exact (scratch_buffer_after_write f wr.1.1 (CSynReply synReplyExample)
           wr.1.2 (Some (IoError ErrClosedPipe)) eq_refl eq_refl Hsid Hwr).
Defined.

End RoundTripExamples.

(** ** The two halves of a framer *)

Lemma suffix_dropZ {A} (n : Z) (l : list A) : dropZ n l `suffix_of` l.
Proof.
  revert n. induction l as [|x l IH]; intros n; cbn [dropZ]; [done|].
  destruct (n <=? 0); [done|]. apply suffix_cons_r, IH.
Qed.

Section Halves.
Context {zlib : Zlib} {order : MapOrder}.

Lemma reads_only_rret {A} (a : A) : reads_only (rret a).
Proof. intros f f' res [= <- _]. done. Qed.

Lemma reads_only_rfail {A} (e : error) : reads_only (rfail (A := A) e).
Proof. intros f f' res [= <- _]. done. Qed.

Lemma reads_only_rbind {A B} (c : reading Framer A)
    (k : A → reading Framer B) :
  reads_only c → (∀ a, reads_only (k a)) → reads_only (rbind c k).
Proof.
  intros Hc Hk f f' res. unfold rbind.
  destruct (c f) as [f1 [a|e]] eqn:E.
  - intros H. destruct (Hc _ _ _ E) as (S1 & W1 & B1 & C1 & D1).
    destruct (Hk a _ _ _ H) as (S2 & W2 & B2 & C2 & D2).
    repeat split; try congruence. now transitivity (r f1).
  - intros [= <- _]. eapply Hc, E.
Qed.

Lemma reads_only_Framer_Read (n : Z) : reads_only (Framer_Read n).
Proof.
  intros f f' res. unfold Framer_Read.
  destruct (bytes_Read n (r f)) as [src res'] eqn:E. intros [= <- _].
  repeat split. cbn [r set_r]. unfold bytes_Read in E.
  destruct (n <=? len (r f)).
  - injection E as <- _. apply suffix_dropZ.
  - destruct (r f); injection E as <- _; apply suffix_nil.
Qed.

Lemma reads_only_headerDecompressor_Read (n : Z) :
  reads_only (headerDecompressor_Read n).
Proof.
  intros f f' res. unfold headerDecompressor_Read.
  destruct (headerDecompressor f) as [z|]; [|intros [= <- _]; done].
  destruct (inflater_ReadFull _ _ _) as [[[z' out] c] e].
  intros [= <- _]. repeat split. apply suffix_dropZ.
Qed.

Lemma reads_only_io_ReadFull (Read : Z → reading Framer (list byte)) n :
  (∀ n, reads_only (Read n)) → reads_only (io_ReadFull Read n).
Proof.
  intros H. unfold io_ReadFull.
  destruct (n =? 0); [apply reads_only_rret|apply H].
Qed.

Lemma reads_only_binary_Read32 (Read : Z → reading Framer (list byte)) :
  (∀ n, reads_only (Read n)) → reads_only (binary_Read32 Read).
Proof.
  intros H. apply reads_only_rbind; [now apply reads_only_io_ReadFull|].
  intros a. apply reads_only_rret.
Qed.

Lemma reads_only_binary_Read8 (Read : Z → reading Framer (list byte)) :
  (∀ n, reads_only (Read n)) → reads_only (binary_Read8 Read).
Proof.
  intros H. apply reads_only_rbind; [now apply reads_only_io_ReadFull|].
  intros a. apply reads_only_rret.
Qed.

Lemma reads_only_parseHeaderEntries
    (Read : Z → reading Framer (list byte)) streamId count h e :
  (∀ n, reads_only (Read n)) →
  reads_only (parseHeaderEntries Read streamId count h e).
Proof.
  intros H. revert h e.
  induction count as [|count IH]; intros h e; cbn [parseHeaderEntries].
  - apply reads_only_rret.
  - repeat (apply reads_only_rbind;
            [first [now apply reads_only_binary_Read32
                   |now apply reads_only_io_ReadFull]|intros ?]).
    apply IH.
Qed.

Lemma reads_only_parseHeaderValueBlock
    (Read : Z → reading Framer (list byte)) streamId :
  (∀ n, reads_only (Read n)) →
  reads_only (parseHeaderValueBlock Read streamId).
Proof.
  intros H. apply reads_only_rbind; [now apply reads_only_binary_Read32|].
  intros a. now apply reads_only_parseHeaderEntries.
Qed.

Lemma reads_only_readHeaders payloadSize streamId :
  reads_only (readHeaders payloadSize streamId).
Proof.
  intros f f' res. unfold readHeaders.
  assert (Hu : ∀ f1 e1,
             (if headerCompressionDisabled f then (f, None)
              else uncorkHeaderDecompressor f payloadSize) = (f1, e1) →
             r f1 `suffix_of` r f
             ∧ w f1 = w f ∧ headerBuf f1 = headerBuf f
             ∧ headerCompressor f1 = headerCompressor f
             ∧ headerCompressionDisabled f1 = headerCompressionDisabled f).
  { intros f1 e1. destruct (headerCompressionDisabled f) eqn:Hd.
    - intros [= <- _]. done.
    - unfold uncorkHeaderDecompressor.
      destruct (headerDecompressor f); [intros [= <- _]; done|].
      destruct (NewReaderDict _) as [c [z|err]]; intros [= <- _];
        repeat split; auto; apply suffix_dropZ. }
  destruct (if headerCompressionDisabled f then _ else _)
    as [f1 [err|]] eqn:E.
  { intros [= <- _]. now apply (Hu f1 (Some err)). }
  destruct (Hu f1 None eq_refl) as (S1 & W1 & B1 & C1 & D1).
  destruct (parseHeaderValueBlock _ streamId f1) as [f2 res2] eqn:Hp.
  assert (Hr : reads_only
                 (parseHeaderValueBlock
                    (if headerCompressionDisabled f then Framer_Read
                     else headerDecompressor_Read) streamId)).
  { apply reads_only_parseHeaderValueBlock. intros n.
    destruct (headerCompressionDisabled f);
      [apply reads_only_Framer_Read|apply reads_only_headerDecompressor_Read]. }
  destruct (Hr _ _ _ Hp) as (S2 & W2 & B2 & C2 & D2).
  assert (Hall : r f2 `suffix_of` r f
                 ∧ w f2 = w f ∧ headerBuf f2 = headerBuf f
                 ∧ headerCompressor f2 = headerCompressor f
                 ∧ headerCompressionDisabled f2 = headerCompressionDisabled f).
  { repeat split; try congruence. now transitivity (r f1). }
  destruct (negb _ && _); [intros [= <- _]; exact Hall|].
  destruct res2 as [[h [x|]]|err]; cbn; intros [= <- _]; exact Hall.
Qed.

(** Every step of a reader only consumes input. *)
Ltac reads_only_auto :=
  repeat first
    [ apply reads_only_rret
    | apply reads_only_rfail
    | apply reads_only_binary_Read32; intros ?; apply reads_only_Framer_Read
    | apply reads_only_binary_Read8; intros ?; apply reads_only_Framer_Read
    | apply reads_only_io_ReadFull; intros ?; apply reads_only_Framer_Read
    | apply reads_only_readHeaders
    | apply reads_only_rbind; [|intros ?]
    | match goal with
      | |- reads_only (if ?b then _ else _) => destruct b
      end ].

Lemma reads_only_readFlagIdValues count :
  reads_only (readFlagIdValues count).
Proof.
  induction count as [|count IH]; cbn [readFlagIdValues]; reads_only_auto.
  apply IH.
Qed.

Lemma reads_only_controlFrame_read cframe h :
  reads_only (controlFrame_read cframe h).
Proof.
  destruct cframe; cbn [controlFrame_read];
    unfold readSynStreamFrame, readSynReplyFrame, readHeadersFrame,
      RstStreamFrame_read, SettingsFrame_read, PingFrame_read,
      GoAwayFrame_read, WindowUpdateFrame_read; reads_only_auto.
  apply reads_only_readFlagIdValues.
Qed.

Lemma reads_only_ReadFrame : reads_only ReadFrame.
Proof.
  unfold ReadFrame, parseControlFrame, parseDataFrame. reads_only_auto.
  destruct (newControlFrame _) as [cframe|err]; reads_only_auto.
  apply reads_only_controlFrame_read.
Qed.

Lemma writes_only_refl (f : Framer) : writes_only f f.
Proof. done. Qed.

Lemma writes_only_trans (f1 f2 f3 : Framer) :
  writes_only f1 f2 → writes_only f2 f3 → writes_only f1 f3.
Proof.
  intros (A1 & B1 & C1 & D1) (A2 & B2 & C2 & D2).
  repeat split; congruence.
Qed.

Lemma writes_only_headerWriter_Write (f f' : Framer) p e :
  headerWriter_Write f p = (f', e) → writes_only f f'.
Proof.
  unfold headerWriter_Write. destruct (headerCompressionDisabled f) eqn:Hd.
  - intros [= <- _]. now repeat split.
  - destruct (deflater_Write _ _) as [z out]. intros [= <- _].
    now repeat split.
Qed.

Lemma writes_only_writeHeaderEntries entries (f f' : Framer) n n' e :
  writeHeaderEntries headerWriter_Write entries f n = (f', n', e) →
  writes_only f f'.
Proof.
  revert f n. induction entries as [|[name values] entries IH]; intros f n;
    cbn [writeHeaderEntries].
  - intros [= <- _ _]. apply writes_only_refl.
  - destruct (headerWriter_Write f _) as [f1 [e1|]] eqn:E1.
    { intros [= <- _ _]. eapply writes_only_headerWriter_Write, E1. }
    destruct (headerWriter_Write f1 _) as [f2 [e2|]] eqn:E2.
    { intros [= <- _ _].
      eapply writes_only_trans; eapply writes_only_headerWriter_Write;
        eassumption. }
    destruct (headerWriter_Write f2 _) as [f3 [e3|]] eqn:E3.
    { intros [= <- _ _].
      eapply writes_only_trans; [|eapply writes_only_headerWriter_Write, E3].
      eapply writes_only_trans; eapply writes_only_headerWriter_Write;
        eassumption. }
    destruct (headerWriter_Write f3 _) as [f4 [e4|]] eqn:E4.
    { intros [= <- _ _].
      eapply writes_only_trans; [|eapply writes_only_headerWriter_Write, E4].
      eapply writes_only_trans; [|eapply writes_only_headerWriter_Write, E3].
      eapply writes_only_trans; eapply writes_only_headerWriter_Write;
        eassumption. }
    intros H. apply IH in H.
    eapply writes_only_trans; [|exact H].
    eapply writes_only_trans; [|eapply writes_only_headerWriter_Write, E4].
    eapply writes_only_trans; [|eapply writes_only_headerWriter_Write, E3].
    eapply writes_only_trans; eapply writes_only_headerWriter_Write;
      eassumption.
Qed.

Lemma writes_only_marshalHeaders (f f' : Framer) h e :
  marshalHeaders f h = (f', e) → writes_only f f'.
Proof.
  unfold marshalHeaders, writeHeaderValueBlock.
  destruct (headerWriter_Write f _) as [f1 [e1|]] eqn:E1.
  { intros [= <- _]. eapply writes_only_headerWriter_Write, E1. }
  destruct (writeHeaderEntries _ _ f1 _) as [[f2 n2] [e2|]] eqn:E2.
  { intros [= <- _]. eapply writes_only_trans.
    - eapply writes_only_headerWriter_Write, E1.
    - eapply writes_only_writeHeaderEntries, E2. }
  assert (H12 : writes_only f f2).
  { eapply writes_only_trans.
    - eapply writes_only_headerWriter_Write, E1.
    - eapply writes_only_writeHeaderEntries, E2. }
  destruct (headerCompressionDisabled f2); intros [= <- _]; [exact H12|].
  eapply writes_only_trans; [exact H12|].
  unfold headerCompressor_Flush. destruct (deflater_Flush _) as [z out].
  done.
Qed.

Lemma writes_only_finish_write {F} (f0 f' : Framer) (frame frame' : F) reset
    res e :
  finish_write f0 frame reset res = (f', frame', e) → writes_only f0 f'.
Proof.
  unfold finish_write. destruct res as [w' [e0|]]; intros [= <- _ _];
    [done|destruct reset; done].
Qed.

(** X24: the two directions of a framer use disjoint parts of it.
    [WriteFrame] never touches the source, the bounded reader or the
    decompressor, and [ReadFrame] never touches the sink, the scratch
    buffer or the compressor; neither changes the compression switch; and
    [ReadFrame] only consumes input, what is left of the source being a
    suffix of what it was. *)
Theorem framer_halves_disjoint :
  (∀ (f f' : Framer) (frame frame' : Frame) (e : option error),
     WriteFrame f frame = (f', frame', e) → writes_only f f')
  ∧ reads_only ReadFrame.
Proof.
  split; [|apply reads_only_ReadFrame].
  intros f f' frame frame' e H.
  destruct frame as [c|d]; cbn [WriteFrame] in H.
  - destruct (controlFrame_write c f) as [[f0 fr0] e0] eqn:Hc.
    injection H as <- _ _.
    destruct c as [fr|fr|fr|fr|fr|fr|fr|fr]; cbn [controlFrame_write] in Hc.
    + destruct (writeSynStreamFrame f fr) as [[f1 fr1] e1] eqn:Hs.
      injection Hc as <- _ _. unfold writeSynStreamFrame in Hs.
      destruct (_ =? 0); [injection Hs as <- _ _; apply writes_only_refl|].
      destruct (marshalHeaders f _) as [f2 [e2|]] eqn:Hm.
      * injection Hs as <- _ _. eapply writes_only_marshalHeaders, Hm.
      * eapply writes_only_trans; [eapply writes_only_marshalHeaders, Hm|].
        eapply writes_only_finish_write, Hs.
    + destruct (writeSynReplyFrame f fr) as [[f1 fr1] e1] eqn:Hs.
      injection Hc as <- _ _. unfold writeSynReplyFrame in Hs.
      destruct (_ =? 0); [injection Hs as <- _ _; apply writes_only_refl|].
      destruct (marshalHeaders f _) as [f2 [e2|]] eqn:Hm.
      * injection Hs as <- _ _. eapply writes_only_marshalHeaders, Hm.
      * eapply writes_only_trans; [eapply writes_only_marshalHeaders, Hm|].
        eapply writes_only_finish_write, Hs.
    + destruct (RstStreamFrame_write fr f) as [[f1 fr1] e1] eqn:Hs.
      injection Hc as <- _ _. unfold RstStreamFrame_write in Hs.
      destruct (_ =? 0); [injection Hs as <- _ _; apply writes_only_refl|].
      eapply writes_only_finish_write, Hs.
    + destruct (SettingsFrame_write fr f) as [[f1 fr1] e1] eqn:Hs.
      injection Hc as <- _ _. eapply writes_only_finish_write, Hs.
    + destruct (PingFrame_write fr f) as [[f1 fr1] e1] eqn:Hs.
      injection Hc as <- _ _. unfold PingFrame_write in Hs.
      destruct (_ =? 0); [injection Hs as <- _ _; apply writes_only_refl|].
      eapply writes_only_finish_write, Hs.
    + destruct (GoAwayFrame_write fr f) as [[f1 fr1] e1] eqn:Hs.
      injection Hc as <- _ _. eapply writes_only_finish_write, Hs.
    + destruct (writeHeadersFrame f fr) as [[f1 fr1] e1] eqn:Hs.
      injection Hc as <- _ _. unfold writeHeadersFrame in Hs.
      destruct (_ =? 0); [injection Hs as <- _ _; apply writes_only_refl|].
      destruct (marshalHeaders f _) as [f2 [e2|]] eqn:Hm.
      * injection Hs as <- _ _. eapply writes_only_marshalHeaders, Hm.
      * eapply writes_only_trans; [eapply writes_only_marshalHeaders, Hm|].
        eapply writes_only_finish_write, Hs.
    + destruct (WindowUpdateFrame_write fr f) as [[f1 fr1] e1] eqn:Hs.
      injection Hc as <- _ _. eapply writes_only_finish_write, Hs.
  - destruct (writeDataFrame f d) as [[f0 fr0] e0] eqn:Hd.
    injection H as <- _ _. unfold writeDataFrame in Hd.
    destruct (_ =? 0); [injection Hd as <- _ _; apply writes_only_refl|].
    destruct (_ || _); [injection Hd as <- _ _; apply writes_only_refl|].
    eapply writes_only_finish_write, Hd.
Qed.

End Halves.
